(** * Siteimprove accessibility-score synchronisation: a shallow embedding

    The development follows the JavaScript sources of the repository:

    - [bulkinsert.js]: the rate-limit aware fetcher
      [fetchWithExponentialBackoff];
    - the server script with the run statistics (the variant that carries
      [counters] through [insertScore]): [logErrorToDatabase],
      [fetchExistingRecords], [insertScore], [fetchAndInsertRecords];
    - [historical-data-batch-v2.js]: the backfill of [site_target_score],
      its timestamp reconciliation and its conditional [UPDATE].

    Asynchronous functions are awaited strictly in sequence in all three
    sources, so an [async] function is modelled as a state-passing function
    that can complete normally or throw. *)

From Stdlib Require Import ZArith Lia String Ascii List DecimalString DecimalPos DecimalZ.
From stdpp Require Import base strings list gmap sets.

Local Open Scope string_scope.
Local Open Scope list_scope.

(** ** Host-language primitives *)

Module Js.

(** A JavaScript number as far as the sources look at one: the result of
    [parseInt] and [parseFloat]. A finite value is kept as an exact decimal
    [mantissa * 10 ^ exponent]; rounding to a double and the sign of zero
    are not represented. *)
Inductive JsNumber : Type :=
  | NaN
  | Infinity (negative : bool)
  | Decimal (mantissa exponent : Z).

Definition Int (z : Z) : JsNumber := Decimal z 0.

Definition isNaN (n : JsNumber) : bool :=
  match n with NaN => true | _ => false end.

(** [n * k] for a positive integer literal [k] (here [* 1000]). *)
Definition times (k : Z) (n : JsNumber) : JsNumber :=
  match n with
  | NaN => NaN
  | Infinity s => Infinity s
  | Decimal m e => Decimal (m * k) e
  end.

(** A value found in a JSON payload. The sources consume payload scalars
    through [typeof v === 'string'], string methods, [parseInt] and
    [parseFloat]; the last two start by converting their argument with
    ToString, so a value that is neither a string, [null] nor
    [undefined] (a missing field) is carried by that rendering ("87.5",
    "true", ...). Reading a property of [null] or [undefined] throws;
    the other values have no string methods. *)
Inductive JsValue : Type :=
  | JString (s : string)
  | JNull
  | JUndefined
  | JNonString (rendering : string).

Definition ToString (v : JsValue) : string :=
  match v with
  | JString s => s
  | JNull => "null"
  | JUndefined => "undefined"
  | JNonString r => r
  end.

(** Truthiness of a value read from a header table: [undefined] and the
    empty string are falsy, every other string is truthy. *)
Definition truthy_header (h : option string) : bool :=
  match h with
  | None => false
  | Some s => negb (String.eqb s "")
  end.

(** White space of the ASCII range (TAB, LF, VT, FF, CR, SP). *)
Definition is_ws (c : ascii) : bool :=
  let n := nat_of_ascii c in
  ((9 <=? n)%nat && (n <=? 13)%nat) || (n =? 32)%nat.

Fixpoint trimStart (s : string) : string :=
  match s with
  | String c r => if is_ws c then trimStart r else s
  | EmptyString => EmptyString
  end.

Fixpoint rev_string (s acc : string) : string :=
  match s with
  | String c r => rev_string r (String c acc)
  | EmptyString => acc
  end.

(** [s.trim()] *)
Definition trim (s : string) : string :=
  rev_string (trimStart (rev_string (trimStart s) "")) "".

(** [s.startsWith(p)] *)
Definition startsWith (s p : string) : bool := String.prefix p s.

(** Value of a character as a digit, up to radix 36. *)
Definition digit_value (c : ascii) : option Z :=
  let n := Z.of_nat (nat_of_ascii c) in
  if (48 <=? n)%Z && (n <=? 57)%Z then Some (n - 48)%Z
  else if (97 <=? n)%Z && (n <=? 122)%Z then Some (n - 87)%Z
  else if (65 <=? n)%Z && (n <=? 90)%Z then Some (n - 55)%Z
  else None.

(** The longest prefix of [s] made of digits of [radix], read as a number:
    [(value, number of digits, rest)]. *)
Fixpoint span_digits (radix : Z) (s : string) (acc count : Z) : Z * Z * string :=
  match s with
  | String c r =>
      match digit_value c with
      | Some d =>
          if (d <? radix)%Z
          then span_digits radix r (radix * acc + d)%Z (count + 1)%Z
          else (acc, count, s)
      | None => (acc, count, s)
      end
  | EmptyString => (acc, count, s)
  end.

(** An optional leading sign: [(negative, rest)]. *)
Definition strip_sign (s : string) : bool * string :=
  match s with
  | String "-" r => (true, r)
  | String "+" r => (false, r)
  | _ => (false, s)
  end.

(** [parseInt(s)] with no radix argument: leading white space, a sign, an
    optional [0x]/[0X] prefix, then the longest run of digits; [NaN] when
    that run is empty. *)
Definition parseInt_string (s : string) : JsNumber :=
  let '(neg, s1) := strip_sign (trimStart s) in
  let '(radix, s2) :=
    match s1 with
    | String "0" (String "x" r) => (16%Z, r)
    | String "0" (String "X" r) => (16%Z, r)
    | _ => (10%Z, s1)
    end in
  let '(m, n, _) := span_digits radix s2 0 0 in
  if (n =? 0)%Z then NaN else Int (if neg then - m else m).

Definition parseInt (v : JsValue) : JsNumber := parseInt_string (ToString v).

(** The exponent part of a decimal literal, [0] when there is none. *)
Definition exponent_part (s : string) : Z :=
  match s with
  | String c r =>
      if (Ascii.eqb c "e" || Ascii.eqb c "E")%bool then
        let '(neg, r1) := strip_sign r in
        let '(e, n, _) := span_digits 10 r1 0 0 in
        if (n =? 0)%Z then 0%Z else (if neg then - e else e)
      else 0%Z
  | EmptyString => 0%Z
  end.

(** [parseFloat(s)]: leading white space, then the longest prefix that is a
    decimal literal ([Infinity], digits with an optional fraction and
    exponent); [NaN] when there is none. *)
Definition parseFloat_string (s : string) : JsNumber :=
  let '(neg, s1) := strip_sign (trimStart s) in
  if String.prefix "Infinity" s1 then Infinity neg
  else
    let '(ip, ni, r1) := span_digits 10 s1 0 0 in
    let '(m, nf, r2) :=
      match r1 with
      | String "." r => span_digits 10 r ip 0
      | _ => (ip, 0%Z, r1)
      end in
    if (ni + nf =? 0)%Z then NaN
    else Decimal (if neg then - m else m) (exponent_part r2 - nf).

Definition parseFloat (v : JsValue) : JsNumber := parseFloat_string (ToString v).

(** Decimal rendering of an integer, as a template literal renders an
    integral number. *)
Definition showZ (z : Z) : string := NilZero.string_of_int (Z.to_int z).

(** What a rejected promise or a [throw] carries. [message] is what the
    sources read as [err.message]; an HTTP failure reported by the client
    library also has [error.response]. *)
Record HttpErrorResponse : Type := {
  status : Z;
  retry_after : option string;   (* headers['retry-after'] *)
  body : string
}.

Inductive JsError : Type :=
  | AxiosError (msg : string) (response : option HttpErrorResponse)
  | DatabaseError (msg : string)
  | TypeError (msg : string)
  | RangeError (msg : string)
  | PlainError (msg : string).

Definition message (e : JsError) : string :=
  match e with
  | AxiosError m _ | DatabaseError m | TypeError m | RangeError m | PlainError m => m
  end.

(** How a statement, a block or an awaited promise ends. *)
Inductive Completion (A : Type) : Type :=
  | Normal (a : A)
  | Throw (e : JsError).
Arguments Normal {A} a.
Arguments Throw {A} e.

Definition is_normal {A} (c : Completion A) : bool :=
  match c with Normal _ => true | Throw _ => false end.

(** Sequential code over a mutable world [S]. *)
Definition M (S A : Type) : Type := S -> Completion A * S.

Definition ret {S A} (a : A) : M S A := fun s => (Normal a, s).

Definition throw {S A} (e : JsError) : M S A := fun s => (Throw e, s).

Definition bind {S A B} (m : M S A) (k : A -> M S B) : M S B :=
  fun s =>
    match m s with
    | (Normal a, s1) => k a s1
    | (Throw e, s1) => (Throw e, s1)
    end.

(** [try { body } catch (e) { handler }] *)
Definition try_catch {S A} (body : M S A) (handler : JsError -> M S A) : M S A :=
  fun s =>
    match body s with
    | (Normal a, s1) => (Normal a, s1)
    | (Throw e, s1) => handler e s1
    end.

Definition modify {S} (f : S -> S) : M S unit := fun s => (Normal tt, f s).

Definition gets {S A} (f : S -> A) : M S A := fun s => (Normal (f s), s).

(** [for (const x of xs) { body x }] *)
Fixpoint for_of {S A} (xs : list A) (body : A -> M S unit) : M S unit :=
  match xs with
  | [] => ret tt
  | x :: rest => bind (body x) (fun _ => for_of rest body)
  end.

End Js.

Import Js.

Notation "x <- c ;; k" := (bind c (fun x => k))
  (at level 100, c at next level, right associativity).
Notation "c ;;; k" := (bind c (fun _ => k))
  (at level 100, right associativity).

(** ** The rate-limited fetcher ([bulkinsert.js], [fetchWithExponentialBackoff]) *)

Module Fetcher.

(** The remote side, as the fetcher sees it: the outcome of the [n]-th
    request sent to [url]. The response type [R] is left open. *)
Definition Upstream (R : Type) : Type := string -> nat -> Completion R.

(** What the fetcher changes: the number of requests sent so far and the
    delays handed to [setTimeout], oldest first. *)
Record Net : Type := {
  requests : nat;
  waits : list JsNumber
}.

Definition idle : Net := {| requests := 0; waits := [] |}.

(** [await axios.get(url, options)] *)
Definition axios_get {R} (up : Upstream R) (url : string) : M Net R :=
  fun st => (up url (requests st),
             {| requests := S (requests st); waits := waits st |}).

(** [await new Promise(resolve => setTimeout(resolve, waitTime))] *)
Definition sleep (waitTime : JsNumber) : M Net unit :=
  modify (fun st => {| requests := requests st; waits := waits st ++ [waitTime] |}).

(** [error.response && error.response.status === 429] *)
Definition rate_limited (e : JsError) : bool :=
  match e with
  | AxiosError _ (Some r) => (status r =? 429)%Z
  | _ => false
  end.

(** [error.response.headers['retry-after']], read only after the test
    above has passed. *)
Definition retryAfter (e : JsError) : option string :=
  match e with
  | AxiosError _ (Some r) => retry_after r
  | _ => None
  end.

(** [retryAfter ? parseInt(retryAfter) * 1000 : delay] *)
Definition waitTime (e : JsError) (delay : Z) : JsNumber :=
  if truthy_header (retryAfter e)
  then times 1000 (parseInt_string (default "" (retryAfter e)))
  else Int delay.

Definition max_retries_exceeded : JsError := PlainError "Max retries exceeded".

(** The [for] loop, [remaining] counting the iterations still allowed
    ([retries - attempt + 1]); [delay] is the loop-carried variable that
    [delay *= 2] doubles at the end of an iteration that did not leave the
    function. *)
Fixpoint attempts {R} (up : Upstream R) (url : string)
    (remaining : nat) (delay : Z) : M Net R :=
  match remaining with
  | O => throw max_retries_exceeded
  | S remaining' =>
      try_catch (axios_get up url)
        (fun error =>
           if rate_limited error
           then sleep (waitTime error delay) ;;;
                attempts up url remaining' (delay * 2)
           else throw error)
  end.

Definition default_retries : nat := 5.
Definition default_delay : Z := 1000.

(** [fetchWithExponentialBackoff(url, options, retries = 5, delay = 1000)];
    an omitted argument is [None]. *)
Definition fetchWithExponentialBackoff {R} (up : Upstream R) (url : string)
    (retries : option nat) (delay : option Z) : M Net R :=
  attempts up url (default default_retries retries) (default default_delay delay).

(** A rate-limit response without a [retry-after] header. *)
Definition bare_429 (e : JsError) : Prop :=
  rate_limited e = true /\ truthy_header (retryAfter e) = false.

(** The [i]-th request from state [st] on is answered by a rate limit. *)
Definition limited_at {R} (up : Upstream R) (url : string) (st : Net) (i : nat) : Prop :=
  exists e, up url (requests st + i) = Throw e /\ rate_limited e = true.

Definition bare_limited_at {R} (up : Upstream R) (url : string) (st : Net) (i : nat) : Prop :=
  exists e, up url (requests st + i) = Throw e /\ bare_429 e.

(** The delays of [k] consecutive back-offs that start from [delay]. *)
Fixpoint doubling (k : nat) (delay : Z) : list Z :=
  match k with
  | O => []
  | S k' => delay :: doubling k' (delay * 2)
  end.

End Fetcher.

(** ** The relational store *)

Module Store.

(** A row of [ada_scores], with the columns the sources write; it is also
    the [record] object that [insertScore] receives. A [DATE] is carried by
    its ISO text. [site_target_score] is the only column the sources ever
    leave [null]. *)
Record ScoreRecord : Type := {
  sid : Z;
  name : string;
  url : string;
  ada_a : JsNumber;
  ada_aa : JsNumber;
  ada_aaa : JsNumber;
  ada_aria : JsNumber;
  ada_score_total : JsNumber;
  site_target_score : option JsNumber;
  date : string
}.

Definition set_target (score : JsNumber) (r : ScoreRecord) : ScoreRecord :=
  {| sid := sid r; name := name r; url := url r;
     ada_a := ada_a r; ada_aa := ada_aa r; ada_aaa := ada_aaa r;
     ada_aria := ada_aria r; ada_score_total := ada_score_total r;
     site_target_score := Some score; date := date r |}.

(** A row of [error_logs] (the [timestamp] column, filled by [NOW()], is
    never read back). *)
Record ErrorLogEntry : Type := {
  log_site_id : option Z;
  log_site_name : option string;
  log_message : string;
  log_level : string
}.

(** The statements the sources send, and [pool.connect()]. *)
Inductive Statement : Type :=
  | InsertErrorLog (e : ErrorLogEntry)
      (* INSERT INTO error_logs (site_id, site_name, message, level, timestamp)
         VALUES ($1, $2, $3, $4, NOW()) *)
  | SelectKeys
      (* SELECT sid, date FROM ada_scores *)
  | InsertScore (r : ScoreRecord)
      (* INSERT INTO ada_scores (...) VALUES (...) ON CONFLICT (sid, date) DO NOTHING *)
  | UpdateTarget (score : JsNumber) (sid : Z) (date : string)
      (* UPDATE ada_scores SET site_target_score = $1
         WHERE sid = $2 AND date = $3 AND site_target_score IS NULL *)
  | Connect.

Record Db : Type := {
  ada_scores : list ScoreRecord;
  error_logs : list ErrorLogEntry;
  statements : list Statement      (* everything the pool was asked, oldest first *)
}.

Record QueryResult : Type := {
  rows : list (Z * string);
  rowCount : nat
}.

(** When the database refuses a request: the [n]-th request the pool
    receives fails with the given message. *)
Definition Faults : Type := nat -> option string.

Definition no_faults : Faults := fun _ => None.

Definition same_key (s : Z) (d : string) (r : ScoreRecord) : bool :=
  (sid r =? s)%Z && String.eqb (date r) d.

(** The rows an [UPDATE ... WHERE sid = $2 AND date = $3 AND
    site_target_score IS NULL] applies to. *)
Definition needs_target (s : Z) (d : string) (r : ScoreRecord) : bool :=
  same_key s d r && match site_target_score r with None => true | Some _ => false end.

Definition patch_rows (score : JsNumber) (s : Z) (d : string)
    (table : list ScoreRecord) : list ScoreRecord :=
  map (fun r => if needs_target s d r then set_target score r else r) table.

Definition with_scores (table : list ScoreRecord) (db : Db) : Db :=
  {| ada_scores := table; error_logs := error_logs db; statements := statements db |}.

Definition with_logs (logs : list ErrorLogEntry) (db : Db) : Db :=
  {| ada_scores := ada_scores db; error_logs := logs; statements := statements db |}.

Definition record_statement (stmt : Statement) (db : Db) : Db :=
  {| ada_scores := ada_scores db; error_logs := error_logs db;
     statements := statements db ++ [stmt] |}.

(** The effect of a statement the database accepts. *)
Definition execute (stmt : Statement) (db : Db) : QueryResult * Db :=
  match stmt with
  | InsertErrorLog e =>
      ({| rows := []; rowCount := 1 |}, with_logs (error_logs db ++ [e]) db)
  | SelectKeys =>
      ({| rows := map (fun r => (sid r, date r)) (ada_scores db);
          rowCount := length (ada_scores db) |}, db)
  | InsertScore r =>
      if existsb (same_key (sid r) (date r)) (ada_scores db)
      then ({| rows := []; rowCount := 0 |}, db)
      else ({| rows := []; rowCount := 1 |}, with_scores (ada_scores db ++ [r]) db)
  | UpdateTarget score s d =>
      ({| rows := [];
          rowCount := length (List.filter (needs_target s d) (ada_scores db)) |},
       with_scores (patch_rows score s d (ada_scores db)) db)
  | Connect => ({| rows := []; rowCount := 0 |}, db)
  end.

(** [await pool.query(text, values)] (and [client.query]): the request is
    received; it either fails, leaving the tables as they were, or takes
    effect. *)
Definition pool_query (faults : Faults) (stmt : Statement) : M Db QueryResult :=
  fun db =>
    let db1 := record_statement stmt db in
    match faults (length (statements db)) with
    | Some msg => (Throw (DatabaseError msg), db1)
    | None => let '(res, db2) := execute stmt db1 in (Normal res, db2)
    end.

(** The composite uniqueness constraint [UNIQUE (sid, date)]. *)
Definition key_of (r : ScoreRecord) : Z * string := (sid r, date r).

Definition unique_site_date (table : list ScoreRecord) : Prop :=
  NoDup (map key_of table).

Definition has_row (s : Z) (d : string) (table : list ScoreRecord) : Prop :=
  exists r, r ∈ table /\ sid r = s /\ date r = d.

(** How [INSERT ... ON CONFLICT (sid, date) DO NOTHING] for the key
    [(s, d)] can change the table: not at all, or by one row with that key,
    which no earlier row has. *)
Definition table_step (s : Z) (d : string) (t t' : list ScoreRecord) : Prop :=
  t' = t \/
  exists r, t' = t ++ [r] /\ sid r = s /\ date r = d
            /\ existsb (same_key s d) t = false.

End Store.

(** ** What the reporting API returns *)

Module Api.

(** An element of [response.data.items] of the site directory. [product]
    is [None] when the field is missing, in which case
    [site.product.includes] throws. *)
Record Site : Type := {
  id : Z;
  site_name : string;
  url : string;
  product : option (list string)
}.

(** [scoreResponse.data.a11y] *)
Record A11y : Type := {
  a : JsValue;
  aa : JsValue;
  aaa : JsValue;
  aria : JsValue;
  total : JsValue
}.

(** An element of [targetResponse.data.items]. *)
Record HistoryEntry : Type := {
  timestamp : JsValue;
  site_target_percentage : JsValue
}.

End Api.

(** ** The incremental sweep (the server script with run statistics) *)

Module Sweep.
Import Store.

(** Everything outside the process that one sweep talks to. The remote
    answers depend on the request only, and the UTC calendar date read from
    the clock is the same throughout. *)
Record Env : Type := {
  today : string;
      (* new Date().toISOString().split('T')[0] *)
  sites_api : Completion (option (list Api.Site));
      (* GET /v2/sites?group_id=1183842&page_size=250, then .data.items *)
  overview_api : Z -> Completion (option Api.A11y);
      (* GET /v2/sites/{id}/dci/overview, then .data.a11y *)
  history_api : Z -> Completion (option (list Api.HistoryEntry));
      (* GET /v2/sites/{id}/a11y/overview/site_target/history, then .data.items *)
  faults : Faults;
  date_text : string -> string
      (* how the database driver's value for a DATE column renders inside
         a template literal *)
}.

(** The [stats] object, passed to [insertScore] as [counters]. *)
Record Stats : Type := {
  sitesPulled : nat;
  processed : nat;
  inserted : nat;
  skippedExisting : nat;
  targetInfoNotes : nat;
  targetErrors : nat;
  insertErrors : nat
}.

Definition zero_stats : Stats :=
  {| sitesPulled := 0; processed := 0; inserted := 0; skippedExisting := 0;
     targetInfoNotes := 0; targetErrors := 0; insertErrors := 0 |}.

(** The objects one sweep mutates: the database, the [existingRecords] set
    and the statistics. *)
Record Run : Type := {
  db : Db;
  existingRecords : gset string;
  stats : Stats
}.

Definition on_db (f : Db -> Db) (s : Run) : Run :=
  {| db := f (db s); existingRecords := existingRecords s; stats := stats s |}.

Definition on_stats (f : Stats -> Stats) (s : Run) : Run :=
  {| db := db s; existingRecords := existingRecords s; stats := f (stats s) |}.

Definition add_existing (key : string) (s : Run) : Run :=
  {| db := db s; existingRecords := {[ key ]} ∪ existingRecords s; stats := stats s |}.

(** Code that only touches the database, run inside a sweep. *)
Definition with_db {A} (m : M Db A) : M Run A :=
  fun s => let '(c, d) := m (db s) in
           (c, {| db := d; existingRecords := existingRecords s; stats := stats s |}).

Definition set_sitesPulled (n : nat) (c : Stats) : Stats :=
  {| sitesPulled := n; processed := processed c; inserted := inserted c;
     skippedExisting := skippedExisting c; targetInfoNotes := targetInfoNotes c;
     targetErrors := targetErrors c; insertErrors := insertErrors c |}.

Definition incr_processed (c : Stats) : Stats :=
  {| sitesPulled := sitesPulled c; processed := S (processed c); inserted := inserted c;
     skippedExisting := skippedExisting c; targetInfoNotes := targetInfoNotes c;
     targetErrors := targetErrors c; insertErrors := insertErrors c |}.

Definition incr_inserted (c : Stats) : Stats :=
  {| sitesPulled := sitesPulled c; processed := processed c; inserted := S (inserted c);
     skippedExisting := skippedExisting c; targetInfoNotes := targetInfoNotes c;
     targetErrors := targetErrors c; insertErrors := insertErrors c |}.

Definition incr_skippedExisting (c : Stats) : Stats :=
  {| sitesPulled := sitesPulled c; processed := processed c; inserted := inserted c;
     skippedExisting := S (skippedExisting c); targetInfoNotes := targetInfoNotes c;
     targetErrors := targetErrors c; insertErrors := insertErrors c |}.

Definition incr_targetInfoNotes (c : Stats) : Stats :=
  {| sitesPulled := sitesPulled c; processed := processed c; inserted := inserted c;
     skippedExisting := skippedExisting c; targetInfoNotes := S (targetInfoNotes c);
     targetErrors := targetErrors c; insertErrors := insertErrors c |}.

Definition incr_targetErrors (c : Stats) : Stats :=
  {| sitesPulled := sitesPulled c; processed := processed c; inserted := inserted c;
     skippedExisting := skippedExisting c; targetInfoNotes := targetInfoNotes c;
     targetErrors := S (targetErrors c); insertErrors := insertErrors c |}.

Definition incr_insertErrors (c : Stats) : Stats :=
  {| sitesPulled := sitesPulled c; processed := processed c; inserted := inserted c;
     skippedExisting := skippedExisting c; targetInfoNotes := targetInfoNotes c;
     targetErrors := targetErrors c; insertErrors := S (insertErrors c) |}.

(** [`${sid}-${date}`] *)
Definition record_key (s : Z) (d : string) : string := showZ s +:+ "-" +:+ d.

(** [siteId || null]: a falsy identifier (absent, or the number 0) is
    stored as [null]. *)
Definition id_or_null (siteId : option Z) : option Z :=
  match siteId with
  | Some z => if (z =? 0)%Z then None else Some z
  | None => None
  end.

(** [siteName || null] *)
Definition name_or_null (siteName : option string) : option string :=
  match siteName with
  | Some s => if String.eqb s "" then None else Some s
  | None => None
  end.

(** The parameter array [[siteId || null, siteName || null, errorMessage,
    level]] of the error-log INSERT, [level] defaulting to ['ERROR']. *)
Definition log_entry (siteId : option Z) (siteName : option string)
    (errorMessage : string) (level : option string) : ErrorLogEntry :=
  {| log_site_id := id_or_null siteId;
     log_site_name := name_or_null siteName;
     log_message := errorMessage;
     log_level := default "ERROR" level |}.

Section WithEnv.
Context (env : Env).

(** [logErrorToDatabase(siteId, siteName, errorMessage, level = 'ERROR')] *)
Definition logErrorToDatabase (siteId : option Z) (siteName : option string)
    (errorMessage : string) (level : option string) : M Db unit :=
  try_catch
    (pool_query (faults env)
       (InsertErrorLog (log_entry siteId siteName errorMessage level)) ;;;
     ret tt (* console.log *))
    (fun error => ret tt (* console.error *)).

(** The database after [logErrorToDatabase] has run. *)
Definition logged (siteId : option Z) (siteName : option string)
    (errorMessage : string) (level : option string) (d : Db) : Db :=
  (logErrorToDatabase siteId siteName errorMessage level d).2.

(** [fetchExistingRecords()] *)
Definition fetchExistingRecords : M Db (gset string) :=
  result <- pool_query (faults env) SelectKeys ;;
  ret (list_to_set
         (map (fun row => record_key row.1 (date_text env row.2)) (rows result))).

(** [insertScore(record, existingRecords, counters)] *)
Definition insertScore (record : ScoreRecord) : M Run bool :=
  let key := record_key (sid record) (date record) in
  existing <- gets existingRecords ;;
  if decide (key ∈ existing) then
    modify (on_stats incr_skippedExisting) ;;;
    ret false
  else
    try_catch
      (result <- with_db (pool_query (faults env) (InsertScore record)) ;;
       if (0 <? rowCount result)%nat then
         modify (on_stats incr_inserted) ;;;
         modify (add_existing key) ;;;
         ret true
       else
         modify (on_stats incr_skippedExisting) ;;;
         ret false)
      (fun err =>
         modify (on_stats incr_insertErrors) ;;;
         with_db (logErrorToDatabase (Some (sid record)) (Some (name record))
                    (message err) None) ;;;
         ret false).

(** [await axios.get(...)] against one of the three endpoints. *)
Definition axios_get {A} (answer : Completion A) : M Run A :=
  fun s => (answer, s).

(** [x || []] for a payload field that should be an array. *)
Definition or_empty {A} (items : option (list A)) : list A := default [] items.

Definition missing_product : JsError :=
  TypeError "Cannot read properties of undefined (reading 'includes')".

Definition missing_a11y : JsError :=
  TypeError "Cannot destructure property 'a' of 'scoreResponse.data.a11y' as it is undefined.".

(** [items.filter(site => site.product.includes('accessibility'))] *)
Fixpoint filter_accessible (items : list Api.Site) : Completion (list Api.Site) :=
  match items with
  | [] => Normal []
  | site :: rest =>
      match Api.product site with
      | None => Throw missing_product
      | Some tags =>
          match filter_accessible rest with
          | Normal kept =>
              Normal (if bool_decide ("accessibility" ∈ tags) then site :: kept else kept)
          | Throw e => Throw e
          end
      end
  end.

(** [entry => typeof entry.timestamp === 'string' &&
    entry.timestamp.startsWith(todayStr)] *)
Definition is_today (entry : Api.HistoryEntry) : bool :=
  match Api.timestamp entry with
  | JString ts => startsWith ts (today env)
  | JNull | JUndefined | JNonString _ => false
  end.

(** The inner [try]/[catch] of the site loop: the value left in
    [siteTarget]. *)
Definition collectTarget (site : Api.Site) : M Run (option JsNumber) :=
  try_catch
    (targetResponse <- axios_get (history_api env (Api.id site)) ;;
     match List.find is_today (or_empty targetResponse) with
     | Some todayTarget =>
         ret (Some (parseFloat (Api.site_target_percentage todayTarget)))
     | None =>
         modify (on_stats incr_targetInfoNotes) ;;;
         with_db (logErrorToDatabase (Some (Api.id site)) (Some (Api.site_name site))
                    "No site_target_percentage entry for today" (Some "INFO")) ;;;
         ret None
     end)
    (fun targetErr =>
       modify (on_stats incr_targetErrors) ;;;
       with_db (logErrorToDatabase (Some (Api.id site)) (Some (Api.site_name site))
                  ("Target score fetch error: " +:+ message targetErr) (Some "INFO")) ;;;
       ret None).

(** The [record] literal of the site loop. *)
Definition build_record (site : Api.Site) (scores : Api.A11y)
    (siteTarget : option JsNumber) : ScoreRecord :=
  {| sid := Api.id site;
     name := Api.site_name site;
     url := Api.url site;
     ada_a := parseInt (Api.a scores);
     ada_aa := parseInt (Api.aa scores);
     ada_aaa := parseInt (Api.aaa scores);
     ada_aria := parseInt (Api.aria scores);
     ada_score_total := parseInt (Api.total scores);
     site_target_score := siteTarget;
     date := today env |}.

(** The body of [for (const site of batch)]. *)
Definition processSite (site : Api.Site) : M Run unit :=
  try_catch
    (modify (on_stats incr_processed) ;;;
     scoreResponse <- axios_get (overview_api env (Api.id site)) ;;
     siteTarget <- collectTarget site ;;
     match scoreResponse with
     | None => throw missing_a11y
     | Some scores =>
         insertScore (build_record site scores siteTarget) ;;;
         ret tt
     end)
    (fun err =>
       with_db (logErrorToDatabase (Some (Api.id site)) (Some (Api.site_name site))
                  ("Approved site failed during processing: " +:+ message err)
                  (Some "WARNING"))).

(** [sites.slice(i, i + 20)] for each [i] the outer [for] visits; [fuel]
    bounds the number of iterations. *)
Fixpoint batches_from (fuel i : nat) (sites : list Api.Site) : list (list Api.Site) :=
  match fuel with
  | O => []
  | S fuel' =>
      if (i <? length sites)%nat
      then take 20 (drop i sites) :: batches_from fuel' (i + 20) sites
      else []
  end.

Definition batches (sites : list Api.Site) : list (list Api.Site) :=
  batches_from (length sites) 0 sites.

(** The [try] block of [fetchAndInsertRecords]. *)
Definition sweep_body : M Run Stats :=
  response <- axios_get (sites_api env) ;;
  sites <- (fun s => (filter_accessible (or_empty response), s)) ;;
  modify (on_stats (set_sitesPulled (length sites))) ;;;
  for_of (batches sites)
    (fun batch => for_of batch processSite ;;; ret tt (* logMemoryUsage *)) ;;;
  gets stats.

(** [fetchAndInsertRecords()] *)
Definition fetchAndInsertRecords : M Db Stats :=
  fun db0 =>
    match fetchExistingRecords db0 with
    | (Throw e, db1) => (Throw e, db1)
    | (Normal existing, db1) =>
        let '(c, s) :=
          try_catch sweep_body
            (fun err =>
               with_db (logErrorToDatabase None (Some "General API Error")
                          (message err) None) ;;;
               throw err)
            {| db := db1; existingRecords := existing; stats := zero_stats |} in
        (c, db s)
    end.

(** The state the site loop's body leaves, and the state after the loop
    has gone through [sites]. *)
Definition site_step (s : Run) (site : Api.Site) : Run := (processSite site s).2.

Definition after_sites (sites : list Api.Site) (s : Run) : Run :=
  foldl site_step s sites.

(** The set [fetchExistingRecords] builds from a table. *)
Definition index_of (table : list ScoreRecord) : gset string :=
  list_to_set (map (fun r => record_key (sid r) (date_text env (date r))) table).

(** The overview call returned the score object. *)
Definition scored (site : Api.Site) : bool :=
  match overview_api env (Api.id site) with
  | Normal (Some _) => true
  | _ => false
  end.

Definition count_scored (sites : list Api.Site) : nat :=
  length (List.filter scored sites).

(** Every key of the in-memory set is either one of [base] or the key of
    a row for today's date that is in the table. *)
Definition index_sound (base : gset string) (s : Run) : Prop :=
  forall k, k ∈ existingRecords s ->
    k ∈ base \/
    exists i, k = record_key i (today env) /\ has_row i (today env) (ada_scores (db s)).

(** The general-failure [catch] of the sweep. *)
Definition reported (err : JsError) : Db -> Db :=
  logged None (Some "General API Error") (message err) None.

(** The [catch] of the site loop: a WARNING entry for the error sink. *)
Definition warned (site : Api.Site) (err : JsError) : Run -> Run :=
  on_db (logged (Some (Api.id site)) (Some (Api.site_name site))
           ("Approved site failed during processing: " +:+ message err)
           (Some "WARNING")).

(** The value of [siteTarget] after the inner [try]/[catch]. *)
Definition target_of (c : Completion (option JsNumber)) : option JsNumber :=
  match c with Normal t => t | Throw _ => None end.

(** How many of the requests of [trace], the first of which is the pool's
    request number [n], are INSERTs into [ada_scores] that the database
    refuses. *)
Fixpoint refused_inserts (n : nat) (trace : list Statement) : nat :=
  match trace with
  | [] => 0
  | stmt :: rest =>
      match stmt, faults env n with
      | InsertScore _, Some _ => S (refused_inserts (S n) rest)
      | _, _ => refused_inserts (S n) rest
      end
  end.

(** Every INSERT of [trace] that the database refuses is followed by the
    request of an ERROR entry with the database's message for the record's
    site; the first request of [trace] is the pool's request number
    [from]. *)
Definition refusals_logged (from : nat) (trace : list Statement) : Prop :=
  forall (n : nat) (r : ScoreRecord) (msg : string),
    trace !! n = Some (InsertScore r) ->
    faults env (from + n) = Some msg ->
    trace !! S n
      = Some (InsertErrorLog (log_entry (Some (sid r)) (Some (name r)) msg None)).

(** The INSERT of [site]'s record for today was refused and handled in
    [insertScore]: it is request number [n] of the pool, [from] or later,
    the database answers it with an error, and the next request is the
    INSERT of an ERROR entry with the error's message into the error sink,
    which holds the entry if that request is accepted. *)
Definition insert_refused (from : nat) (site : Api.Site) (d : Db) : Prop :=
  exists (n : nat) (r : ScoreRecord) (msg : string),
    from <= n
    /\ statements d !! n = Some (InsertScore r)
    /\ sid r = Api.id site /\ name r = Api.site_name site /\ date r = today env
    /\ faults env n = Some msg
    /\ statements d !! S n
       = Some (InsertErrorLog
                 {| log_site_id := id_or_null (Some (Api.id site));
                    log_site_name := name_or_null (Some (Api.site_name site));
                    log_message := msg;
                    log_level := "ERROR" |})
    /\ (faults env (S n) = None ->
        {| log_site_id := id_or_null (Some (Api.id site));
           log_site_name := name_or_null (Some (Api.site_name site));
           log_message := msg;
           log_level := "ERROR" |} ∈ error_logs d).

End WithEnv.

End Sweep.

(** ** Calendar dates, as [Date] computes them *)

Module JsDate.
Local Open Scope Z_scope.

(** Days from 1970-01-01 to the civil date [y-m-d] (proleptic Gregorian
    calendar); a day number past the end of the month runs on into the
    next one. *)
Definition days_from_civil (y m d : Z) : Z :=
  let y' := if m <=? 2 then y - 1 else y in
  let era := y' / 400 in
  let yoe := y' - era * 400 in
  let mp := (m + 9) mod 12 in
  let doy := (153 * mp + 2) / 5 + d - 1 in
  let doe := yoe * 365 + yoe / 4 - yoe / 100 + doy in
  era * 146097 + doe - 719468.

(** The civil date of a day number. *)
Definition civil_from_days (n : Z) : Z * Z * Z :=
  let z := n + 719468 in
  let era := z / 146097 in
  let doe := z - era * 146097 in
  let yoe := (doe - doe / 1460 + doe / 36524 - doe / 146096) / 365 in
  let y := yoe + era * 400 in
  let doy := doe - (365 * yoe + yoe / 4 - yoe / 100) in
  let mp := (5 * doy + 2) / 153 in
  let d := doy - (153 * mp + 2) / 5 + 1 in
  let m := if mp <? 10 then mp + 3 else mp - 9 in
  (if m <=? 2 then y + 1 else y, m, d).

(** Exactly [n] decimal digits at the head of [s]: their value and the
    rest. *)
Fixpoint digits (n : nat) (s : string) (acc : Z) : option (Z * string) :=
  match n with
  | O => Some (acc, s)
  | S n' =>
      match s with
      | String c r =>
          match digit_value c with
          | Some d => if d <? 10 then digits n' r (10 * acc + d) else None
          | None => None
          end
      | EmptyString => None
      end
  end.

Definition expect (c : ascii) (s : string) : option string :=
  match s with
  | String x r => if Ascii.eqb x c then Some r else None
  | EmptyString => None
  end.

(** What follows the time of day: nothing (local time, [None]), [Z], or a
    signed [HH:mm] offset, in minutes ahead of UTC. *)
Definition zone (s : string) : option (option Z) :=
  match s with
  | EmptyString => Some None
  | String "Z" EmptyString => Some (Some 0)
  | String sign r =>
      if (Ascii.eqb sign "+" || Ascii.eqb sign "-")%bool then
        '(h, r1) ← digits 2 r 0;
        r2 ← expect ":" r1;
        '(mi, r3) ← digits 2 r2 0;
        match r3 with
        | EmptyString =>
            if (h <=? 23) && (mi <=? 59)
            then Some (Some ((if Ascii.eqb sign "-" then -1 else 1) * (h * 60 + mi)))
            else None
        | _ => None
        end
      else None
  end.

(** An optional [:ss] and an optional [.sss] after [HH:mm]:
    [(seconds, milliseconds, rest)]. *)
Definition seconds (s : string) : option (Z * Z * string) :=
  match s with
  | String ":" r =>
      '(sec, r1) ← digits 2 r 0;
      match r1 with
      | String "." r2 => '(ms, r3) ← digits 3 r2 0; Some (sec, ms, r3)
      | _ => Some (sec, 0, r1)
      end
  | _ => Some (0, 0, s)
  end.

(** The fields of a string in the ECMAScript date-time format
    [YYYY-MM-DD] or [YYYY-MM-DDTHH:mm[:ss[.sss]]] followed by nothing, [Z]
    or [+HH:mm]/[-HH:mm]: the milliseconds from the epoch to that civil
    time, and the zone it is written in ([None]: the host's). A date alone
    is UTC. *)
Definition fields (s : string) : option (Z * option Z) :=
  '(y, r1) ← digits 4 s 0;
  r2 ← expect "-" r1;
  '(m, r3) ← digits 2 r2 0;
  r4 ← expect "-" r3;
  '(d, r5) ← digits 2 r4 0;
  if negb ((1 <=? m) && (m <=? 12) && (1 <=? d) && (d <=? 31)) then None
  else
    let day := days_from_civil y m d in
    match r5 with
    | EmptyString => Some (day * 86400000, Some 0)
    | String "T" r6 =>
        '(h, r7) ← digits 2 r6 0;
        r8 ← expect ":" r7;
        '(mi, r9) ← digits 2 r8 0;
        '(sec, ms, r10) ← seconds r9;
        z ← zone r10;
        if (h <=? 23) && (mi <=? 59) && (sec <=? 59)
        then Some (day * 86400000 + h * 3600000 + mi * 60000 + sec * 1000 + ms, z)
        else None
    | _ => None
    end.

(** How far daylight saving time puts the clock forward. *)
Inductive Saving : Type :=
  | NoSaving
  | HalfHour
  | OneHour
  | TwoHours.

Definition saving_minutes (s : Saving) : Z :=
  match s with
  | NoSaving => 0
  | HalfHour => 30
  | OneHour => 60
  | TwoHours => 120
  end.

(** The time zone of the host. Its standard time is [standard] minutes
    ahead of UTC; [saving_at t] is the daylight saving in force at the
    instant [t]; [saving_for local] is the one the engine takes for a local
    time value, any local time that the clock change skips or repeats
    included. *)
Record Zone : Type := {
  standard : Z;
  saving_at : Z -> Saving;
  saving_for : Z -> Saving
}.

(** Minutes the zone is ahead of UTC at the instant [t] (LocalTime adds
    them), and for the local time value [local] (UTC subtracts them). *)
Definition offset_at (zone : Zone) (t : Z) : Z :=
  standard zone + saving_minutes (saving_at zone t).

Definition offset_for (zone : Zone) (local : Z) : Z :=
  standard zone + saving_minutes (saving_for zone local).

(** A zone without daylight saving. *)
Definition fixed (offset : Z) : Zone :=
  {| standard := offset;
     saving_at := fun _ => NoSaving;
     saving_for := fun _ => NoSaving |}.

(** [new Date(s)]: the time value in milliseconds since the epoch, [None]
    for an Invalid Date. A date and a time with no zone is local time. What
    the engine makes of a string that is not in the format of [fields] is
    left to the implementation by the language: [other] gives it. *)
Definition parse (zone : Zone) (other : string -> option Z) (s : string)
    : option Z :=
  match fields s with
  | Some (t, Some z) => Some (t - z * 60000)
  | Some (t, None) => Some (t - offset_for zone t * 60000)
  | None => other s
  end.

Definition pad2 (n : Z) : string :=
  (if n <? 10 then "0" else "") +:+ showZ n.

Definition pad4 (n : Z) : string :=
  (if n <? 10 then "000" else if n <? 100 then "00" else if n <? 1000 then "0" else "")
  +:+ showZ n.

Definition pad6 (n : Z) : string :=
  (if n <? 10 then "00000" else if n <? 100 then "0000" else if n <? 1000 then "000"
   else if n <? 10000 then "00" else if n <? 100000 then "0" else "") +:+ showZ n.

(** [date.toISOString().split('T')[0]] for a valid time value: the UTC
    calendar date, the year on four digits or, outside 0..9999, signed on
    six. *)
Definition iso_date (t : Z) : string :=
  let '(y, m, d) := civil_from_days (t / 86400000) in
  (if (0 <=? y) && (y <=? 9999) then pad4 y
   else if y <? 0 then "-" +:+ pad6 (- y) else "+" +:+ pad6 y)
  +:+ "-" +:+ pad2 m +:+ "-" +:+ pad2 d.

(** [s.replace(' ', 'T')]: the first occurrence only. *)
Fixpoint replace_space (s : string) : string :=
  match s with
  | String c r => if Ascii.eqb c " " then String "T" r else String c (replace_space r)
  | EmptyString => EmptyString
  end.

End JsDate.

(** ** The backfill of target scores ([historical-data-batch-v2.js]) *)

Module Backfill.
Import Store.

Record Env : Type := {
  zone : JsDate.Zone;
      (* the time zone of the host *)
  other_dates : string -> option Z;
      (* what [new Date] of the engine returns for a string outside the
         date-time format, [None] for an Invalid Date *)
  approved : Api.Site -> bool;
      (* approvedUrls.has(normalizeUrlKey(site.url)) *)
  history_api : Z -> Completion (option (list Api.HistoryEntry));
      (* GET /v2/sites/{id}/a11y/overview/site_target/history, then .data.items *)
  faults : Faults
}.

(** An element of [updates]. *)
Record Update : Type := {
  u_sid : Z;
  u_date : string;
  u_score : JsNumber
}.

(** An element of [missingTargetLogs]. *)
Record Miss : Type := {
  m_sid : Z;
  m_name : string;
  m_date : string;
  m_reason : string
}.

(** The arrays one batch of sites fills. *)
Record Batch : Type := {
  updates : list Update;
  missingTargetLogs : list Miss
}.

Definition push_update (u : Update) (b : Batch) : Batch :=
  {| updates := updates b ++ [u]; missingTargetLogs := missingTargetLogs b |}.

Definition push_miss (m : Miss) (b : Batch) : Batch :=
  {| updates := updates b; missingTargetLogs := missingTargetLogs b ++ [m] |}.

Section WithEnv.
Context (env : Env).

(** [new Date(entry.timestamp.trim().replace(' ', 'T')).toISOString()
    .split('T')[0]] *)
Definition entry_date (entry : Api.HistoryEntry) : Completion string :=
  match Api.timestamp entry with
  | JNull =>
      Throw (TypeError "Cannot read properties of null (reading 'trim')")
  | JUndefined =>
      Throw (TypeError "Cannot read properties of undefined (reading 'trim')")
  | JNonString _ => Throw (TypeError "entry.timestamp.trim is not a function")
  | JString ts =>
      match JsDate.parse (zone env) (other_dates env)
              (JsDate.replace_space (trim ts)) with
      | None => Throw (RangeError "Invalid time value")
      | Some t => Normal (JsDate.iso_date t)
      end
  end.

(** [items.find(entry => { ...; return iso === dateStr; })] *)
Fixpoint find_entry (dateStr : string) (items : list Api.HistoryEntry)
    : Completion (option Api.HistoryEntry) :=
  match items with
  | [] => Normal None
  | entry :: rest =>
      match entry_date entry with
      | Throw e => Throw e
      | Normal iso =>
          if String.eqb iso dateStr then Normal (Some entry)
          else find_entry dateStr rest
      end
  end.

(** The body of [for (const site of batch)]. *)
Definition processSite (dateStr : string) (site : Api.Site) : M Batch unit :=
  if negb (approved env site) then ret tt (* continue *)
  else
    try_catch
      (targetRes <- (fun b => (history_api env (Api.id site), b)) ;;
       targetEntry <- (fun b => (find_entry dateStr (default [] targetRes), b)) ;;
       match targetEntry with
       | Some entry =>
           let score := parseFloat (Api.site_target_percentage entry) in
           if negb (isNaN score) then
             modify (push_update {| u_sid := Api.id site; u_date := dateStr;
                                    u_score := score |})
           else
             modify (push_miss {| m_sid := Api.id site; m_name := Api.site_name site;
                                  m_date := dateStr;
                                  m_reason := "site_target_percentage not a number" |})
       | None =>
           modify (push_miss {| m_sid := Api.id site; m_name := Api.site_name site;
                                m_date := dateStr;
                                m_reason := "No site_target_percentage" |})
       end)
      (fun err =>
         modify (push_miss {| m_sid := Api.id site; m_name := Api.site_name site;
                              m_date := dateStr;
                              m_reason := "Fetch error: " +:+ message err |})).

(** One [client.query] of the batch update,
    [patchTargetIfMissing(siteId, date, score)] in the words of the
    specification: the number of rows affected. *)
Definition patchTargetIfMissing (s : Z) (d : string) (score : JsNumber) : M Db nat :=
  result <- pool_query (faults env) (UpdateTarget score s d) ;;
  ret (rowCount result).

(** [if (updates.length > 0) { ... }]: every query is handed to the client
    when [updates.map] runs, so each is executed whether or not another
    one fails; a rejection only reaches the [catch], which logs it. *)
Definition batchUpdate (us : list Update) : M Db unit :=
  match us with
  | [] => ret tt
  | _ =>
      pool_query (faults env) Connect ;;;
      for_of us
        (fun u => try_catch
                    (patchTargetIfMissing (u_sid u) (u_date u) (u_score u) ;;; ret tt)
                    (fun err => ret tt))
  end.

End WithEnv.

End Backfill.

(** ** Reachable stores *)

Module Pipeline.
Import Store.

(** The states of the database that the pipeline produces from one that
    satisfies its uniqueness constraint: by [insertScore], by a conditional
    patch of the backfill (alone or as a batch update), by an entry in the
    error log, or by a whole sweep, under any behaviour of the remote side
    and of the database. *)
Inductive reachable : Db -> Prop :=
  | reach_init db :
      unique_site_date (ada_scores db) -> reachable db
  | reach_insertScore env record existing counters db :
      reachable db ->
      reachable (Sweep.db (Sweep.insertScore env record
                   {| Sweep.db := db; Sweep.existingRecords := existing;
                      Sweep.stats := counters |}).2)
  | reach_patch env s d score db :
      reachable db ->
      reachable (Backfill.patchTargetIfMissing env s d score db).2
  | reach_batchUpdate env us db :
      reachable db ->
      reachable (Backfill.batchUpdate env us db).2
  | reach_log env siteId siteName msg level db :
      reachable db ->
      reachable (Sweep.logErrorToDatabase env siteId siteName msg level db).2
  | reach_sweep env db :
      reachable db ->
      reachable (Sweep.fetchAndInsertRecords env db).2.

(** The same operations, named, and what each leaves of a database. *)
Inductive Operation : Type :=
  | InsertScoreOp (env : Sweep.Env) (record : ScoreRecord)
      (existing : gset string) (counters : Sweep.Stats)
  | PatchOp (env : Backfill.Env) (s : Z) (d : string) (score : JsNumber)
  | BatchUpdateOp (env : Backfill.Env) (us : list Backfill.Update)
  | LogOp (env : Sweep.Env) (siteId : option Z) (siteName : option string)
      (msg : string) (level : option string)
  | SweepOp (env : Sweep.Env).

Definition run (op : Operation) (db : Db) : Db :=
  match op with
  | InsertScoreOp env record existing counters =>
      Sweep.db (Sweep.insertScore env record
                  {| Sweep.db := db; Sweep.existingRecords := existing;
                     Sweep.stats := counters |}).2
  | PatchOp env s d score => (Backfill.patchTargetIfMissing env s d score db).2
  | BatchUpdateOp env us => (Backfill.batchUpdate env us db).2
  | LogOp env siteId siteName msg level =>
      (Sweep.logErrorToDatabase env siteId siteName msg level db).2
  | SweepOp env => (Sweep.fetchAndInsertRecords env db).2
  end.

End Pipeline.


(** ** Concrete inputs *)

Module Examples.
Import Store.

Definition alpha : Api.Site :=
  {| Api.id := 101; Api.site_name := "Alpha"; Api.url := "https://alpha.example.org";
     Api.product := Some ["accessibility"; "seo"] |}.

Definition beta : Api.Site :=
  {| Api.id := 102; Api.site_name := "Beta"; Api.url := "https://beta.example.org";
     Api.product := Some ["accessibility"] |}.

Definition gamma : Api.Site :=
  {| Api.id := 103; Api.site_name := "Gamma"; Api.url := "https://gamma.example.org";
     Api.product := Some ["accessibility"] |}.

Definition good_scores : Api.A11y :=
  {| Api.a := JNonString "91.2"; Api.aa := JNonString "84";
     Api.aaa := JNonString "77.5"; Api.aria := JNonString "88";
     Api.total := JNonString "85.1" |}.

(** An overview payload whose level-A score is not a number. *)
Definition bad_scores : Api.A11y :=
  {| Api.a := JString "n/a"; Api.aa := JNonString "84";
     Api.aaa := JNonString "77.5"; Api.aria := JNonString "88";
     Api.total := JNonString "85.1" |}.

Definition entry_14 : Api.HistoryEntry :=
  {| Api.timestamp := JString "2025-06-14 00:00:00";
     Api.site_target_percentage := JNonString "80" |}.

Definition entry_15 : Api.HistoryEntry :=
  {| Api.timestamp := JString "2025-06-15 00:00:00";
     Api.site_target_percentage := JNonString "82.5" |}.

Definition history_june : list Api.HistoryEntry := [entry_14; entry_15].

Definition empty_db : Db := {| ada_scores := []; error_logs := []; statements := [] |}.

Definition fresh_run : Sweep.Run :=
  {| Sweep.db := empty_db; Sweep.existingRecords := ∅; Sweep.stats := Sweep.zero_stats |}.

Definition alpha_row : ScoreRecord :=
  {| sid := 101; name := "Alpha"; url := "https://alpha.example.org";
     ada_a := Int 90; ada_aa := Int 84; ada_aaa := Int 77; ada_aria := Int 88;
     ada_score_total := Int 85; site_target_score := None; date := "2025-06-15" |}.

(** A store that already holds today's row of one of three sites. *)
Definition db_with_alpha : Db :=
  {| ada_scores := [alpha_row]; error_logs := []; statements := [] |}.

(** Three accessibility sites, every call answered, a database that
    accepts everything and a driver that returns a [DATE] as its ISO
    text. *)
Definition three_sites : Sweep.Env :=
  {| Sweep.today := "2025-06-15";
     Sweep.sites_api := Normal (Some [alpha; beta; gamma]);
     Sweep.overview_api := fun _ => Normal (Some good_scores);
     Sweep.history_api := fun _ => Normal (Some history_june);
     Sweep.faults := no_faults;
     Sweep.date_text := fun d => d |}.

(** The same, with a database that refuses the first request it gets. *)
Definition database_down : Sweep.Env :=
  {| Sweep.today := "2025-06-15";
     Sweep.sites_api := Normal (Some [alpha; beta; gamma]);
     Sweep.overview_api := fun _ => Normal (Some good_scores);
     Sweep.history_api := fun _ => Normal (Some history_june);
     Sweep.faults := fun n => if (n =? 0)%nat then Some "Connection terminated" else None;
     Sweep.date_text := fun d => d |}.

(** The overview of [beta] fails with HTTP 500, the target history of every
    site fails with HTTP 404. *)
Definition beta_fails : Sweep.Env :=
  {| Sweep.today := "2025-06-15";
     Sweep.sites_api := Normal (Some [alpha; beta; gamma]);
     Sweep.overview_api := fun i =>
       if (i =? 102)%Z
       then Throw (AxiosError "Request failed with status code 500"
                     (Some {| status := 500; retry_after := None; body := "" |}))
       else Normal (Some good_scores);
     Sweep.history_api := fun _ =>
       Throw (AxiosError "Request failed with status code 404"
                (Some {| status := 404; retry_after := None; body := "" |}));
     Sweep.faults := no_faults;
     Sweep.date_text := fun d => d |}.

(** Three sites: the database refuses the INSERT of the first one's record
    (the second request it gets, after the load of the keys) and the
    overview call of the second fails with HTTP 500. *)
Definition alpha_refused_beta_fails : Sweep.Env :=
  {| Sweep.today := "2025-06-15";
     Sweep.sites_api := Normal (Some [alpha; beta; gamma]);
     Sweep.overview_api := fun i =>
       if (i =? 102)%Z
       then Throw (AxiosError "Request failed with status code 500"
                     (Some {| status := 500; retry_after := None; body := "" |}))
       else Normal (Some good_scores);
     Sweep.history_api := fun _ => Normal (Some history_june);
     Sweep.faults := fun n => if (n =? 1)%nat then Some "deadlock detected" else None;
     Sweep.date_text := fun d => d |}.

(** One site whose overview call is answered with a payload that has no
    [a11y] object, and whose target history answers HTTP 404. *)
Definition scoreless : Sweep.Env :=
  {| Sweep.today := "2025-06-15";
     Sweep.sites_api := Normal (Some [alpha]);
     Sweep.overview_api := fun _ => Normal None;
     Sweep.history_api := fun _ =>
       Throw (AxiosError "Request failed with status code 404"
                (Some {| status := 404; retry_after := None; body := "" |}));
     Sweep.faults := no_faults;
     Sweep.date_text := fun d => d |}.

(** One site whose level-A score does not parse, and no target history. *)
Definition unparsable : Sweep.Env :=
  {| Sweep.today := "2025-06-15";
     Sweep.sites_api := Normal (Some [alpha]);
     Sweep.overview_api := fun _ => Normal (Some bad_scores);
     Sweep.history_api := fun _ => Normal (Some []);
     Sweep.faults := no_faults;
     Sweep.date_text := fun d => d |}.

(** Hosts of the backfill script, by the offset of their time zone, the
    same all year: two hours ahead of UTC (Central European Summer Time),
    UTC itself, and seven hours behind (Pacific Daylight Time). The engine
    reads no string outside the date-time format as a date. Every site is
    on the approved list, and each has the history [history_june]. *)
Definition host (offset : Z) : Backfill.Env :=
  {| Backfill.zone := JsDate.fixed offset;
     Backfill.other_dates := fun _ => None;
     Backfill.approved := fun _ => true;
     Backfill.history_api := fun _ => Normal (Some history_june);
     Backfill.faults := no_faults |}.

Definition berlin : Backfill.Env := host 120.
Definition utc : Backfill.Env := host 0.
Definition los_angeles : Backfill.Env := host (-420).

Definition no_batch : Backfill.Batch :=
  {| Backfill.updates := []; Backfill.missingTargetLogs := [] |}.

(** Remote behaviours for the fetcher: the body of a response is a
    string. *)
Definition rate_limit : JsError :=
  AxiosError "Request failed with status code 429"
    (Some {| status := 429; retry_after := None; body := "" |}).

Definition server_error : JsError :=
  AxiosError "Request failed with status code 500"
    (Some {| status := 500; retry_after := None; body := "" |}).

Definition always_limited : Fetcher.Upstream string :=
  fun _ _ => Throw rate_limit.

Definition limited_twice_then_500 : Fetcher.Upstream string :=
  fun _ n => if (n <? 2)%nat then Throw rate_limit else Throw server_error.

Definition overview_url : string :=
  "https://api.eu.siteimprove.com/v2/sites/101/dci/overview".

(** A table with one row whose target is set and one whose target is
    null, for the same site. *)
Definition beta_row (d : string) (target : option JsNumber) : ScoreRecord :=
  {| sid := 102; name := "Beta"; url := "https://beta.example.org";
     ada_a := Int 90; ada_aa := Int 84; ada_aaa := Int 77; ada_aria := Int 88;
     ada_score_total := Int 85; site_target_score := target; date := d |}.

(** Today's record of [alpha] as a later run of the sweep builds it, with
    other scores than the row the table holds. *)
Definition alpha_again : ScoreRecord :=
  {| sid := 101; name := "Alpha"; url := "https://alpha.example.org";
     ada_a := Int 91; ada_aa := Int 84; ada_aaa := Int 77; ada_aria := Int 88;
     ada_score_total := Int 85; site_target_score := Some (Decimal 825 (-1));
     date := "2025-06-15" |}.

(** A store that holds today's row of [alpha], after: an [insertScore] of
    [alpha_again] by a process whose in-memory index is empty, a whole
    sweep over the three sites, and the backfill's batch update of the
    target of [alpha] and of a site that has no row. *)
Definition busy_day : list Pipeline.Operation :=
  [Pipeline.InsertScoreOp three_sites alpha_again ∅ Sweep.zero_stats;
   Pipeline.SweepOp three_sites;
   Pipeline.BatchUpdateOp berlin
     [{| Backfill.u_sid := 101; Backfill.u_date := "2025-06-15";
         Backfill.u_score := Decimal 825 (-1) |};
      {| Backfill.u_sid := 104; Backfill.u_date := "2025-06-15";
         Backfill.u_score := Decimal 800 (-1) |}]].

Definition after_busy_day : Db :=
  foldl (fun db op => Pipeline.run op db) db_with_alpha busy_day.

Definition db_two_days : Db :=
  {| ada_scores := [beta_row "2025-06-14" (Some (Decimal 800 (-1)));
                    beta_row "2025-06-15" None];
     error_logs := []; statements := [] |}.

End Examples.

(** ** Vocabulary for the further properties *)

Module Ledger.
Import Store.

(** [site.product.includes('accessibility')] for an item that has a
    [product] array. *)
Definition tagged (site : Api.Site) : bool :=
  match Api.product site with
  | Some tags => bool_decide ("accessibility" ∈ tags)
  | None => false
  end.

Section WithEnv.
Context (env : Sweep.Env).

(** The sites the loop of the sweep goes through: the filtered directory
    listing, when there is one. *)
Definition listed : list Api.Site :=
  match Sweep.sites_api env with
  | Normal items =>
      match Sweep.filter_accessible (Sweep.or_empty items) with
      | Normal sites => sites
      | Throw _ => []
      end
  | Throw _ => []
  end.

(** The overview call was answered and the inner [try] found no target:
    the history call failed or has no entry for today. *)
Definition target_missed (site : Api.Site) : bool :=
  match Sweep.overview_api env (Api.id site) with
  | Throw _ => false
  | Normal _ =>
      match Sweep.history_api env (Api.id site) with
      | Throw _ => true
      | Normal items =>
          match List.find (Sweep.is_today env) (Sweep.or_empty items) with
          | Some _ => false
          | None => true
          end
      end
  end.

(** The rows a sweep can add: the record built for one of [sites] whose
    overview call returned scores. *)
Definition sweep_row (sites : list Api.Site) (r : ScoreRecord) : Prop :=
  exists site scores tgt,
    site ∈ sites
    /\ Sweep.overview_api env (Api.id site) = Normal (Some scores)
    /\ r = Sweep.build_record env site scores tgt.

End WithEnv.

End Ledger.

(** ** The backfill script around its site loop
    ([historical-data-batch-v2.js]) *)

Module Script.
Import Store.

(** [site => site.product && site.product.includes('accessibility')] *)
Definition accessible (site : Api.Site) : bool :=
  match Api.product site with
  | Some tags => bool_decide ("accessibility" ∈ tags)
  | None => false
  end.

(** [(response.data.items || []).filter(...)] *)
Definition accessible_sites (items : option (list Api.Site)) : list Api.Site :=
  List.filter accessible (Sweep.or_empty items).

(** The site, date and kind of what one pass of the backfill's loop body
    over [sites] leaves in [updates] and in [missingTargetLogs]. *)
Definition update_of (env : Backfill.Env) (dateStr : string)
    (sites : list Api.Site) (u : Backfill.Update) : Prop :=
  Backfill.u_date u = dateStr
  /\ isNaN (Backfill.u_score u) = false
  /\ exists site, site ∈ sites /\ Backfill.approved env site = true
       /\ Backfill.u_sid u = Api.id site.

Definition miss_of (env : Backfill.Env) (dateStr : string)
    (sites : list Api.Site) (m : Backfill.Miss) : Prop :=
  Backfill.m_date m = dateStr
  /\ exists site, site ∈ sites /\ Backfill.approved env site = true
       /\ Backfill.m_sid m = Api.id site /\ Backfill.m_name m = Api.site_name site.

(** The first update of a batch that is for the row's site and date. *)
Definition first_update (us : list Backfill.Update) (r : ScoreRecord)
    : option Backfill.Update :=
  List.find (fun u => same_key (Backfill.u_sid u) (Backfill.u_date u) r) us.

(** A row once a batch of updates has gone through. *)
Definition settled (us : list Backfill.Update) (r : ScoreRecord) : ScoreRecord :=
  match site_target_score r, first_update us r with
  | None, Some u => set_target (Backfill.u_score u) r
  | _, _ => r
  end.

Definition update_key (u : Backfill.Update) : Z * string :=
  (Backfill.u_sid u, Backfill.u_date u).

(** What the script works on: the database, the files it has written
    (path and content, oldest first) and the [missingTargetLogs] array,
    which lives across batches and days. *)
Record State : Type := {
  db : Db;
  files : list (string * string);
  missing : list Backfill.Miss
}.

(** Everything outside the script. [host] is what the site loop talks to,
    the time zone of the host included; [startDate] and [endDate] are the
    time values of the two [Date] objects, [None] for an invalid date. *)
Record Env : Type := {
  host : Backfill.Env;
  startDate : option Z;
  endDate : option Z;
  sites_api : Completion (option (list Api.Site));
      (* GET /v2/sites?group_id=1183842&page_size=250, then .data.items *)
  write_fault : string -> option string
      (* fs.mkdirSync / fs.writeFileSync failing for a path *)
}.

Definition quote : ascii := ascii_of_nat 34.
Definition newline : string := String (ascii_of_nat 10) EmptyString.

(** The [replace] that doubles every double quote of the name. *)
Fixpoint double_quotes (s : string) : string :=
  match s with
  | EmptyString => EmptyString
  | String c r =>
      if Ascii.eqb c quote then String quote (String quote (double_quotes r))
      else String c (double_quotes r)
  end.

(** One line of the CSV file. *)
Definition csv_line (m : Backfill.Miss) : string :=
  showZ (Backfill.m_sid m) +:+ "," +:+ String quote (double_quotes (Backfill.m_name m))
  +:+ String quote "," +:+ Backfill.m_date m +:+ "," +:+ Backfill.m_reason m.

Definition csv_content (logs : list Backfill.Miss) : string :=
  "Site ID,Site Name,Date,Reason" +:+ newline
  +:+ String.concat newline (map csv_line logs).

(** The file of a day, relative to the directory of the script. *)
Definition csv_path (dateStr : string) : string :=
  "logs/missing_site_target_" +:+ dateStr +:+ ".csv".

Definition day_ms : Z := 86400000.

(** [current.setDate(current.getDate() + 1)]: the time value is taken to
    local time, moved to the same time of day on the next day of the
    calendar, and taken back to UTC with the offset the zone has for that
    local time. *)
Definition next_day (zone : JsDate.Zone) (current : Z) : Z :=
  let local := (current + JsDate.offset_at zone current * 60000)%Z in
  let moved := (local + day_ms)%Z in
  (moved - JsDate.offset_for zone moved * 60000)%Z.

(** The least a step of [next_day] advances the clock: a day less the
    largest daylight saving. *)
Definition shortest_step : Z := (day_ms - 120 * 60000)%Z.

(** The time values [current] takes in
    [for (current = new Date(startDate); current <= endDate;
          current.setDate(current.getDate() + 1))];
    [fuel] bounds the number of iterations. *)
Fixpoint days_from (zone : JsDate.Zone) (fuel : nat) (current stop : Z) : list Z :=
  match fuel with
  | O => []
  | S fuel' =>
      if (current <=? stop)%Z
      then current :: days_from zone fuel' (next_day zone current) stop
      else []
  end.

Section WithEnv.
Context (env : Env).

Definition days : list Z :=
  match startDate env, endDate env with
  | Some start, Some stop =>
      days_from (Backfill.zone (host env))
        (Z.to_nat ((stop - start) / shortest_step + 1)) start stop
  | _, _ => []   (* a comparison with an invalid date is false *)
  end.

(** The body of the loop over batches: the site loop on a fresh [updates]
    array, then the batch update. *)
Definition run_batch (dateStr : string) (batch : list Api.Site) : M State unit :=
  fun st =>
    let '(c, b) :=
      for_of batch (Backfill.processSite (host env) dateStr)
        {| Backfill.updates := []; Backfill.missingTargetLogs := missing st |} in
    match c with
    | Throw e =>
        (Throw e, {| db := db st; files := files st;
                     missing := Backfill.missingTargetLogs b |})
    | Normal _ =>
        let '(c', d) := Backfill.batchUpdate (host env) (Backfill.updates b) (db st) in
        (c', {| db := d; files := files st;
                missing := Backfill.missingTargetLogs b |})
    end.

(** [if (missingTargetLogs.length > 0) { ...; missingTargetLogs.length = 0 }] *)
Definition flush (dateStr : string) : M State unit :=
  fun st =>
    match missing st with
    | [] => (Normal tt, st)
    | logs =>
        match write_fault env (csv_path dateStr) with
        | Some msg => (Throw (PlainError msg), st)
        | None =>
            (Normal tt,
             {| db := db st;
                files := files st ++ [(csv_path dateStr, csv_content logs)];
                missing := [] |})
        end
    end.

(** The body of the loop over days. *)
Definition run_day (sites : list Api.Site) (current : Z) : M State unit :=
  let dateStr := JsDate.iso_date current in
  for_of (Sweep.batches sites) (run_batch dateStr) ;;;
  flush dateStr.

(** The script from the directory request on: how it ends, and what it
    leaves. *)
Definition main (d : Db) : Completion unit * State :=
  (response <- (fun st => (sites_api env, st)) ;;
   for_of days (run_day (accessible_sites response)))
    {| db := d; files := []; missing := [] |}.


(** The sites the loops go through. *)
Definition sites : list Api.Site :=
  match sites_api env with
  | Normal items => accessible_sites items
  | Throw _ => []
  end.

(** An update the script can come to send: for a day of the loop and an
    approved accessibility site, with a score that is a number. *)
Definition planned (u : Backfill.Update) : Prop :=
  exists current, current ∈ days
    /\ update_of (host env) (JsDate.iso_date current) sites u.

(** How a row can differ after the script from what it was before: not at
    all, or by a target that was null and is now the score of a planned
    update for the row's site and date. *)
Definition filled (r r' : ScoreRecord) : Prop :=
  r' = r
  \/ (site_target_score r = None
      /\ exists u, planned u /\ Backfill.u_sid u = sid r /\ Backfill.u_date u = date r
           /\ r' = set_target (Backfill.u_score u) r).

(** What a stretch of the script that writes no file does, on the day
    [current], to the database and to the missing-target array. *)
Definition quiet (current : Z) (st st' : State) : Prop :=
  Forall2 filled (ada_scores (db st)) (ada_scores (db st'))
  /\ error_logs (db st') = error_logs (db st)
  /\ files st' = files st
  /\ exists ms,
       missing st' = missing st ++ ms
       /\ Forall (miss_of (host env) (JsDate.iso_date current) sites) ms.

(** A file the script can come to write: the missing-target log of a
    visit of the day loop, holding at least one line, each for the date of
    that visit and for an approved accessibility site. *)
Definition day_file (current : Z) (file : string * string) : Prop :=
  exists logs,
    file = (csv_path (JsDate.iso_date current), csv_content logs)
    /\ logs <> []
    /\ Forall (miss_of (host env) (JsDate.iso_date current) sites) logs.

End WithEnv.

End Script.

(** ** Timestamps of the form [YYYY-MM-DD HH:mm:ss] *)

Module Stamp.
Local Open Scope Z_scope.

Definition leap (y : Z) : bool :=
  ((y mod 4 =? 0) && negb (y mod 100 =? 0)) || (y mod 400 =? 0).

Definition days_in_month (y m : Z) : Z :=
  if m =? 2 then (if leap y then 29 else 28)
  else if (m =? 4) || (m =? 6) || (m =? 9) || (m =? 11) then 30 else 31.

(** A date of the calendar, in a year written on four digits. *)
Definition valid_date (y m d : Z) : bool :=
  (0 <=? y) && (y <=? 9999) && (1 <=? m) && (m <=? 12)
  && (1 <=? d) && (d <=? days_in_month y m).

Definition valid_time (h mi s : Z) : bool :=
  (0 <=? h) && (h <=? 23) && (0 <=? mi) && (mi <=? 59) && (0 <=? s) && (s <=? 59).

(** [YYYY-MM-DD] *)
Definition date_text (y m d : Z) : string :=
  JsDate.pad4 y +:+ "-" +:+ JsDate.pad2 m +:+ "-" +:+ JsDate.pad2 d.

(** [HH:mm:ss] *)
Definition time_text (h mi s : Z) : string :=
  JsDate.pad2 h +:+ ":" +:+ JsDate.pad2 mi +:+ ":" +:+ JsDate.pad2 s.

(** The timestamp of a history entry, as the reporting API writes it. *)
Definition stamp (y m d h mi s : Z) : string :=
  date_text y m d +:+ " " +:+ time_text h mi s.

Definition entry (y m d h mi s : Z) (percentage : JsValue) : Api.HistoryEntry :=
  {| Api.timestamp := JString (stamp y m d h mi s);
     Api.site_target_percentage := percentage |}.

(** The local time value of the timestamp. *)
Definition local_time (y m d h mi s : Z) : Z :=
  JsDate.days_from_civil y m d * 86400000 + (h * 3600 + mi * 60 + s) * 1000.

(** Milliseconds from the UTC midnight that starts the day of the
    timestamp to the instant the backfill reads the timestamp as, on a
    host [tz] minutes ahead of UTC at that local time. *)
Definition shift (tz h mi s : Z) : Z :=
  (h * 3600 + mi * 60 + s) * 1000 - tz * 60000.

Definition is_digit (c : ascii) : bool :=
  match digit_value c with
  | Some v => v <? 10
  | None => false
  end.

(** No white space in the string. *)
Fixpoint plain (s : string) : bool :=
  match s with
  | EmptyString => true
  | String c r => negb (is_ws c) && plain r
  end.

Definition starts_with_digit (s : string) : bool :=
  match s with
  | String c _ => is_digit c
  | EmptyString => false
  end.

(** A field rendered on [width] digits reads back as the number. *)
Definition reads_back (width : nat) (text : string) (n : Z) : bool :=
  match JsDate.digits width text 0 with
  | Some (v, EmptyString) => (v =? n) && plain text && starts_with_digit text
  | _ => false
  end.

Definition upto (n : nat) : list Z := map Z.of_nat (seq 0 n).

End Stamp.

(** ** The callers of the sweep: the manual trigger and the schedule *)

Module Server.
Import Store.

(** What the process talks to while it serves one request: the
    environment of the sweep, and whether each of the two row counts
    around it is refused by the database. The two [COUNT] requests are not
    entered in the trace of statements. *)
Record Env : Type := {
  sweep : Sweep.Env;
  count_before : option string;
  count_after : option string
}.

(** [res.status(...).send(...)] *)
Record Response : Type := {
  status : Z;
  body : string
}.

(** The number of rows of [ada_scores], which a [SELECT COUNT] request
    reads: [Number((await pool.query(...)).rows[0].count)]. *)
Definition count_rows (fault : option string) : M Db nat :=
  match fault with
  | Some msg => throw (DatabaseError msg)
  | None => gets (fun d => length (ada_scores d))
  end.

Definition showN (n : nat) : string := showZ (Z.of_nat n).

(** The lines of the report, joined by [' | ']. *)
Definition report (stats : Sweep.Stats) (before after : nat) : string :=
  String.concat " | "
    ["? Run complete.";
     "Sites pulled: " +:+ showN (Sweep.sitesPulled stats);
     "Processed: " +:+ showN (Sweep.processed stats);
     "Inserted: " +:+ showN (Sweep.inserted stats);
     "Skipped existing: " +:+ showN (Sweep.skippedExisting stats);
     "Target info notes: " +:+ showN (Sweep.targetInfoNotes stats)
       +:+ ", target errors: " +:+ showN (Sweep.targetErrors stats);
     "Rows before: " +:+ showN before +:+ ", after: " +:+ showN after].

(** The handler of [GET /run-now]. *)
Definition run_now (env : Env) : M Db Response :=
  try_catch
    (before <- count_rows (count_before env) ;;
     stats <- Sweep.fetchAndInsertRecords (sweep env) ;;
     after <- count_rows (count_after env) ;;
     ret {| status := 200; body := report stats before after |})
    (fun e => ret {| status := 500; body := "? Run failed: " +:+ message e |}).







(** The scheduled handler and the manual one, as the event loop runs
    them: a handler runs until it reaches an [await] and is resumed when
    the awaited request has settled. Where a handler in flight is
    suspended: *)
Inductive Stage : Type :=
  | CountingBefore
  | Sweeping
  | CountingAfter.

(** The flag and the handlers in flight. *)
Record Process : Type := {
  jobRunning : bool;
  scheduled : list Stage;
  manual : list Stage
}.

Definition started : Process :=
  {| jobRunning := false; scheduled := []; manual := [] |}.

(** What the event loop can run next. [settled] tells whether the awaited
    request was fulfilled. *)
Inductive Event : Type :=
  | CronFires
  | ScheduledResumes (i : nat) (settled : bool)
  | RunNowRequested
  | ManualResumes (i : nat) (settled : bool).

(** The stage after the awaited request is fulfilled; [None] when the
    [try] block then runs to its end. *)
Definition next_stage (s : Stage) : option Stage :=
  match s with
  | CountingBefore => Some Sweeping
  | Sweeping => Some CountingAfter
  | CountingAfter => None
  end.

(** A handler is resumed: it goes on to its next [await], or it leaves the
    [try] statement, by its end or through the [catch]. *)
Definition resume (handlers : list Stage) (i : nat) (settled : bool)
    : option (list Stage * bool) :=
  match handlers !! i with
  | None => None
  | Some s =>
      match (if settled then next_stage s else None) with
      | Some s' => Some (<[i := s']> handlers, false)
      | None => Some (delete i handlers, true)
      end
  end.

Definition step (p : Process) (ev : Event) : Process :=
  match ev with
  | CronFires =>
      if jobRunning p then p   (* Skipping scheduled run *)
      else {| jobRunning := true;
              scheduled := scheduled p ++ [CountingBefore];
              manual := manual p |}
  | ScheduledResumes i settled =>
      match resume (scheduled p) i settled with
      | None => p
      | Some (handlers, left_try) =>
          {| jobRunning := if left_try then false (* finally *) else jobRunning p;
             scheduled := handlers;
             manual := manual p |}
      end
  | RunNowRequested =>
      {| jobRunning := jobRunning p;
         scheduled := scheduled p;
         manual := manual p ++ [CountingBefore] |}
  | ManualResumes i settled =>
      match resume (manual p) i settled with
      | None => p
      | Some (handlers, _) =>
          {| jobRunning := jobRunning p;
             scheduled := scheduled p;
             manual := handlers |}
      end
  end.

Definition run (events : list Event) : Process := foldl step started events.

End Server.

(** ** The bulk writer of the earlier server script ([bulkinsert.js]) *)

Module Bulk.
Import Store.

(** A value of the parameter array of a request. *)
Inductive Param : Type :=
  | PInt (z : Z)
  | PText (s : string)
  | PNumber (n : JsNumber).

(** What [values.push(...)] appends for one record. *)
Definition columns (r : ScoreRecord) : list Param :=
  [PInt (sid r); PText (name r); PText (url r); PNumber (ada_a r); PNumber (ada_aa r);
   PNumber (ada_aaa r); PNumber (ada_aria r); PNumber (ada_score_total r);
   PText (date r)].

Definition dollar (n : nat) : string := "$" +:+ showZ (Z.of_nat n).

(** The template literal the [map] callback returns for the record at
    [index]. *)
Definition group (index : nat) : string :=
  let baseIndex := index * 9 in
  "(" +:+ dollar (baseIndex + 1) +:+ ", " +:+ dollar (baseIndex + 2) +:+ ", "
  +:+ dollar (baseIndex + 3) +:+ ", " +:+ dollar (baseIndex + 4) +:+ ", "
  +:+ dollar (baseIndex + 5) +:+ ", " +:+ dollar (baseIndex + 6) +:+ ", "
  +:+ dollar (baseIndex + 7) +:+ ", " +:+ dollar (baseIndex + 8) +:+ ", "
  +:+ dollar (baseIndex + 9) +:+ ")".

Definition placeholders (records : list ScoreRecord) : string :=
  String.concat "," (imap (fun index _ => group index) records).

Definition values (records : list ScoreRecord) : list Param :=
  flat_map columns records.

(** A request to the pool: the statement, its layout apart, and the
    parameter array. *)
Record Request : Type := {
  text : string;
  params : list Param
}.

Definition query (records : list ScoreRecord) : Request :=
  {| text := "INSERT INTO ada_scores (sid, name, url, ada_a, ada_aa, ada_aaa, ada_aria, ada_score_total, date) VALUES "
             +:+ placeholders records;
     params := values records |}.

(** [bulkInsertData(records)], on the list of requests the pool has
    received; [fault] tells whether the database refuses the request. *)
Definition bulkInsertData (fault : option string) (records : list ScoreRecord)
    : M (list Request) unit :=
  match records with
  | [] => ret tt
  | _ =>
      try_catch
        (fun received =>
           (match fault with
            | Some msg => Throw (DatabaseError msg)
            | None => Normal tt
            end, received ++ [query records]))
        (fun error => ret tt (* console.error *))
  end.

(** The parameter a placeholder [$n] is bound to. *)
Definition bound (req : Request) (n : nat) : option Param :=
  match n with
  | O => None
  | S k => params req !! k
  end.

End Bulk.

Module MoreExamples.

(** A rate limit that carries [Retry-After: 3]. *)
Definition rate_limit_with_header : JsError :=
  AxiosError "Request failed with status code 429"
    (Some {| status := 429; retry_after := Some "3"; body := "" |}).

(** A rate limit with a header, then one without, then a response. *)
Definition header_then_bare : Fetcher.Upstream string :=
  fun _ n =>
    match n with
    | 0 => Throw rate_limit_with_header
    | 1 => Throw Examples.rate_limit
    | _ => Normal "{}"
    end.

(** A directory entry that carries no [product] field. *)
Definition delta : Api.Site :=
  {| Api.id := 104; Api.site_name := "Delta"; Api.url := "https://delta.example.org";
     Api.product := None |}.

(** The directory lists [delta] after two well-formed sites. *)
Definition directory_with_delta : Sweep.Env :=
  {| Sweep.today := "2025-06-15";
     Sweep.sites_api := Normal (Some [Examples.alpha; Examples.beta; delta]);
     Sweep.overview_api := fun _ => Normal (Some Examples.good_scores);
     Sweep.history_api := fun _ => Normal (Some Examples.history_june);
     Sweep.faults := Store.no_faults;
     Sweep.date_text := fun d => d |}.

(** A history whose first entry has a timestamp that is no date, before
    the entry of 15 June. *)
Definition entry_garbled : Api.HistoryEntry :=
  {| Api.timestamp := JString "15/06/2025";
     Api.site_target_percentage := JNonString "82.5" |}.

Definition garbled_first : Backfill.Env :=
  {| Backfill.zone := JsDate.fixed 0;
     Backfill.other_dates := fun _ => None;
     Backfill.approved := fun _ => true;
     Backfill.history_api := fun _ => Normal (Some [entry_garbled; Examples.entry_15]);
     Backfill.faults := Store.no_faults |}.

(** A history whose first entry has a [null] timestamp. *)
Definition entry_unstamped : Api.HistoryEntry :=
  {| Api.timestamp := JNull;
     Api.site_target_percentage := JNonString "82.5" |}.

Definition unstamped_first : Backfill.Env :=
  {| Backfill.zone := JsDate.fixed 0;
     Backfill.other_dates := fun _ => None;
     Backfill.approved := fun _ => true;
     Backfill.history_api := fun _ => Normal (Some [entry_unstamped; Examples.entry_15]);
     Backfill.faults := Store.no_faults |}.

Definition update_beta (d : string) (score : JsNumber) : Backfill.Update :=
  {| Backfill.u_sid := 102; Backfill.u_date := d; Backfill.u_score := score |}.

(** Central European Time in the spring of 2025: one hour ahead of UTC,
    and two from 30 March, 01:00 UTC, when local time goes from 02:00 to
    03:00; a local time inside the skipped hour is read with the offset
    before the change. *)
Definition central_europe_2025 : JsDate.Zone :=
  {| JsDate.standard := 60;
     JsDate.saving_at := fun t =>
       if (1743296400000 <=? t)%Z then JsDate.OneHour else JsDate.NoSaving;
     JsDate.saving_for := fun local =>
       if (1743303600000 <=? local)%Z then JsDate.OneHour else JsDate.NoSaving |}.

(** The backfill of 29 to 31 March 2025 on a host in that zone. *)
Definition march_backfill : Script.Env :=
  {| Script.host :=
       {| Backfill.zone := central_europe_2025;
          Backfill.other_dates := fun _ => None;
          Backfill.approved := fun _ => true;
          Backfill.history_api := fun _ => Normal (Some Examples.history_june);
          Backfill.faults := Store.no_faults |};
     Script.startDate := Some 1743206400000%Z;
     Script.endDate := Some 1743379200000%Z;
     Script.sites_api := Normal (Some [Examples.alpha]);
     Script.write_fault := fun _ => None |}.


(** A manual trigger on the three sites, the two row counts answered. *)
Definition manual_trigger : Server.Env :=
  {| Server.sweep := Examples.three_sites;
     Server.count_before := None;
     Server.count_after := None |}.

End MoreExamples.

(** * Properties *)

(** ** Rate-limited fetcher *)

Section FetcherFacts.
Import Fetcher.
Context {R : Type} (up : Upstream R) (url : string).

Local Abbreviation limited_at := (limited_at up url).
Local Abbreviation bare_limited_at := (bare_limited_at up url).

Lemma attempts_other_failure k : forall retries delay st e,
  k < retries ->
  (forall i, i < k -> limited_at st i) ->
  up url (requests st + k) = Throw e ->
  rate_limited e = false ->
  exists st', attempts up url retries delay st = (Throw e, st')
    /\ requests st' = requests st + k + 1
    /\ length (waits st') = length (waits st) + k.
Proof.
  induction k as [|k IH]; intros retries delay st e Hlt Hpre Hk Hne;
    (destruct retries as [|r]; [lia|]); cbn [attempts];
    unfold try_catch, axios_get.
  - rewrite Nat.add_0_r in Hk. rewrite Hk, Hne. unfold throw.
    eexists; split; [reflexivity|]. cbn. lia.
  - destruct (Hpre 0) as (e0 & He0 & Hl0); [lia|].
    rewrite Nat.add_0_r in He0. rewrite He0, Hl0.
    unfold bind, sleep, modify.
    edestruct (IH r (delay * 2)%Z
      {| requests := S (requests st); waits := waits st ++ [waitTime e0 delay] |} e)
      as (st' & Hrun & Hreq & Hw).
    + lia.
    + intros i Hi. destruct (Hpre (S i)) as (e' & He' & Hl'); [lia|].
      exists e'. cbn. rewrite <- He'. split; [f_equal; lia | done].
    + cbn. rewrite <- Hk. f_equal. lia.
    + done.
    + exists st'. split; [exact Hrun|]. cbn in Hreq, Hw.
      rewrite length_app in Hw. cbn in Hw. lia.
Qed.

Lemma attempts_exhausted retries : forall delay st,
  (forall i, i < retries -> limited_at st i) ->
  exists st', attempts up url retries delay st = (Throw max_retries_exceeded, st')
    /\ requests st' = requests st + retries
    /\ length (waits st') = length (waits st) + retries.
Proof.
  induction retries as [|r IH]; intros delay st Hpre; cbn [attempts].
  - exists st. unfold throw. split; [reflexivity|lia].
  - unfold try_catch, axios_get.
    destruct (Hpre 0) as (e0 & He0 & Hl0); [lia|].
    rewrite Nat.add_0_r in He0. rewrite He0, Hl0.
    unfold bind, sleep, modify.
    edestruct (IH (delay * 2)%Z
      {| requests := S (requests st); waits := waits st ++ [waitTime e0 delay] |})
      as (st' & Hrun & Hreq & Hw).
    + intros i Hi. destruct (Hpre (S i)) as (e' & He' & Hl'); [lia|].
      exists e'. cbn. rewrite <- He'. split; [f_equal; lia | done].
    + exists st'. split; [exact Hrun|]. cbn in Hreq, Hw.
      rewrite length_app in Hw. cbn in Hw. lia.
Qed.

Lemma attempts_success k : forall retries delay st r,
  k < retries ->
  (forall i, i < k -> limited_at st i) ->
  up url (requests st + k) = Normal r ->
  exists st', attempts up url retries delay st = (Normal r, st')
    /\ requests st' = requests st + k + 1.
Proof.
  induction k as [|k IH]; intros retries delay st r Hlt Hpre Hk;
    (destruct retries as [|n]; [lia|]); cbn [attempts];
    unfold try_catch, axios_get.
  - rewrite Nat.add_0_r in Hk. rewrite Hk.
    eexists; split; [reflexivity|]. cbn. lia.
  - destruct (Hpre 0) as (e0 & He0 & Hl0); [lia|].
    rewrite Nat.add_0_r in He0. rewrite He0, Hl0.
    unfold bind, sleep, modify.
    edestruct (IH n (delay * 2)%Z
      {| requests := S (requests st); waits := waits st ++ [waitTime e0 delay] |} r)
      as (st' & Hrun & Hreq).
    + lia.
    + intros i Hi. destruct (Hpre (S i)) as (e' & He' & Hl'); [lia|].
      exists e'. cbn. rewrite <- He'. split; [f_equal; lia | done].
    + cbn. rewrite <- Hk. f_equal. lia.
    + exists st'. split; [exact Hrun|]. cbn in Hreq. lia.
Qed.

Lemma attempts_waits k : forall retries delay st,
  k <= retries ->
  (forall i, i < k -> bare_limited_at st i) ->
  (k < retries -> forall e, up url (requests st + k) = Throw e -> rate_limited e = false) ->
  waits (attempts up url retries delay st).2 = waits st ++ map Int (doubling k delay).
Proof.
  induction k as [|k IH]; intros retries delay st Hle Hpre Hstop.
  - cbn [doubling map]. rewrite app_nil_r.
    destruct retries as [|r]; [reflexivity|].
    cbn [attempts]. unfold try_catch, axios_get.
    destruct (up url (requests st)) as [resp|e] eqn:Hup; [reflexivity|].
    rewrite (Hstop ltac:(lia) e); [reflexivity|].
    rewrite Nat.add_0_r. exact Hup.
  - destruct retries as [|r]; [lia|].
    cbn [attempts]. unfold try_catch, axios_get.
    destruct (Hpre 0) as (e0 & He0 & Hl0 & Hh0); [lia|].
    rewrite Nat.add_0_r in He0. rewrite He0, Hl0.
    unfold bind, sleep, modify, waitTime. rewrite Hh0.
    rewrite (IH r (delay * 2)%Z); cbn [waits requests doubling map].
    + by rewrite <- app_assoc.
    + lia.
    + intros i Hi. destruct (Hpre (S i)) as (e' & He' & Hb'); [lia|].
      exists e'. rewrite <- He'. split; [|done]. cbn [requests]. f_equal; lia.
    + intros Hlt e He. apply (Hstop ltac:(lia) e). rewrite <- He.
      cbn [requests]. f_equal; lia.
Qed.

End FetcherFacts.

Lemma doubling_length k : forall delay, length (Fetcher.doubling k delay) = k.
Proof. induction k as [|k IH]; intros delay; cbn; [done | by rewrite IH]. Qed.

Lemma doubling_lookup k : forall delay i,
  i < k -> Fetcher.doubling k delay !! i = Some (delay * 2 ^ Z.of_nat i)%Z.
Proof.
  induction k as [|k IH]; intros delay i Hi; [lia|].
  destruct i as [|i]; cbn [Fetcher.doubling lookup list_lookup].
  - f_equal. cbn. lia.
  - rewrite IH by lia. f_equal.
    rewrite Nat2Z.inj_succ, Z.pow_succ_r by lia. lia.
Qed.


(** C4. The fetcher asks again only after a rate-limit (HTTP 429) answer:
    a failure of any other kind at attempt [k + 1] is handed to the caller
    at once, after exactly [k + 1] requests, and so is a response; when
    every allowed attempt is answered by a rate limit the call ends with
    the max-retries error and not with a response; the retry count is 5
    unless the caller passes one. *)
Theorem fetcher_retries_only_rate_limits
    {R : Type} (up : Fetcher.Upstream R) (url : string)
    (retries : option nat) (delay : option Z) (st : Fetcher.Net) :
  let n := default Fetcher.default_retries retries in
  Fetcher.default_retries = 5
  /\ (forall k e,
        k < n ->
        (forall i, i < k -> Fetcher.limited_at up url st i) ->
        up url (Fetcher.requests st + k) = Throw e ->
        Fetcher.rate_limited e = false ->
        exists st',
          Fetcher.fetchWithExponentialBackoff up url retries delay st = (Throw e, st')
          /\ Fetcher.requests st' = Fetcher.requests st + k + 1)
  /\ ((forall i, i < n -> Fetcher.limited_at up url st i) ->
        exists st',
          Fetcher.fetchWithExponentialBackoff up url retries delay st
            = (Throw Fetcher.max_retries_exceeded, st')
          /\ Fetcher.requests st' = Fetcher.requests st + n)
  /\ (forall k r,
        k < n ->
        (forall i, i < k -> Fetcher.limited_at up url st i) ->
        up url (Fetcher.requests st + k) = Normal r ->
        exists st',
          Fetcher.fetchWithExponentialBackoff up url retries delay st = (Normal r, st')
          /\ Fetcher.requests st' = Fetcher.requests st + k + 1).
Proof.
  intros n. split; [reflexivity|]. split; [|split].
  - intros k e Hk Hpre Hup Hne.
    destruct (attempts_other_failure up url k n
                (default Fetcher.default_delay delay) st e Hk Hpre Hup Hne)
      as (st' & Hrun & Hreq & _).
    exists st'. split; [exact Hrun | exact Hreq].
  - intros Hpre.
    destruct (attempts_exhausted up url n
                (default Fetcher.default_delay delay) st Hpre)
      as (st' & Hrun & Hreq & _).
    exists st'. split; [exact Hrun | exact Hreq].
  - intros k r Hk Hpre Hup.
    exact (attempts_success up url k n (default Fetcher.default_delay delay) st r
             Hk Hpre Hup).
Qed.

(** C5. When the first [k] answers are rate limits without a
    [retry-after] header (and the call then stops: the attempts are used up
    or the next answer is not a rate limit), the delays waited are
    1000, 2000, 4000, ... ms: the [i]-th is [1000 * 2 ^ i], each is twice
    the one before and so not smaller, and there are at most as many as
    the retry count. *)
Theorem fetcher_backoff_doubles
    {R : Type} (up : Fetcher.Upstream R) (url : string)
    (retries : option nat) (st : Fetcher.Net) (k : nat) :
  let n := default Fetcher.default_retries retries in
  k <= n ->
  (forall i, i < k -> Fetcher.bare_limited_at up url st i) ->
  (k < n -> forall e, up url (Fetcher.requests st + k) = Throw e ->
            Fetcher.rate_limited e = false) ->
  let st' := (Fetcher.fetchWithExponentialBackoff up url retries None st).2 in
  let ds := Fetcher.doubling k 1000 in
  Fetcher.waits st' = Fetcher.waits st ++ map Int ds
  /\ (forall i, i < k -> ds !! i = Some (1000 * 2 ^ Z.of_nat i)%Z)
  /\ (forall i a b, ds !! i = Some a -> ds !! S i = Some b ->
        b = (2 * a)%Z /\ (a <= b)%Z)
  /\ length ds <= n.
Proof.
  intros n Hk Hpre Hstop st' ds. subst st' ds.
  split; [|split; [|split]].
  - unfold Fetcher.fetchWithExponentialBackoff. cbn [default].
    by apply attempts_waits.
  - intros i Hi. by apply doubling_lookup.
  - intros i a b Ha Hb.
    assert (Hi : S i < k).
    { apply lookup_lt_Some in Hb. by rewrite doubling_length in Hb. }
    rewrite doubling_lookup in Ha by lia.
    rewrite doubling_lookup in Hb by lia.
    injection Ha as <-. injection Hb as <-.
    rewrite Nat2Z.inj_succ, Z.pow_succ_r by lia.
    assert (0 < 2 ^ Z.of_nat i)%Z by (apply Z.pow_pos_nonneg; lia).
    lia.
  - by rewrite doubling_length.
Qed.

(** ** The store *)

Section StoreFacts.
Import Store.

Lemma same_key_spec s d r : same_key s d r = true <-> key_of r = (s, d).
Proof.
  unfold same_key, key_of. rewrite andb_true_iff, Z.eqb_eq, String.eqb_eq.
  split; [intros [-> ->]; done | intros [= -> ->]; done].
Qed.

Lemma no_conflict_fresh s d table :
  existsb (same_key s d) table = false -> (s, d) ∉ map key_of table.
Proof.
  intros Hex Hin. rewrite list_elem_of_In in Hin. apply in_map_iff in Hin.
  destruct Hin as (r & Hk & Hr).
  assert (Ht : existsb (same_key s d) table = true).
  { apply existsb_exists. exists r. split; [done | by apply same_key_spec]. }
  congruence.
Qed.

Lemma conflict_has_row s d table :
  existsb (same_key s d) table = true <-> has_row s d table.
Proof.
  rewrite existsb_exists. unfold has_row. split.
  - intros (r & Hin & Hk). apply same_key_spec in Hk. injection Hk as <- <-.
    exists r. by rewrite list_elem_of_In.
  - intros (r & Hin & <- & <-). exists r. rewrite <- list_elem_of_In.
    split; [done | by apply same_key_spec].
Qed.

Lemma patch_rows_keys score s d table :
  map key_of (patch_rows score s d table) = map key_of table.
Proof.
  unfold patch_rows. rewrite map_map. apply map_ext. intros r.
  by destruct (needs_target s d r).
Qed.

Lemma needs_target_set_target score s d r :
  needs_target s d (set_target score r) = false.
Proof. unfold needs_target. cbn. apply andb_false_r. Qed.

Lemma patch_rows_idempotent score score' s d table :
  patch_rows score' s d (patch_rows score s d table) = patch_rows score s d table.
Proof.
  unfold patch_rows. rewrite map_map. apply map_ext. intros r.
  destruct (needs_target s d r) eqn:Hn.
  - by rewrite needs_target_set_target.
  - by rewrite Hn.
Qed.

Lemma patch_rows_lookup score s d table i r :
  table !! i = Some r ->
  patch_rows score s d table !! i
    = Some (if needs_target s d r then set_target score r else r).
Proof. intros H. unfold patch_rows. by rewrite list_lookup_fmap, H. Qed.

(** What one request to the pool does to [ada_scores]. *)
Lemma pool_query_scores faults stmt db :
  ada_scores (pool_query faults stmt db).2 =
    match faults (length (statements db)), stmt with
    | None, InsertScore r =>
        if existsb (same_key (sid r) (date r)) (ada_scores db)
        then ada_scores db else ada_scores db ++ [r]
    | None, UpdateTarget score s d => patch_rows score s d (ada_scores db)
    | _, _ => ada_scores db
    end.
Proof.
  unfold pool_query. destruct (faults _); [by destruct stmt|].
  destruct stmt; cbn; try done.
  by destruct (existsb _ _).
Qed.

Lemma pool_query_statements faults stmt db :
  statements (pool_query faults stmt db).2 = statements db ++ [stmt].
Proof.
  unfold pool_query. destruct (faults _); [done|].
  destruct stmt; cbn; try done.
  by destruct (existsb _ _).
Qed.

Lemma pool_query_unique faults stmt db :
  unique_site_date (ada_scores db) ->
  unique_site_date (ada_scores (pool_query faults stmt db).2).
Proof.
  intros Hu. rewrite pool_query_scores.
  destruct (faults _); [done|]. destruct stmt; try done.
  - destruct (existsb _ _) eqn:Hex; [done|].
    unfold unique_site_date. rewrite map_app. cbn.
    apply NoDup_app. split; [done|]. split.
    + intros k Hk Hk'. apply list_elem_of_singleton in Hk'. subst k.
      by apply no_conflict_fresh in Hex.
    + apply NoDup_singleton.
  - unfold unique_site_date. by rewrite patch_rows_keys.
Qed.

End StoreFacts.

(** ** The error sink *)

Section LogFacts.
Import Store Sweep.
Context (env : Env).

Lemma logErrorToDatabase_spec siteId siteName msg level db :
  exists db',
    logErrorToDatabase env siteId siteName msg level db = (Normal tt, db')
    /\ ada_scores db' = ada_scores db
    /\ statements db'
         = statements db ++ [InsertErrorLog (log_entry siteId siteName msg level)]
    /\ error_logs db'
         = match faults env (length (statements db)) with
           | Some _ => error_logs db
           | None => error_logs db ++ [log_entry siteId siteName msg level]
           end.
Proof.
  unfold logErrorToDatabase, try_catch, bind, pool_query, ret.
  destruct (faults env _); cbn; eexists; (split; [reflexivity|]); done.
Qed.

Lemma logErrorToDatabase_run siteId siteName msg level db :
  logErrorToDatabase env siteId siteName msg level db
    = (Normal tt, logged env siteId siteName msg level db).
Proof.
  unfold logged.
  destruct (logErrorToDatabase_spec siteId siteName msg level db) as (db' & -> & _).
  done.
Qed.

Lemma logged_scores siteId siteName msg level db :
  ada_scores (logged env siteId siteName msg level db) = ada_scores db.
Proof.
  unfold logged.
  destruct (logErrorToDatabase_spec siteId siteName msg level db)
    as (db' & -> & H & _). done.
Qed.

Lemma logged_statements siteId siteName msg level db :
  statements (logged env siteId siteName msg level db)
    = statements db ++ [InsertErrorLog (log_entry siteId siteName msg level)].
Proof.
  unfold logged.
  destruct (logErrorToDatabase_spec siteId siteName msg level db)
    as (db' & -> & _ & H & _). done.
Qed.

Lemma logged_error_logs siteId siteName msg level db :
  error_logs (logged env siteId siteName msg level db)
    = match faults env (length (statements db)) with
      | Some _ => error_logs db
      | None => error_logs db ++ [log_entry siteId siteName msg level]
      end.
Proof.
  unfold logged.
  destruct (logErrorToDatabase_spec siteId siteName msg level db)
    as (db' & -> & _ & _ & H). done.
Qed.

End LogFacts.

(** C10. [logErrorToDatabase] never throws, whatever its arguments and
    whatever the database does with the INSERT: it completes normally,
    leaves [ada_scores] alone, and the entry is in [error_logs] exactly when
    the database accepted the statement; a refused entry is lost. *)
Theorem logErrorToDatabase_never_throws
    (env : Sweep.Env) (siteId : option Z) (siteName : option string)
    (msg : string) (level : option string) (db : Store.Db) :
  exists db',
    Sweep.logErrorToDatabase env siteId siteName msg level db = (Normal tt, db')
    /\ Store.ada_scores db' = Store.ada_scores db
    /\ Store.error_logs db'
         = match Sweep.faults env (length (Store.statements db)) with
           | Some _ => Store.error_logs db
           | None => Store.error_logs db ++ [Sweep.log_entry siteId siteName msg level]
           end.
Proof.
  destruct (logErrorToDatabase_spec env siteId siteName msg level db)
    as (db' & Hrun & Hs & _ & Hl).
  exists db'. done.
Qed.

(** C3. The conditional patch of the backfill
    ([UPDATE ... WHERE sid = $2 AND date = $3 AND site_target_score IS NULL])
    leaves every row whose target is not null exactly as it was, whatever
    score is passed and whether or not the database accepts the statement;
    a row it does change had a null target and the given [sid] and [date],
    and receives the score; and patching a second time, with the same or
    another score, changes nothing more. *)
Theorem patch_preserves_non_null
    (env : Backfill.Env) (s : Z) (d : string) (score score' : JsNumber) (db : Store.Db) :
  let db1 := (Backfill.patchTargetIfMissing env s d score db).2 in
  let db2 := (Backfill.patchTargetIfMissing env s d score' db1).2 in
  (forall i r, Store.ada_scores db !! i = Some r ->
               Store.site_target_score r <> None ->
               Store.ada_scores db1 !! i = Some r)
  /\ (forall i r, Store.ada_scores db !! i = Some r ->
        Store.ada_scores db1 !! i = Some r
        \/ (Store.site_target_score r = None /\ Store.sid r = s /\ Store.date r = d
            /\ Store.ada_scores db1 !! i = Some (Store.set_target score r)))
  /\ (Backfill.faults env (length (Store.statements db)) = None ->
      Store.ada_scores db2 = Store.ada_scores db1).
Proof.
  intros db1 db2.
  assert (E1 : forall sc x, Store.ada_scores (Backfill.patchTargetIfMissing env s d sc x).2
               = Store.ada_scores (Store.pool_query (Backfill.faults env)
                                     (Store.UpdateTarget sc s d) x).2).
  { intros sc x. unfold Backfill.patchTargetIfMissing, bind.
    by destruct (Store.pool_query _ _ x) as [[?|?] ?]. }
  assert (Hcase : forall r, Store.needs_target s d r = true ->
            Store.site_target_score r = None /\ Store.sid r = s /\ Store.date r = d).
  { intros r Hn. unfold Store.needs_target in Hn. apply andb_true_iff in Hn.
    destruct Hn as [Hk Hnull]. apply same_key_spec in Hk. injection Hk as <- <-.
    by destruct (Store.site_target_score r). }
  split; [|split].
  - intros i r Hi Hnn. subst db1. rewrite E1, pool_query_scores.
    destruct (Backfill.faults env _); [done|].
    rewrite (patch_rows_lookup _ _ _ _ _ _ Hi).
    destruct (Store.needs_target s d r) eqn:Hn; [|done].
    by destruct (Hcase r Hn).
  - intros i r Hi. subst db1. rewrite E1, pool_query_scores.
    destruct (Backfill.faults env _); [by left|].
    rewrite (patch_rows_lookup _ _ _ _ _ _ Hi).
    destruct (Store.needs_target s d r) eqn:Hn; [|by left].
    right. by destruct (Hcase r Hn) as (? & ? & ?).
  - intros Hok. subst db2. rewrite E1, pool_query_scores.
    destruct (Backfill.faults env (length (Store.statements db1))); [done|].
    subst db1. rewrite E1, pool_query_scores, Hok.
    apply patch_rows_idempotent.
Qed.

(** ** Record keys *)

Lemma string_length_app (s t : string) :
  String.length (s +:+ t) = String.length s + String.length t.
Proof.
  induction s as [|c s IH]; [done|].
  change (S (String.length (s +:+ t)) = S (String.length s + String.length t)).
  by rewrite IH.
Qed.

Lemma string_app_inv_tail (s1 s2 t : string) : s1 +:+ t = s2 +:+ t -> s1 = s2.
Proof.
  revert s2. induction s1 as [|c s1 IH]; intros [|c2 s2] H; cbn in H.
  - done.
  - apply (f_equal String.length) in H.
    change (String.length t = S (String.length (s2 +:+ t))) in H.
    rewrite string_length_app in H. lia.
  - apply (f_equal String.length) in H.
    change (S (String.length (s1 +:+ t)) = String.length t) in H.
    rewrite string_length_app in H. lia.
  - injection H as -> H. f_equal. by apply IH.
Qed.

Lemma to_int_proper (z : Z) :
  Z.to_int z <> Decimal.Pos Decimal.Nil /\ Z.to_int z <> Decimal.Neg Decimal.Nil.
Proof.
  destruct z as [|p|p]; cbn; split; try done; intros [= H];
    by apply DecimalPos.Unsigned.to_uint_nonnil in H.
Qed.

Lemma showZ_inj (x y : Z) : showZ x = showZ y -> x = y.
Proof.
  unfold showZ. intros H. apply DecimalZ.to_int_inj.
  destruct (to_int_proper x) as [Hx1 Hx2]. destruct (to_int_proper y) as [Hy1 Hy2].
  pose proof (NilZero.isi _ Hx1 Hx2) as Ex.
  pose proof (NilZero.isi _ Hy1 Hy2) as Ey.
  rewrite H in Ex. rewrite Ex in Ey. by injection Ey.
Qed.

Lemma record_key_inj (x y : Z) (d : string) :
  Sweep.record_key x d = Sweep.record_key y d -> x = y.
Proof.
  unfold Sweep.record_key. intros H.
  apply showZ_inj. by apply (string_app_inv_tail _ _ ("-" +:+ d)).
Qed.

(** ** The writer and the site loop *)

Section SweepFacts.
Import Store Sweep.
Context (env : Env).

Lemma with_db_log siteId siteName msg level s :
  with_db (logErrorToDatabase env siteId siteName msg level) s
    = (Normal tt, on_db (logged env siteId siteName msg level) s).
Proof. unfold with_db. by rewrite logErrorToDatabase_run. Qed.

(** [insertScore], path by path. *)
Lemma insertScore_known r s :
  record_key (sid r) (date r) ∈ existingRecords s ->
  insertScore env r s = (Normal false, on_stats incr_skippedExisting s).
Proof.
  intros Hin. unfold insertScore, bind, gets. cbn.
  by rewrite decide_True.
Qed.

Lemma insertScore_new r s :
  record_key (sid r) (date r) ∉ existingRecords s ->
  faults env (length (statements (db s))) = None ->
  existsb (same_key (sid r) (date r)) (ada_scores (db s)) = false ->
  insertScore env r s
    = (Normal true,
       add_existing (record_key (sid r) (date r))
         (on_stats incr_inserted
            (on_db (fun d => with_scores (ada_scores d ++ [r])
                               (record_statement (InsertScore r) d)) s))).
Proof.
  intros Hin Hok Hex. unfold insertScore, bind, gets. cbn.
  rewrite decide_False by done.
  unfold try_catch, with_db, pool_query. rewrite Hok. cbn. rewrite Hex. cbn.
  reflexivity.
Qed.

Lemma insertScore_conflict r s :
  record_key (sid r) (date r) ∉ existingRecords s ->
  faults env (length (statements (db s))) = None ->
  existsb (same_key (sid r) (date r)) (ada_scores (db s)) = true ->
  insertScore env r s
    = (Normal false,
       on_stats incr_skippedExisting (on_db (record_statement (InsertScore r)) s)).
Proof.
  intros Hin Hok Hex. unfold insertScore, bind, gets. cbn.
  rewrite decide_False by done.
  unfold try_catch, with_db, pool_query. rewrite Hok. cbn. rewrite Hex. cbn.
  reflexivity.
Qed.

Lemma insertScore_refused r s msg :
  record_key (sid r) (date r) ∉ existingRecords s ->
  faults env (length (statements (db s))) = Some msg ->
  insertScore env r s
    = (Normal false,
       on_db (logged env (Some (sid r)) (Some (name r)) msg None)
         (on_stats incr_insertErrors (on_db (record_statement (InsertScore r)) s))).
Proof.
  intros Hin Hf. unfold insertScore, bind, gets. cbn.
  rewrite decide_False by done.
  unfold try_catch, with_db at 1, pool_query. rewrite Hf. cbn.
  unfold bind, modify. rewrite with_db_log. reflexivity.
Qed.

(** [collectTarget] never throws; what it returns and changes. *)
Lemma collectTarget_eq site s :
  collectTarget env site s =
    match history_api env (Api.id site) with
    | Throw e =>
        (Normal None,
         on_db (logged env (Some (Api.id site)) (Some (Api.site_name site))
                  ("Target score fetch error: " +:+ message e) (Some "INFO"))
           (on_stats incr_targetErrors s))
    | Normal items =>
        match List.find (is_today env) (or_empty items) with
        | Some entry => (Normal (Some (parseFloat (Api.site_target_percentage entry))), s)
        | None =>
            (Normal None,
             on_db (logged env (Some (Api.id site)) (Some (Api.site_name site))
                      "No site_target_percentage entry for today" (Some "INFO"))
               (on_stats incr_targetInfoNotes s))
        end
    end.
Proof.
  unfold collectTarget, try_catch, bind at 1, axios_get.
  destruct (history_api env (Api.id site)) as [items|e].
  - destruct (List.find _ _); [reflexivity|].
    unfold bind, modify. by rewrite with_db_log.
  - unfold bind, modify. by rewrite with_db_log.
Qed.

Lemma collectTarget_normal site s :
  exists tgt, (collectTarget env site s).1 = Normal tgt.
Proof.
  rewrite collectTarget_eq.
  destruct (history_api env (Api.id site)); [destruct (List.find _ _)|]; eauto.
Qed.

Lemma insertScore_normal r s :
  exists b, (insertScore env r s).1 = Normal b.
Proof.
  destruct (decide (record_key (sid r) (date r) ∈ existingRecords s)) as [Hin|Hin].
  - rewrite insertScore_known by done. eauto.
  - destruct (faults env (length (statements (db s)))) as [msg|] eqn:Hf.
    + rewrite (insertScore_refused _ _ msg) by done. eauto.
    + destruct (existsb (same_key (sid r) (date r)) (ada_scores (db s))) eqn:Hex.
      * rewrite insertScore_conflict by done. eauto.
      * rewrite insertScore_new by done. eauto.
Qed.

(** The site loop's body never throws; what it does, case by case. *)
Lemma processSite_eq site s :
  processSite env site s =
    let s1 := on_stats incr_processed s in
    match overview_api env (Api.id site) with
    | Throw e => (Normal tt, warned env site e s1)
    | Normal None => (Normal tt, warned env site missing_a11y (collectTarget env site s1).2)
    | Normal (Some scores) =>
        (Normal tt,
         (insertScore env
            (build_record env site scores (target_of (collectTarget env site s1).1))
            (collectTarget env site s1).2).2)
    end.
Proof.
  unfold processSite, try_catch, bind at 1, modify. cbn zeta.
  unfold bind at 1, axios_get.
  destruct (overview_api env (Api.id site)) as [[scores|]|e].
  - unfold bind at 1.
    destruct (collectTarget_normal site (on_stats incr_processed s)) as (tgt & Ht).
    destruct (collectTarget env site (on_stats incr_processed s)) as [c s2].
    cbn in Ht. subst c. cbn [target_of fst snd].
    unfold bind, ret.
    destruct (insertScore_normal (build_record env site scores tgt) s2) as (b & Hb).
    destruct (insertScore env (build_record env site scores tgt) s2) as [c s3].
    cbn in Hb. by subst c.
  - unfold bind at 1.
    destruct (collectTarget_normal site (on_stats incr_processed s)) as (tgt & Ht).
    destruct (collectTarget env site (on_stats incr_processed s)) as [c s2].
    cbn in Ht. subst c. cbn [fst snd]. unfold throw.
    unfold warned. by rewrite with_db_log.
  - unfold warned. by rewrite with_db_log.
Qed.

Lemma processSite_normal site s : (processSite env site s).1 = Normal tt.
Proof.
  rewrite processSite_eq. cbn zeta.
  by destruct (overview_api env (Api.id site)) as [[?|]|?].
Qed.

(** A loop whose body never throws runs through the whole list. *)
Lemma for_of_normal {S A} (body : A -> M S unit) (xs : list A) : forall s,
  (forall x s', (body x s').1 = Normal tt) ->
  for_of xs body s = (Normal tt, foldl (fun s' x => (body x s').2) s xs).
Proof.
  induction xs as [|x xs IH]; intros s Hbody; cbn [for_of foldl]; [done|].
  unfold bind. specialize (Hbody x s) as Hx.
  destruct (body x s) as [c s1]. cbn in Hx. subst c. cbn [snd].
  by apply IH.
Qed.

Lemma foldl_pointwise {S A} (f g : S -> A -> S) (xs : list A) : forall s,
  (forall s' x, f s' x = g s' x) -> foldl f s xs = foldl g s xs.
Proof.
  induction xs as [|x xs IH]; intros s Hfg; cbn [foldl]; [done|].
  rewrite Hfg. by apply IH.
Qed.

Lemma foldl_concat {S A} (f : S -> A -> S) (xss : list (list A)) : forall s,
  foldl (fun s' xs => foldl f s' xs) s xss = foldl f s (concat xss).
Proof.
  induction xss as [|xs xss IH]; intros s; cbn [foldl concat]; [done|].
  by rewrite foldl_app, IH.
Qed.

(** The slices taken by the outer loop cover the list, in order. *)
Lemma batches_from_concat sites fuel : forall i,
  length sites <= i + 20 * fuel ->
  concat (batches_from fuel i sites) = drop i sites.
Proof.
  induction fuel as [|fuel IH]; intros i Hlen; cbn [batches_from concat].
  - by rewrite drop_ge by lia.
  - destruct (i <? length sites)%nat eqn:Hi.
    + cbn [concat]. rewrite IH by lia.
      rewrite <- (take_drop 20 (drop i sites)) at 2.
      by rewrite drop_drop.
    + apply Nat.ltb_ge in Hi. by rewrite drop_ge by lia.
Qed.

Lemma batches_concat sites : concat (batches sites) = sites.
Proof. unfold batches. rewrite batches_from_concat; [done | lia]. Qed.

Lemma site_loop_run sites s :
  for_of (batches sites)
    (fun batch => for_of batch (processSite env) ;;; ret tt) s
  = (Normal tt, after_sites env sites s).
Proof.
  rewrite for_of_normal.
  - f_equal. unfold after_sites.
    rewrite <- (batches_concat sites) at 2. rewrite <- foldl_concat.
    apply foldl_pointwise. intros s' batch. unfold bind.
    rewrite for_of_normal by (intros; apply processSite_normal). done.
  - intros batch s'. unfold bind.
    rewrite for_of_normal by (intros; apply processSite_normal). done.
Qed.

Lemma fetchAndInsertRecords_eq db0 :
  fetchAndInsertRecords env db0 =
    let db1 := record_statement SelectKeys db0 in
    match faults env (length (statements db0)) with
    | Some msg => (Throw (DatabaseError msg), db1)
    | None =>
        match sites_api env with
        | Throw e => (Throw e, reported env e db1)
        | Normal items =>
            match filter_accessible (or_empty items) with
            | Throw e => (Throw e, reported env e db1)
            | Normal sites =>
                let s := after_sites env sites
                           {| db := db1;
                              existingRecords := index_of env (ada_scores db0);
                              stats := set_sitesPulled (length sites) zero_stats |} in
                (Normal (stats s), db s)
            end
        end
    end.
Proof.
  unfold fetchAndInsertRecords, fetchExistingRecords, bind at 1, pool_query.
  cbn zeta. destruct (faults env (length (statements db0))) as [msg|]; [done|].
  cbn [execute]. unfold ret at 1. cbn [rows].
  unfold try_catch, sweep_body, bind at 1, axios_get.
  rewrite map_map. fold (index_of env (ada_scores db0)).
  destruct (sites_api env) as [items|e].
  - unfold bind at 1.
    destruct (filter_accessible (or_empty items)) as [sites|e].
    + unfold bind at 1, modify. unfold bind at 1.
      rewrite site_loop_run. unfold gets. reflexivity.
    + unfold bind, throw. rewrite with_db_log. reflexivity.
  - unfold bind, throw. rewrite with_db_log. reflexivity.
Qed.

(** ** What one site changes *)

Lemma table_step_unique k d t t' :
  table_step k d t t' -> unique_site_date t -> unique_site_date t'.
Proof.
  intros [->|(r & -> & Hs & Hd & Hex)] Hu; [done|].
  unfold unique_site_date. rewrite map_app. cbn.
  apply NoDup_app. split; [done|]. split; [|apply NoDup_singleton].
  intros x Hx Hx'. apply list_elem_of_singleton in Hx'. subst x.
  apply no_conflict_fresh in Hex. unfold key_of in Hx. by rewrite Hs, Hd in Hx.
Qed.

Lemma table_step_prefix k d t t' :
  table_step k d t t' -> exists extra, t' = t ++ extra.
Proof.
  intros [->|(r & -> & _)]; [exists []; by rewrite app_nil_r | by exists [r]].
Qed.

Lemma has_row_app k d t extra : has_row k d t -> has_row k d (t ++ extra).
Proof.
  intros (r & Hin & Hr). exists r. split; [|done].
  apply elem_of_app. by left.
Qed.

Lemma index_of_app t extra : index_of env t ⊆ index_of env (t ++ extra).
Proof. unfold index_of. rewrite map_app, list_to_set_app_L. apply union_subseteq_l. Qed.

Lemma insertScore_cases r s :
  let key := record_key (sid r) (date r) in
  let s' := (insertScore env r s).2 in
  (key ∈ existingRecords s /\ s' = on_stats incr_skippedExisting s)
  \/ ((key ∉ existingRecords s) /\
      exists msg, faults env (length (statements (db s))) = Some msg /\
        s' = on_db (logged env (Some (sid r)) (Some (name r)) msg None)
               (on_stats incr_insertErrors (on_db (record_statement (InsertScore r)) s)))
  \/ ((key ∉ existingRecords s) /\
      faults env (length (statements (db s))) = None /\
      existsb (same_key (sid r) (date r)) (ada_scores (db s)) = true /\
      s' = on_stats incr_skippedExisting (on_db (record_statement (InsertScore r)) s))
  \/ ((key ∉ existingRecords s) /\
      faults env (length (statements (db s))) = None /\
      existsb (same_key (sid r) (date r)) (ada_scores (db s)) = false /\
      s' = add_existing key
             (on_stats incr_inserted
                (on_db (fun d => with_scores (ada_scores d ++ [r])
                                   (record_statement (InsertScore r) d)) s))).
Proof.
  intros key s'. subst s'.
  destruct (decide (key ∈ existingRecords s)) as [Hin|Hin].
  { left. by rewrite insertScore_known. }
  right. destruct (faults env (length (statements (db s)))) as [msg|] eqn:Hf.
  { left. split; [done|]. exists msg. by rewrite (insertScore_refused _ _ msg). }
  right. destruct (existsb (same_key (sid r) (date r)) (ada_scores (db s))) eqn:Hex.
  - left. by rewrite insertScore_conflict.
  - right. by rewrite insertScore_new.
Qed.

(** What [collectTarget] leaves untouched. *)
Lemma collectTarget_frame site s :
  let s2 := (collectTarget env site s).2 in
  ada_scores (db s2) = ada_scores (db s)
  /\ existingRecords s2 = existingRecords s
  /\ (exists extra, statements (db s2) = statements (db s) ++ extra)
  /\ sitesPulled (stats s2) = sitesPulled (stats s)
  /\ processed (stats s2) = processed (stats s)
  /\ inserted (stats s2) = inserted (stats s)
  /\ skippedExisting (stats s2) = skippedExisting (stats s)
  /\ insertErrors (stats s2) = insertErrors (stats s).
Proof.
  cbn zeta. rewrite collectTarget_eq.
  destruct (history_api env (Api.id site)) as [items|e];
    [destruct (List.find _ _)|]; cbn;
    rewrite ?logged_scores, ?logged_statements;
    repeat split; try done; try (by exists []; rewrite app_nil_r); eauto.
Qed.

Lemma site_step_frame s site :
  let s' := site_step env s site in
  table_step (Api.id site) (today env) (ada_scores (db s)) (ada_scores (db s'))
  /\ (exists extra, statements (db s') = statements (db s) ++ extra)
  /\ existingRecords s ⊆ existingRecords s'
  /\ (forall k, k ∈ existingRecords s' ->
        k ∈ existingRecords s \/
        (k = record_key (Api.id site) (today env)
         /\ has_row (Api.id site) (today env) (ada_scores (db s'))))
  /\ sitesPulled (stats s') = sitesPulled (stats s)
  /\ processed (stats s') = S (processed (stats s)).
Proof.
  cbn zeta. unfold site_step. rewrite processSite_eq. cbn zeta.
  set (s1 := on_stats incr_processed s).
  destruct (collectTarget_frame site s1)
    as (Hsc & Hex & (ex2 & Hst) & Hpu & Hpr & _).
  destruct (overview_api env (Api.id site)) as [[scores|]|e]; cbn [snd].
  - set (r := build_record env site scores _).
    set (s2 := (collectTarget env site s1).2) in *.
    destruct (insertScore_cases r s2)
      as [(Hin & ->)|[(Hin & msg & Hf & ->)|[(Hin & Hf & Hc & ->)|(Hin & Hf & Hc & ->)]]];
      cbn; rewrite ?logged_scores, ?logged_statements; cbn; rewrite ?Hsc, ?Hst, ?Hex, ?Hpu, ?Hpr.
    + repeat split; try done; [by left | by exists ex2 | by left].
    + repeat split; try done; [by left | | by left].
      eexists. by rewrite <- !app_assoc.
    + repeat split; try done; [by left | | by left].
      eexists. by rewrite <- !app_assoc.
    + repeat split; try done.
      * right. exists r. rewrite Hsc in Hc. done.
      * eexists. by rewrite <- !app_assoc.
      * apply union_subseteq_r.
      * intros k [Hk|Hk]%elem_of_union; [|by left].
        apply elem_of_singleton in Hk. right. split; [done|].
        exists r. split; [|done]. apply elem_of_app. right. by apply list_elem_of_singleton.
  - unfold warned. cbn. rewrite logged_scores, logged_statements, Hsc, Hst, Hex, Hpu, Hpr.
    repeat split; try done; [by left | | by left].
    eexists. by rewrite <- !app_assoc.
  - unfold warned. cbn. rewrite logged_scores, logged_statements.
    repeat split; try done; [by left | by eexists | by left].
Qed.

Lemma after_sites_cons site sites s :
  after_sites env (site :: sites) s = after_sites env sites (site_step env s site).
Proof. reflexivity. Qed.

Lemma after_sites_frame sites : forall s,
  let s' := after_sites env sites s in
  (unique_site_date (ada_scores (db s)) -> unique_site_date (ada_scores (db s')))
  /\ (exists extra, ada_scores (db s') = ada_scores (db s) ++ extra)
  /\ (exists extra, statements (db s') = statements (db s) ++ extra)
  /\ existingRecords s ⊆ existingRecords s'
  /\ sitesPulled (stats s') = sitesPulled (stats s)
  /\ processed (stats s') = processed (stats s) + length sites.
Proof.
  induction sites as [|site sites IH]; intros s; cbn zeta.
  - cbn. repeat split; try done; try (exists []; by rewrite app_nil_r); lia.
  - rewrite after_sites_cons.
    destruct (site_step_frame s site) as (Ht & (e1 & Hs1) & Hsub & _ & Hpu & Hpr).
    destruct (IH (site_step env s site)) as (Hu & (e2 & Ht2) & (e3 & Hs3) & Hsub2 & Hpu2 & Hpr2).
    destruct (table_step_prefix _ _ _ _ Ht) as (e0 & Ht0).
    repeat split.
    + intros H. apply Hu. by eapply table_step_unique.
    + exists (e0 ++ e2). by rewrite Ht2, Ht0, app_assoc.
    + exists (e1 ++ e3). by rewrite Hs3, Hs1, app_assoc.
    + by etrans.
    + by rewrite Hpu2.
    + rewrite Hpr2, Hpr. cbn. lia.
Qed.

(** A failing overview call leaves a WARNING request in the trace. *)
Lemma site_step_warning s site e :
  overview_api env (Api.id site) = Throw e ->
  InsertErrorLog
    (log_entry (Some (Api.id site)) (Some (Api.site_name site))
       ("Approved site failed during processing: " +:+ message e) (Some "WARNING"))
  ∈ statements (db (site_step env s site)).
Proof.
  intros He. unfold site_step. rewrite processSite_eq, He. cbn.
  rewrite logged_statements. apply elem_of_app. right. by apply list_elem_of_singleton.
Qed.

Lemma after_sites_warning sites : forall s site e,
  site ∈ sites ->
  overview_api env (Api.id site) = Throw e ->
  InsertErrorLog
    (log_entry (Some (Api.id site)) (Some (Api.site_name site))
       ("Approved site failed during processing: " +:+ message e) (Some "WARNING"))
  ∈ statements (db (after_sites env sites s)).
Proof.
  induction sites as [|x sites IH]; intros s site e Hin He.
  - by apply elem_of_nil in Hin.
  - rewrite after_sites_cons. apply elem_of_cons in Hin as [->|Hin].
    + destruct (after_sites_frame sites (site_step env s x)) as (_ & _ & (ex & ->) & _).
      apply elem_of_app. left. by apply site_step_warning.
    + by apply IH.
Qed.

End SweepFacts.

(** ** Uniqueness of [(sid, date)] *)

Lemma for_of_invariant {S A} (P : S -> Prop) (body : A -> M S unit) (xs : list A) :
  (forall x s, P s -> P (body x s).2) ->
  forall s, P s -> P (for_of xs body s).2.
Proof.
  intros Hbody. induction xs as [|x xs IH]; intros s Hs; cbn [for_of]; [done|].
  unfold bind. specialize (Hbody x s Hs).
  destruct (body x s) as [[[]|e] s1]; cbn in *; [by apply IH | done].
Qed.

Lemma insertScore_unique env r s :
  Store.unique_site_date (Store.ada_scores (Sweep.db s)) ->
  Store.unique_site_date (Store.ada_scores (Sweep.db (Sweep.insertScore env r s).2)).
Proof.
  intros Hu.
  destruct (insertScore_cases env r s)
    as [(Hin & ->)|[(Hin & msg & Hf & ->)|[(Hin & Hf & Hc & ->)|(Hin & Hf & Hc & ->)]]];
    cbn; rewrite ?logged_scores; cbn; try done.
  eapply table_step_unique; [|exact Hu]. right. by exists r.
Qed.

Lemma patchTargetIfMissing_unique env s d score db :
  Store.unique_site_date (Store.ada_scores db) ->
  Store.unique_site_date (Store.ada_scores (Backfill.patchTargetIfMissing env s d score db).2).
Proof.
  intros Hu. unfold Backfill.patchTargetIfMissing, bind.
  pose proof (pool_query_unique (Backfill.faults env) (Store.UpdateTarget score s d) db Hu) as H.
  by destruct (Store.pool_query _ _ db) as [[?|?] ?].
Qed.

Lemma batchUpdate_unique env us db :
  Store.unique_site_date (Store.ada_scores db) ->
  Store.unique_site_date (Store.ada_scores (Backfill.batchUpdate env us db).2).
Proof.
  intros Hu. unfold Backfill.batchUpdate. destruct us as [|u us]; [done|].
  unfold bind at 1.
  pose proof (pool_query_unique (Backfill.faults env) Store.Connect db Hu) as H.
  destruct (Store.pool_query _ Store.Connect db) as [[?|?] db1]; [|done].
  cbn [snd] in H.
  apply (for_of_invariant (fun d => Store.unique_site_date (Store.ada_scores d)));
    [|done].
  intros x d Hd. unfold try_catch, bind.
  pose proof (patchTargetIfMissing_unique env (Backfill.u_sid x) (Backfill.u_date x)
                (Backfill.u_score x) d Hd) as Hp.
  by destruct (Backfill.patchTargetIfMissing env _ _ _ d) as [[?|?] ?].
Qed.

Lemma fetchAndInsertRecords_unique env db :
  Store.unique_site_date (Store.ada_scores db) ->
  Store.unique_site_date (Store.ada_scores (Sweep.fetchAndInsertRecords env db).2).
Proof.
  intros Hu. rewrite fetchAndInsertRecords_eq. cbn zeta.
  destruct (Sweep.faults env _); [done|].
  destruct (Sweep.sites_api env) as [items|e];
    [|cbn [snd]; unfold Sweep.reported; by rewrite logged_scores].
  destruct (Sweep.filter_accessible _) as [sites|e];
    [|cbn [snd]; unfold Sweep.reported; by rewrite logged_scores].
  cbn [snd].
  by apply after_sites_frame.
Qed.

Lemma reachable_run op db : Pipeline.reachable db -> Pipeline.reachable (Pipeline.run op db).
Proof.
  intros H. destruct op; cbn [Pipeline.run].
  - by apply Pipeline.reach_insertScore.
  - by apply Pipeline.reach_patch.
  - by apply Pipeline.reach_batchUpdate.
  - by apply Pipeline.reach_log.
  - by apply Pipeline.reach_sweep.
Qed.

Lemma reachable_unique db :
  Pipeline.reachable db -> Store.unique_site_date (Store.ada_scores db).
Proof.
  induction 1 as [db Hu|env r ex c db _ IH|env s d score db _ IH
                  |env us db _ IH|env i n m l db _ IH|env db _ IH].
  - exact Hu.
  - by apply (insertScore_unique env r
                {| Sweep.db := db; Sweep.existingRecords := ex; Sweep.stats := c |}).
  - by apply patchTargetIfMissing_unique.
  - by apply batchUpdate_unique.
  - change (Sweep.logErrorToDatabase env i n m l db).2
      with (Sweep.logged env i n m l db).
    by rewrite logged_scores.
  - by apply fetchAndInsertRecords_unique.
Qed.

(** The conditional UPDATE, alone or in a batch, keeps the list of keys. *)
Lemma patchTargetIfMissing_keys env s d score db :
  map Store.key_of (Store.ada_scores (Backfill.patchTargetIfMissing env s d score db).2)
    = map Store.key_of (Store.ada_scores db).
Proof.
  unfold Backfill.patchTargetIfMissing, bind.
  pose proof (pool_query_scores (Backfill.faults env) (Store.UpdateTarget score s d) db) as H.
  destruct (Store.pool_query _ _ db) as [[?|?] db1]; cbn [snd] in H; cbn;
    rewrite H; destruct (Backfill.faults env _); by rewrite ?patch_rows_keys.
Qed.

Lemma batchUpdate_keys env us db :
  map Store.key_of (Store.ada_scores (Backfill.batchUpdate env us db).2)
    = map Store.key_of (Store.ada_scores db).
Proof.
  unfold Backfill.batchUpdate. destruct us as [|u us]; [done|].
  unfold bind at 1.
  pose proof (pool_query_scores (Backfill.faults env) Store.Connect db) as H.
  destruct (Store.pool_query _ Store.Connect db) as [[?|?] db1]; cbn [snd] in H.
  2:{ cbn [snd]. rewrite H. by destruct (Backfill.faults env _). }
  assert (H1 : map Store.key_of (Store.ada_scores db1) = map Store.key_of (Store.ada_scores db))
    by (rewrite H; by destruct (Backfill.faults env _)).
  apply (for_of_invariant
           (fun d => map Store.key_of (Store.ada_scores d)
                     = map Store.key_of (Store.ada_scores db))); [|done].
  intros x d Hd. unfold try_catch, bind.
  pose proof (patchTargetIfMissing_keys env (Backfill.u_sid x) (Backfill.u_date x)
                (Backfill.u_score x) d) as Hp.
  destruct (Backfill.patchTargetIfMissing env _ _ _ d) as [[?|?] ?];
    cbn in *; by rewrite Hp.
Qed.

(** The site loop only appends rows for today whose keys no row has. *)
Lemma after_sites_grows env sites : forall s,
  let s' := Sweep.after_sites env sites s in
  exists extra,
    Store.ada_scores (Sweep.db s') = Store.ada_scores (Sweep.db s) ++ extra
    /\ NoDup (map Store.key_of extra)
    /\ (forall r, r ∈ extra ->
          Store.date r = Sweep.today env
          /\ Store.key_of r ∉ map Store.key_of (Store.ada_scores (Sweep.db s))).
Proof.
  induction sites as [|site sites IH]; intros s; cbn zeta.
  - exists []. cbn. rewrite app_nil_r. repeat split; try done.
    + apply NoDup_nil_2.
    + by apply elem_of_nil in H.
    + by apply elem_of_nil in H.
  - rewrite after_sites_cons.
    destruct (site_step_frame env s site) as (Ht & _).
    destruct (IH (Sweep.site_step env s site)) as (extra & Hext & Hnd & Hfresh).
    destruct Ht as [Ht|(r & Ht & Hsid & Hdate & Hex)].
    + exists extra. rewrite Hext, Ht. repeat split; try done.
      * by apply Hfresh.
      * rewrite <- Ht. by apply Hfresh.
    + exists (r :: extra). rewrite Hext, Ht, <- app_assoc. cbn [app].
      split; [done|]. rewrite Ht in Hfresh. split.
      * cbn [map]. apply NoDup_cons. split; [|done].
        intros Hin. apply list_elem_of_fmap in Hin as (r2 & Hk & Hr2).
        destruct (Hfresh r2 Hr2) as (_ & Hno). apply Hno.
        rewrite map_app. apply elem_of_app. right. cbn.
        rewrite <- Hk. apply list_elem_of_here.
      * intros r2 [->|Hr2]%elem_of_cons.
        -- split; [done|]. unfold Store.key_of. rewrite Hsid, Hdate.
           by apply no_conflict_fresh.
        -- destruct (Hfresh r2 Hr2) as (Hd & Hno). split; [done|].
           intros Hin. apply Hno. rewrite map_app. apply elem_of_app. by left.
Qed.

Lemma fetchAndInsertRecords_grows env db :
  exists extra,
    Store.ada_scores (Sweep.fetchAndInsertRecords env db).2 = Store.ada_scores db ++ extra
    /\ NoDup (map Store.key_of extra)
    /\ (forall r, r ∈ extra ->
          Store.date r = Sweep.today env
          /\ Store.key_of r ∉ map Store.key_of (Store.ada_scores db)).
Proof.
  assert (Hnone : exists extra : list Store.ScoreRecord,
             Store.ada_scores db = Store.ada_scores db ++ extra
             /\ NoDup (map Store.key_of extra)
             /\ (forall r, r ∈ extra ->
                   Store.date r = Sweep.today env
                   /\ Store.key_of r ∉ map Store.key_of (Store.ada_scores db))).
  { exists []. rewrite app_nil_r. repeat split; try done.
    - apply NoDup_nil_2.
    - by apply elem_of_nil in H.
    - by apply elem_of_nil in H. }
  rewrite fetchAndInsertRecords_eq. cbn zeta.
  destruct (Sweep.faults env _); [done|].
  destruct (Sweep.sites_api env) as [items|e];
    [|cbn [snd]; unfold Sweep.reported; by rewrite logged_scores].
  destruct (Sweep.filter_accessible _) as [sites|e];
    [|cbn [snd]; unfold Sweep.reported; by rewrite logged_scores].
  cbn [snd]. apply after_sites_grows.
Qed.

(** C1. In every state of the store that the pipeline can reach from one
    satisfying the constraint (by [insertScore], by the conditional patch
    of the backfill, alone or in a batch, by an error-log entry, or by a
    whole sweep, whatever the remote side and the database do), no two rows
    of [ada_scores] have the same [(sid, date)]; and whichever operation
    comes next, the state it leaves is reachable, the keys of all rows
    are still there in the same order, and the keys it has added are
    distinct and none was in the table: [insertScore] adds nothing or the
    row it was given, and that only when the record's key is not in the
    in-memory index it was called with; the patch, the batch update and
    the error log add none; a sweep only adds rows for today. *)
Theorem reachable_unique_site_date (db : Store.Db) :
  Pipeline.reachable db ->
  Store.unique_site_date (Store.ada_scores db)
  /\ forall op : Pipeline.Operation,
       let db' := Pipeline.run op db in
       Pipeline.reachable db'
       /\ Store.unique_site_date (Store.ada_scores db')
       /\ exists added : list (Z * string),
            map Store.key_of (Store.ada_scores db')
              = map Store.key_of (Store.ada_scores db) ++ added
            /\ NoDup added
            /\ (forall key, key ∈ added -> key ∉ map Store.key_of (Store.ada_scores db))
            /\ match op with
               | Pipeline.InsertScoreOp _ record existing _ =>
                   (added = [] /\ Store.ada_scores db' = Store.ada_scores db)
                   \/ (added = [Store.key_of record]
                       /\ Store.ada_scores db' = Store.ada_scores db ++ [record]
                       /\ Sweep.record_key (Store.sid record) (Store.date record)
                          ∉ existing)
               | Pipeline.PatchOp _ _ _ _
               | Pipeline.BatchUpdateOp _ _
               | Pipeline.LogOp _ _ _ _ _ => added = []
               | Pipeline.SweepOp env =>
                   forall key, key ∈ added -> key.2 = Sweep.today env
               end.
Proof.
  intros Hreach. split; [by apply reachable_unique|].
  intros op. cbn zeta.
  pose proof (reachable_run op db Hreach) as Hnext.
  split; [done|]. split; [by apply reachable_unique|].
  assert (Hsame : forall t : list Store.ScoreRecord,
            map Store.key_of t = map Store.key_of (Store.ada_scores db) ->
            map Store.key_of t = map Store.key_of (Store.ada_scores db) ++ []
            /\ NoDup (@nil (Z * string))
            /\ (forall key, key ∈ @nil (Z * string) ->
                  key ∉ map Store.key_of (Store.ada_scores db))).
  { intros t Ht. rewrite app_nil_r. split; [done|]. split; [apply NoDup_nil_2|].
    intros key Hk. by apply elem_of_nil in Hk. }
  destruct op as [env r ex c|env s d score|env us|env i n m l|env]; cbn [Pipeline.run].
  - set (s0 := {| Sweep.db := db; Sweep.existingRecords := ex; Sweep.stats := c |}).
    destruct (insertScore_cases env r s0)
      as [(Hin & ->)|[(Hin & msg & Hf & ->)|[(Hin & Hf & Hc & ->)|(Hin & Hf & Hc & ->)]]];
      cbn; rewrite ?logged_scores; cbn.
    + exists []. destruct (Hsame (Store.ada_scores db) eq_refl) as (? & ? & ?).
      repeat split; try done. by left.
    + exists []. destruct (Hsame (Store.ada_scores db) eq_refl) as (? & ? & ?).
      repeat split; try done. by left.
    + exists []. destruct (Hsame (Store.ada_scores db) eq_refl) as (? & ? & ?).
      repeat split; try done. by left.
    + exists [Store.key_of r]. rewrite map_app. cbn [map].
      split; [done|]. split; [apply NoDup_singleton|]. split.
      * intros key ->%list_elem_of_singleton. by apply no_conflict_fresh.
      * right. done.
  - exists []. destruct (Hsame _ (patchTargetIfMissing_keys env s d score db)) as (? & ? & ?).
    repeat split; done.
  - exists []. destruct (Hsame _ (batchUpdate_keys env us db)) as (? & ? & ?).
    repeat split; done.
  - exists [].
    change (Sweep.logErrorToDatabase env i n m l db).2
      with (Sweep.logged env i n m l db).
    rewrite logged_scores.
    destruct (Hsame (Store.ada_scores db) eq_refl) as (? & ? & ?).
    repeat split; done.
  - destruct (fetchAndInsertRecords_grows env db) as (extra & Hext & Hnd & Hfresh).
    exists (map Store.key_of extra). rewrite Hext, map_app.
    split; [done|]. split; [done|]. split.
    + intros key (r & -> & Hr)%list_elem_of_fmap. by apply Hfresh.
    + intros key (r & -> & Hr)%list_elem_of_fmap. by apply Hfresh.
Qed.

(** ** The site loop: targets and score parsing *)

(** C7, as stated, fails: an overview call that succeeds with a payload
    without the [a11y] object, together with a failing target-history call,
    gives the site up. The target failure is noted first (INFO, one more
    [targetErrors]); then the destructuring of the scores throws, the
    site's [catch] logs a WARNING, and no record reaches the writer. *)
Lemma target_failure_without_scores_gives_site_up :
  let run := Sweep.processSite Examples.scoreless Examples.alpha Examples.fresh_run in
  Sweep.overview_api Examples.scoreless (Api.id Examples.alpha) = Normal None
  /\ Sweep.history_api Examples.scoreless (Api.id Examples.alpha)
     = Throw (AxiosError "Request failed with status code 404"
                (Some {| status := 404; retry_after := None; body := "" |}))
  /\ run.1 = Normal tt
  /\ Store.ada_scores (Sweep.db run.2) = []
  /\ Store.statements (Sweep.db run.2)
     = [Store.InsertErrorLog
          {| Store.log_site_id := Some 101%Z; Store.log_site_name := Some "Alpha";
             Store.log_message :=
               "Target score fetch error: Request failed with status code 404";
             Store.log_level := "INFO" |};
        Store.InsertErrorLog
          {| Store.log_site_id := Some 101%Z; Store.log_site_name := Some "Alpha";
             Store.log_message :=
               "Approved site failed during processing: Cannot destructure property 'a' of 'scoreResponse.data.a11y' as it is undefined.";
             Store.log_level := "WARNING" |}]
  /\ Sweep.stats run.2
     = {| Sweep.sitesPulled := 0; Sweep.processed := 1; Sweep.inserted := 0;
          Sweep.skippedExisting := 0; Sweep.targetInfoNotes := 0;
          Sweep.targetErrors := 1; Sweep.insertErrors := 0 |}.
Proof. cbn zeta. repeat split; vm_compute; reflexivity. Qed.

(** C7, as the code has it. When the overview call of a site returns the
    score object, a failing target-history call, or a history without an
    entry for today, does not abort the site: the body of the loop
    completes through [insertScore], called with the record made of the
    site's id, name and url, the [parseInt] of the five scores, today's
    date and a null [site_target_score]. Before that, exactly one counter
    besides [processed] has gone up by one, [targetErrors] for a failed
    call and [targetInfoNotes] for a missing entry, and one INFO entry has
    been sent to the error sink, whose message is
    [Target score fetch error: ] followed by the message of the failure,
    or [No site_target_percentage entry for today]; the entry is stored
    exactly when the database accepts it. Nothing else has changed. *)
Theorem target_failure_keeps_site
    (env : Sweep.Env) (site : Api.Site) (scores : Api.A11y) (s : Sweep.Run) :
  Sweep.overview_api env (Api.id site) = Normal (Some scores) ->
  let record :=
    {| Store.sid := Api.id site;
       Store.name := Api.site_name site;
       Store.url := Api.url site;
       Store.ada_a := parseInt (Api.a scores);
       Store.ada_aa := parseInt (Api.aa scores);
       Store.ada_aaa := parseInt (Api.aaa scores);
       Store.ada_aria := parseInt (Api.aria scores);
       Store.ada_score_total := parseInt (Api.total scores);
       Store.site_target_score := None;
       Store.date := Sweep.today env |} in
  let kept (bump : Sweep.Stats -> Sweep.Stats) (msg : string) : Prop :=
    let note :=
      {| Store.log_site_id := Sweep.id_or_null (Some (Api.id site));
         Store.log_site_name := Sweep.name_or_null (Some (Api.site_name site));
         Store.log_message := msg;
         Store.log_level := "INFO" |} in
    exists s1 : Sweep.Run,
      Sweep.processSite env site s
        = (Normal tt, (Sweep.insertScore env record s1).2)
      /\ Sweep.stats s1 = bump (Sweep.incr_processed (Sweep.stats s))
      /\ Store.statements (Sweep.db s1)
         = Store.statements (Sweep.db s) ++ [Store.InsertErrorLog note]
      /\ Store.error_logs (Sweep.db s1)
         = match Sweep.faults env (length (Store.statements (Sweep.db s))) with
           | Some _ => Store.error_logs (Sweep.db s)
           | None => Store.error_logs (Sweep.db s) ++ [note]
           end
      /\ Store.ada_scores (Sweep.db s1) = Store.ada_scores (Sweep.db s)
      /\ Sweep.existingRecords s1 = Sweep.existingRecords s in
  (forall e, Sweep.history_api env (Api.id site) = Throw e ->
     kept Sweep.incr_targetErrors ("Target score fetch error: " +:+ message e))
  /\ (forall items,
        Sweep.history_api env (Api.id site) = Normal items ->
        List.find (Sweep.is_today env) (Sweep.or_empty items) = None ->
        kept Sweep.incr_targetInfoNotes "No site_target_percentage entry for today").
Proof.
  intros Hov. cbv zeta. split.
  - intros e He. rewrite processSite_eq, Hov. cbn zeta.
    rewrite collectTarget_eq, He. cbn [fst snd Sweep.target_of].
    eexists. split; [reflexivity|]. cbn.
    rewrite logged_statements, logged_error_logs, logged_scores. cbn.
    repeat split.
  - intros items Hi Hfind. rewrite processSite_eq, Hov. cbn zeta.
    rewrite collectTarget_eq, Hi, Hfind. cbn [fst snd Sweep.target_of].
    eexists. split; [reflexivity|]. cbn.
    rewrite logged_statements, logged_error_logs, logged_scores. cbn.
    repeat split.
Qed.

(** C8, as the code has it. A compliance score that does not parse is not
    a failure of the site: [parseInt] returns [NaN] without throwing, and
    whenever the overview call returns the score object the loop body
    completes through [insertScore], called with the record whose five
    score fields are the [parseInt] of the payload values, [NaN] included;
    if the key is new to the index and to the table and the database
    accepts the INSERT, that record becomes a row. The site is given up,
    with a WARNING for the error sink and no change to [ada_scores], only
    when the overview call fails or returns no score object. *)
Theorem unparsable_score_reaches_writer
    (env : Sweep.Env) (site : Api.Site) (s : Sweep.Run) :
  (forall scores,
      Sweep.overview_api env (Api.id site) = Normal (Some scores) ->
      exists (tgt : option JsNumber) (s1 : Sweep.Run) (r : Store.ScoreRecord),
        r = Sweep.build_record env site scores tgt
        /\ Sweep.processSite env site s = (Normal tt, (Sweep.insertScore env r s1).2)
        /\ Store.ada_a r = parseInt (Api.a scores)
        /\ Store.ada_aa r = parseInt (Api.aa scores)
        /\ Store.ada_aaa r = parseInt (Api.aaa scores)
        /\ Store.ada_aria r = parseInt (Api.aria scores)
        /\ Store.ada_score_total r = parseInt (Api.total scores)
        /\ Store.ada_scores (Sweep.db s1) = Store.ada_scores (Sweep.db s)
        /\ Sweep.existingRecords s1 = Sweep.existingRecords s
        /\ (Sweep.record_key (Store.sid r) (Store.date r) ∉ Sweep.existingRecords s ->
            Sweep.faults env (length (Store.statements (Sweep.db s1))) = None ->
            existsb (Store.same_key (Store.sid r) (Store.date r))
              (Store.ada_scores (Sweep.db s)) = false ->
            Store.ada_scores (Sweep.db (Sweep.processSite env site s).2)
              = Store.ada_scores (Sweep.db s) ++ [r]))
  /\ (Sweep.scored env site = false ->
      exists e,
        Sweep.processSite env site s
          = (Normal tt,
             Sweep.warned env site e
               (match Sweep.overview_api env (Api.id site) with
                | Throw _ => Sweep.on_stats Sweep.incr_processed s
                | Normal _ =>
                    (Sweep.collectTarget env site (Sweep.on_stats Sweep.incr_processed s)).2
                end))
        /\ Store.ada_scores (Sweep.db (Sweep.processSite env site s).2)
           = Store.ada_scores (Sweep.db s)).
Proof.
  split.
  - intros scores Hov. rewrite processSite_eq, Hov. cbn zeta.
    set (s0 := Sweep.on_stats Sweep.incr_processed s).
    destruct (collectTarget_frame env site s0) as (Hsc & Hex & _).
    eexists _, _, _. split; [reflexivity|]. split; [reflexivity|].
    cbn [Sweep.build_record Store.ada_a Store.ada_aa Store.ada_aaa Store.ada_aria
         Store.ada_score_total Store.sid Store.date].
    repeat split; try done.
    intros Hkey Hf Hc. cbn [snd].
    rewrite insertScore_new; cbn; rewrite ?Hsc, ?Hex; done.
  - intros Hns. unfold Sweep.scored in Hns.
    rewrite processSite_eq. cbn zeta.
    destruct (Sweep.overview_api env (Api.id site)) as [[scores|]|e]; [done| |].
    + exists Sweep.missing_a11y. split; [reflexivity|]. cbn.
      rewrite logged_scores.
      by destruct (collectTarget_frame env site (Sweep.on_stats Sweep.incr_processed s))
        as (-> & _).
    + exists e. split; [reflexivity|]. cbn. by rewrite logged_scores.
Qed.

(** ** Sweeps over a database that accepts every request *)

(** ** What a sweep sends when the database refuses requests *)

Section SweepTrace.
Import Store Sweep.
Context (env : Env).

Lemma index_sound_step base s site :
  index_sound env base s -> index_sound env base (site_step env s site).
Proof.
  intros Hinv k Hk.
  destruct (site_step_frame env s site) as (Ht & _ & _ & Hnew & _).
  destruct (table_step_prefix _ _ _ _ Ht) as (extra & Hext).
  destruct (Hnew k Hk) as [Hold|(-> & Hrow)].
  - destruct (Hinv k Hold) as [Hb|(i & -> & Hrow)]; [by left|].
    right. exists i. split; [done|]. rewrite Hext. by apply has_row_app.
  - right. by exists (Api.id site).
Qed.

Lemma refused_inserts_app a : forall n b,
  refused_inserts env n (a ++ b)
    = refused_inserts env n a + refused_inserts env (n + length a) b.
Proof.
  induction a as [|stmt a IH]; intros n b; cbn [app refused_inserts length].
  - by rewrite Nat.add_0_r.
  - rewrite IH. replace (n + S (length a)) with (S n + length a) by lia.
    destruct stmt; try done. by destruct (faults env n).
Qed.

Lemma refused_inserts_log n e : refused_inserts env n [InsertErrorLog e] = 0.
Proof. reflexivity. Qed.

Lemma insert_refused_mono from from' site d d' :
  from' <= from ->
  (exists sent, statements d' = statements d ++ sent) ->
  (exists logs, error_logs d' = error_logs d ++ logs) ->
  insert_refused env from site d -> insert_refused env from' site d'.
Proof.
  intros Hle (sent & Hs) (logs & Hl) (n & r & msg & Hn & Hat & Hsid & Hname & Hdate & Hf & Hlog & Hkept).
  exists n, r, msg. rewrite Hs, Hl.
  repeat split; try done.
  - lia.
  - rewrite lookup_app_l; [done|]. by eapply lookup_lt_Some.
  - rewrite lookup_app_l; [done|]. by eapply lookup_lt_Some.
  - intros Hok. apply elem_of_app. left. by apply Hkept.
Qed.

Lemma insert_refused_from from from' site d :
  insert_refused env from site d -> from' <= from -> insert_refused env from' site d.
Proof.
  intros H Hle. apply (insert_refused_mono from from' site d d Hle); [| |done].
  - exists []. by rewrite app_nil_r.
  - exists []. by rewrite app_nil_r.
Qed.

(** What [collectTarget] sends: at most one INFO entry for the error sink. *)
Lemma collectTarget_trace site s :
  let s2 := (collectTarget env site s).2 in
  exists sent,
    statements (db s2) = statements (db s) ++ sent
    /\ (forall n, refused_inserts env n sent = 0)
    /\ (forall n, refusals_logged env n sent)
    /\ (exists logs, error_logs (db s2) = error_logs (db s) ++ logs).
Proof.
  cbn zeta. rewrite collectTarget_eq.
  destruct (history_api env (Api.id site)) as [items|e];
    [destruct (List.find _ _)|]; cbn.
  - exists []. rewrite !app_nil_r. repeat split; try done.
    exists []. by rewrite app_nil_r.
  - rewrite logged_statements, logged_error_logs. cbn.
    eexists. split; [reflexivity|]. split; [done|]. split.
    { intros from [|n] r msg Hn; cbn in Hn; first [done | by rewrite lookup_nil in Hn]. }
    destruct (faults env _); [exists []; by rewrite app_nil_r | by eexists].
  - rewrite logged_statements, logged_error_logs. cbn.
    eexists. split; [reflexivity|]. split; [done|]. split.
    { intros from [|n] r msg Hn; cbn in Hn; first [done | by rewrite lookup_nil in Hn]. }
    destruct (faults env _); [exists []; by rewrite app_nil_r | by eexists].
Qed.

Lemma refusals_logged_app from a b :
  refusals_logged env from a ->
  refusals_logged env (from + length a) b ->
  refusals_logged env from (a ++ b).
Proof.
  intros Ha Hb n r msg Hn Hf.
  destruct (decide (n < length a)) as [Hlt|Hge].
  - rewrite lookup_app_l in Hn by done.
    pose proof (Ha n r msg Hn Hf) as Hnext.
    rewrite lookup_app_l; [done|]. by eapply lookup_lt_Some.
  - rewrite lookup_app_r in Hn by lia.
    replace (from + n) with (from + length a + (n - length a)) in Hf by lia.
    pose proof (Hb _ r msg Hn Hf) as Hnext.
    rewrite lookup_app_r by lia.
    by replace (S n - length a) with (S (n - length a)) by lia.
Qed.

Lemma refusals_logged_one from stmt :
  match stmt with
  | InsertScore _ => faults env from = None
  | _ => True
  end ->
  refusals_logged env from [stmt].
Proof.
  intros H [|n] r msg Hn Hf; cbn in Hn; [|first [done | by rewrite lookup_nil in Hn]].
  injection Hn as ->. rewrite Nat.add_0_r in Hf. congruence.
Qed.

(** One site of the loop, whatever the database refuses. *)
Lemma site_step_trace s site :
  let s' := site_step env s site in
  exists sent,
    statements (db s') = statements (db s) ++ sent
    /\ insertErrors (stats s')
         = insertErrors (stats s) + refused_inserts env (length (statements (db s))) sent
    /\ refusals_logged env (length (statements (db s))) sent
    /\ (exists logs, error_logs (db s') = error_logs (db s) ++ logs)
    /\ (scored env site = true ->
        record_key (Api.id site) (today env) ∈ existingRecords s
        \/ has_row (Api.id site) (today env) (ada_scores (db s'))
        \/ insert_refused env (length (statements (db s))) site (db s')).
Proof.
  cbn zeta. unfold site_step, scored. rewrite processSite_eq. cbn zeta.
  set (s1 := on_stats incr_processed s).
  destruct (collectTarget_frame env site s1)
    as (Hsc & Hex & _ & _ & _ & _ & _ & Herr).
  destruct (collectTarget_trace site s1) as (sent & Hst & Hzero & Hfollow & (logs & Hlogs)).
  cbn zeta in Hst, Hlogs. cbn in Hsc, Hex, Herr.
  change (statements (db s1)) with (statements (db s)) in Hst.
  change (error_logs (db s1)) with (error_logs (db s)) in Hlogs.
  change (ada_scores (db s1)) with (ada_scores (db s)) in Hsc.
  change (existingRecords s1) with (existingRecords s) in Hex.
  change (insertErrors (stats s1)) with (insertErrors (stats s)) in Herr.
  destruct (overview_api env (Api.id site)) as [[scores|]|e]; cbn [snd].
  - set (r := build_record env site scores _).
    set (s2 := (collectTarget env site s1).2) in *.
    assert (Hlen : length (statements (db s2))
                   = length (statements (db s)) + length sent)
      by (by rewrite Hst, length_app).
    destruct (insertScore_cases env r s2)
      as [(Hin & ->)|[(Hin & msg & Hf & ->)|[(Hin & Hf & Hc & ->)|(Hin & Hf & Hc & ->)]]].
    + exists sent. cbn. rewrite Hzero, Herr.
      repeat split; try done; try lia; try (by exists logs).
      intros _. left. cbn in Hin. by rewrite Hex in Hin.
    + exists (sent ++ [InsertScore r;
                        InsertErrorLog (log_entry (Some (sid r)) (Some (name r)) msg None)]).
      cbn. set (d2 := record_statement (InsertScore r) (db s2)).
      assert (Hd2 : statements d2 = statements (db s2) ++ [InsertScore r]) by done.
      assert (Hl2 : length (statements d2) = S (length (statements (db s2))))
        by (rewrite Hd2, length_app; cbn; lia).
      split; [|split; [|split; [|split]]].
      * by rewrite logged_statements, Hd2, Hst, <- !app_assoc.
      * rewrite refused_inserts_app, Hzero, <- Hlen. cbn [refused_inserts].
        rewrite Hf, Herr. lia.
      * apply refusals_logged_app; [done|]. rewrite <- Hlen.
        intros [|[|n]] r' msg' Hn Hf'; cbn in Hn; try done.
        injection Hn as <-. rewrite Nat.add_0_r in Hf'. cbn. congruence.
      * rewrite logged_error_logs, Hl2.
        change (error_logs d2) with (error_logs (db s2)).
        destruct (faults env (S _)); [by exists logs|].
        rewrite Hlogs, <- app_assoc. by eexists.
      * intros _. right. right.
        exists (length (statements (db s2))), r, msg.
        split; [lia|]. split.
        { rewrite logged_statements, Hd2, <- app_assoc. by apply list_lookup_middle. }
        split; [done|]. split; [done|]. split; [done|]. split; [done|]. split.
        { rewrite logged_statements, <- Hl2. by apply list_lookup_middle. }
        intros Hok. rewrite logged_error_logs, Hl2, Hok.
        apply elem_of_app. right. by apply list_elem_of_singleton.
    + exists (sent ++ [InsertScore r]).
      cbn. rewrite Hst, refused_inserts_app, Hzero, <- Hlen, Herr.
      cbn [refused_inserts]. rewrite Hf. rewrite <- !app_assoc.
      split; [done|]. split; [lia|]. split.
      { apply refusals_logged_app; [done|]. rewrite <- Hlen.
        by apply refusals_logged_one. }
      split; [by exists logs|].
      intros _. right. left. apply conflict_has_row in Hc. exact Hc.
    + exists (sent ++ [InsertScore r]).
      cbn. rewrite Hst, refused_inserts_app, Hzero, <- Hlen, Herr.
      cbn [refused_inserts]. rewrite Hf. rewrite <- !app_assoc.
      split; [done|]. split; [lia|]. split.
      { apply refusals_logged_app; [done|]. rewrite <- Hlen.
        by apply refusals_logged_one. }
      split; [by exists logs|].
      intros _. right. left.
      exists r. split; [|done]. apply elem_of_app. right. by apply list_elem_of_singleton.
  - unfold warned. cbn. rewrite logged_statements, logged_error_logs.
    eexists. rewrite Hst, <- app_assoc. split; [reflexivity|].
    rewrite refused_inserts_app, Hzero, Herr. cbn [refused_inserts].
    split; [lia|]. split.
    { apply refusals_logged_app; [done|]. by apply refusals_logged_one. }
    split; [|done].
    destruct (faults env _); [by exists logs|].
    rewrite Hlogs, <- app_assoc. by eexists.
  - unfold warned. cbn. rewrite logged_statements, logged_error_logs.
    eexists. split; [reflexivity|]. cbn [refused_inserts].
    split; [lia|]. split; [by apply refusals_logged_one|]. split; [|done].
    destruct (faults env _); [exists []; by rewrite app_nil_r | by eexists].
Qed.

(** The whole loop, whatever the database refuses. *)
Lemma after_sites_trace sites : forall s base,
  index_sound env base s ->
  let s' := after_sites env sites s in
  exists sent,
    statements (db s') = statements (db s) ++ sent
    /\ insertErrors (stats s')
         = insertErrors (stats s) + refused_inserts env (length (statements (db s))) sent
    /\ refusals_logged env (length (statements (db s))) sent
    /\ (exists logs, error_logs (db s') = error_logs (db s) ++ logs)
    /\ (forall site, site ∈ sites -> scored env site = true ->
          record_key (Api.id site) (today env) ∈ base
          \/ has_row (Api.id site) (today env) (ada_scores (db s'))
          \/ insert_refused env (length (statements (db s))) site (db s')).
Proof.
  induction sites as [|site sites IH]; intros s base Hinv; cbn zeta.
  - exists []. cbn. rewrite !app_nil_r. repeat split; try done; try lia.
    + exists []. by rewrite app_nil_r.
    + intros site Hin. by apply elem_of_nil in Hin.
  - rewrite after_sites_cons.
    pose proof (index_sound_step base s site Hinv) as Hinv1.
    destruct (IH _ base Hinv1) as (sent2 & Hs2 & He2 & Hf2 & (logs2 & Hl2) & Hrows).
    destruct (site_step_trace s site) as (sent1 & Hs1 & He1 & Hf1 & (logs1 & Hl1) & Hthis).
    destruct (after_sites_frame env sites (site_step env s site))
      as (_ & (extra & Hext) & _).
    exists (sent1 ++ sent2). split; [|split; [|split; [|split]]].
    + by rewrite Hs2, Hs1, app_assoc.
    + rewrite He2, He1, refused_inserts_app, Hs1, length_app. lia.
    + apply refusals_logged_app; [done|]. by rewrite Hs1, length_app in Hf2.
    + exists (logs1 ++ logs2). by rewrite Hl2, Hl1, app_assoc.
    + intros x Hx Hsx. apply elem_of_cons in Hx as [->|Hx].
      * destruct (Hthis Hsx) as [Hk|[Hrow|Href]].
        -- destruct (Hinv _ Hk) as [Hb|(i & Hi & Hrow)]; [by left|].
           right. left. apply record_key_inj in Hi. subst i.
           rewrite Hext. apply has_row_app.
           destruct (site_step_frame env s site) as (Ht & _).
           destruct (table_step_prefix _ _ _ _ Ht) as (e0 & ->). by apply has_row_app.
        -- right. left. rewrite Hext. by apply has_row_app.
        -- right. right.
           apply (insert_refused_mono (length (statements (db s))) _ _
                    (db (site_step env s site))); try done.
           ++ by exists sent2.
           ++ by exists logs2.
      * destruct (Hrows x Hx Hsx) as [Hb|[Hrow|Href]]; [by left | by right; left |].
        right. right.
        apply (insert_refused_mono (length (statements (db (site_step env s site)))) _ _
                 (db (after_sites env sites (site_step env s site)))); try done.
        -- rewrite Hs1, length_app. lia.
        -- exists []. by rewrite app_nil_r.
        -- exists []. by rewrite app_nil_r.
Qed.

End SweepTrace.

Section NoFaults.
Import Store Sweep.
Context (env : Env) (Hnf : forall n, faults env n = None).

Lemma site_step_counts s site :
  let s' := site_step env s site in
  let key := record_key (Api.id site) (today env) in
  insertErrors (stats s') = insertErrors (stats s)
  /\ (scored env site = true ->
      inserted (stats s') + skippedExisting (stats s')
        = S (inserted (stats s) + skippedExisting (stats s))
      /\ (key ∈ existingRecords s
          \/ has_row (Api.id site) (today env) (ada_scores (db s'))))
  /\ (scored env site = false ->
      inserted (stats s') = inserted (stats s)
      /\ skippedExisting (stats s') = skippedExisting (stats s)).
Proof.
  cbn zeta. unfold site_step, scored. rewrite processSite_eq. cbn zeta.
  destruct (collectTarget_frame env site (on_stats incr_processed s))
    as (Hsc & Hex & _ & _ & _ & Hins & Hsk & Herr).
  cbn in Hsc, Hex, Hins, Hsk, Herr.
  destruct (overview_api env (Api.id site)) as [[scores|]|e]; cbn [snd].
  - set (r := build_record env site scores _).
    set (s2 := (collectTarget env site _).2) in *.
    destruct (insertScore_cases env r s2)
      as [(Hin & ->)|[(Hin & msg & Hf & ->)|[(Hin & Hf & Hc & ->)|(Hin & Hf & Hc & ->)]]];
      [..|]; try (rewrite Hnf in Hf; discriminate);
      cbn; rewrite ?Hins, ?Hsk, ?Herr; cbn in Hin; rewrite ?Hex in Hin.
    + split; [done|]. split; [|done]. intros _. split; [lia|]. by left.
    + split; [done|]. split; [|done]. intros _. split; [lia|]. right.
      apply conflict_has_row in Hc. exact Hc.
    + split; [done|]. split; [|done]. intros _. split; [lia|]. right.
      exists r. split; [|done]. apply elem_of_app. right. by apply list_elem_of_singleton.
  - unfold warned. cbn. rewrite Hins, Hsk, Herr. done.
  - unfold warned. cbn. done.
Qed.

Lemma site_step_again s site :
  let s' := site_step env s site in
  let key := record_key (Api.id site) (today env) in
  (scored env site = true ->
   key ∈ existingRecords s \/ has_row (Api.id site) (today env) (ada_scores (db s))) ->
  ada_scores (db s') = ada_scores (db s)
  /\ existingRecords s' = existingRecords s
  /\ inserted (stats s') = inserted (stats s)
  /\ skippedExisting (stats s')
       = skippedExisting (stats s) + (if scored env site then 1 else 0).
Proof.
  cbn zeta. unfold site_step, scored. rewrite processSite_eq. cbn zeta.
  destruct (collectTarget_frame env site (on_stats incr_processed s))
    as (Hsc & Hex & _ & _ & _ & Hins & Hsk & Herr).
  cbn in Hsc, Hex, Hins, Hsk, Herr.
  destruct (overview_api env (Api.id site)) as [[scores|]|e]; cbn [snd]; intros Hknown.
  - set (r := build_record env site scores _).
    set (s2 := (collectTarget env site _).2) in *.
    destruct (insertScore_cases env r s2)
      as [(Hin & ->)|[(Hin & msg & Hf & ->)|[(Hin & Hf & Hc & ->)|(Hin & Hf & Hc & ->)]]];
      [..|]; try (rewrite Hnf in Hf; discriminate);
      cbn; rewrite ?Hins, ?Hsk, ?Herr, ?Hsc, ?Hex; cbn in Hin; rewrite ?Hex in Hin.
    + repeat split; try done; lia.
    + repeat split; try done; lia.
    + exfalso. destruct (Hknown eq_refl) as [Hk|Hk]; [done|].
      apply conflict_has_row in Hk. cbn in Hc. rewrite Hsc in Hc. congruence.
  - unfold warned. cbn. rewrite logged_scores, Hsc, Hex, Hins, Hsk.
    repeat split; try done; lia.
  - unfold warned. cbn. rewrite logged_scores. repeat split; try done; lia.
Qed.

Lemma after_sites_counts sites : forall s base,
  index_sound env base s ->
  let s' := after_sites env sites s in
  index_sound env base s'
  /\ inserted (stats s') + skippedExisting (stats s')
       = inserted (stats s) + skippedExisting (stats s) + count_scored env sites
  /\ insertErrors (stats s') = insertErrors (stats s)
  /\ (forall site, site ∈ sites -> scored env site = true ->
        record_key (Api.id site) (today env) ∈ base
        \/ has_row (Api.id site) (today env) (ada_scores (db s'))).
Proof.
  induction sites as [|site sites IH]; intros s base Hinv; cbn zeta.
  - cbn. repeat split; try done; try lia.
    intros site Hin. by apply elem_of_nil in Hin.
  - rewrite after_sites_cons.
    pose proof (index_sound_step env base s site Hinv) as Hinv1.
    destruct (IH _ base Hinv1) as (Hinv2 & Hcnt & Herr & Hrows).
    destruct (site_step_counts s site) as (Herr1 & Hyes & Hno).
    destruct (after_sites_frame env sites (site_step env s site))
      as (_ & (extra & Hext) & _).
    repeat split; try done.
    + rewrite Hcnt. unfold count_scored. cbn [List.filter].
      destruct (scored env site) eqn:Hsc.
      * destruct (Hyes eq_refl) as [-> _]. cbn. lia.
      * destruct (Hno eq_refl) as [-> ->]. lia.
    + by rewrite Herr.
    + intros x Hx Hsx. apply elem_of_cons in Hx as [->|Hx]; [|by apply Hrows].
      destruct (Hyes Hsx) as [_ [Hk|Hrow]].
      * destruct (Hinv _ Hk) as [Hb|(i & Hi & Hrow)]; [by left|].
        right. apply record_key_inj in Hi. subst i.
        rewrite Hext. apply has_row_app.
        destruct (site_step_frame env s site) as (Ht & _).
        destruct (table_step_prefix _ _ _ _ Ht) as (e0 & ->). by apply has_row_app.
      * right. rewrite Hext. by apply has_row_app.
Qed.

Lemma after_sites_again sites : forall s,
  (forall site, site ∈ sites -> scored env site = true ->
     record_key (Api.id site) (today env) ∈ existingRecords s
     \/ has_row (Api.id site) (today env) (ada_scores (db s))) ->
  let s' := after_sites env sites s in
  ada_scores (db s') = ada_scores (db s)
  /\ existingRecords s' = existingRecords s
  /\ inserted (stats s') = inserted (stats s)
  /\ skippedExisting (stats s') = skippedExisting (stats s) + count_scored env sites.
Proof.
  induction sites as [|site sites IH]; intros s Hknown; cbn zeta.
  - cbn. repeat split; try done; lia.
  - rewrite after_sites_cons.
    destruct (site_step_again s site) as (Hsc & Hex & Hins & Hsk).
    { intros Hs. apply Hknown; [|done]. apply elem_of_cons. by left. }
    destruct (IH (site_step env s site)) as (Hsc2 & Hex2 & Hins2 & Hsk2).
    { intros x Hx Hsx. rewrite Hsc, Hex. apply Hknown; [|done].
      apply elem_of_cons. by right. }
    rewrite Hsc2, Hex2, Hins2, Hsk2, Hsc, Hex, Hins, Hsk.
    repeat split; try done.
    unfold count_scored. cbn [List.filter]. destruct (scored env site); cbn; lia.
Qed.

End NoFaults.

(** ** Two sweeps in a row *)

(** C2, as stated, fails: with three sites of which one already has
    today's row, the first sweep inserts 2 and skips 1, the second inserts
    nothing and skips 3, which is not the first sweep's inserted count. *)
Lemma second_sweep_skips_more_than_inserted :
  let first := Sweep.fetchAndInsertRecords Examples.three_sites Examples.db_with_alpha in
  let second := Sweep.fetchAndInsertRecords Examples.three_sites first.2 in
  exists st1 st2,
    first.1 = Normal st1 /\ second.1 = Normal st2
    /\ Sweep.inserted st1 = 2 /\ Sweep.skippedExisting st1 = 1
    /\ Sweep.inserted st2 = 0 /\ Sweep.skippedExisting st2 = 3
    /\ Sweep.skippedExisting st2 <> Sweep.inserted st1.
Proof.
  cbn zeta. eexists _, _.
  split; [vm_compute; reflexivity|]. split; [vm_compute; reflexivity|].
  cbn. repeat split; try done; lia.
Qed.

(** C2, as the code has it. When the database accepts every request and a
    sweep has run to its end, a second sweep against the same remote
    answers, on the same day, also runs to its end, inserts nothing and
    leaves [ada_scores] as it was; its skipped-existing count is the first
    sweep's inserted count plus the first sweep's skipped-existing count
    (so it is the inserted count exactly when the first sweep skipped
    nothing). *)
Theorem second_sweep_inserts_nothing
    (env : Sweep.Env) (db0 db1 : Store.Db) (st1 : Sweep.Stats) :
  (forall n, Sweep.faults env n = None) ->
  Sweep.fetchAndInsertRecords env db0 = (Normal st1, db1) ->
  exists st2 db2,
    Sweep.fetchAndInsertRecords env db1 = (Normal st2, db2)
    /\ Sweep.inserted st2 = 0
    /\ Sweep.skippedExisting st2 = Sweep.inserted st1 + Sweep.skippedExisting st1
    /\ Store.ada_scores db2 = Store.ada_scores db1.
Proof.
  intros Hnf Hrun1. rewrite fetchAndInsertRecords_eq in Hrun1. cbn zeta in Hrun1.
  rewrite fetchAndInsertRecords_eq. cbn zeta. rewrite !Hnf. rewrite Hnf in Hrun1.
  destruct (Sweep.sites_api env) as [items|e]; [|discriminate].
  destruct (Sweep.filter_accessible (Sweep.or_empty items)) as [sites|e]; [|discriminate].
  set (init0 := {| Sweep.db := Store.record_statement Store.SelectKeys db0;
                   Sweep.existingRecords := Sweep.index_of env (Store.ada_scores db0);
                   Sweep.stats := _ |}) in Hrun1.
  set (init1 := {| Sweep.db := Store.record_statement Store.SelectKeys db1;
                   Sweep.existingRecords := Sweep.index_of env (Store.ada_scores db1);
                   Sweep.stats := _ |}).
  injection Hrun1 as Hst1 Hdb1.
  destruct (after_sites_counts env Hnf sites init0
              (Sweep.index_of env (Store.ada_scores db0)))
    as (_ & Hcnt & _ & Hrows).
  { intros k Hk. by left. }
  destruct (after_sites_frame env sites init0) as (_ & (extra & Hext) & _).
  rewrite Hdb1 in Hext, Hrows. cbn in Hext.
  destruct (after_sites_again env Hnf sites init1) as (Hsc & _ & Hins & Hsk).
  { intros site Hin Hs. cbn [Sweep.existingRecords Sweep.db init1].
    destruct (Hrows site Hin Hs) as [Hb|Hr]; [left|by right].
    rewrite Hext. by apply index_of_app. }
  eexists _, _. split; [reflexivity|].
  rewrite Hins, Hsk, Hsc. rewrite <- Hst1, Hcnt. cbn. done.
Qed.

(** ** Which failures end a sweep *)

(** C9, as stated, fails: with the directory listing available and every
    site answering, a database that refuses the first request (the load of
    the existing-record index) makes the whole sweep throw. *)
Lemma index_load_failure_is_fatal :
  Sweep.sites_api Examples.database_down
    = Normal (Some [Examples.alpha; Examples.beta; Examples.gamma])
  /\ Sweep.filter_accessible (Sweep.or_empty (Some [Examples.alpha; Examples.beta; Examples.gamma]))
     = Normal [Examples.alpha; Examples.beta; Examples.gamma]
  /\ Sweep.fetchAndInsertRecords Examples.database_down Examples.empty_db
     = (Throw (DatabaseError "Connection terminated"),
        {| Store.ada_scores := []; Store.error_logs := [];
           Store.statements := [Store.SelectKeys] |}).
Proof. split; [reflexivity|]. split; vm_compute; reflexivity. Qed.

(** C9, as the code has it. A sweep throws exactly when something fails
    before the site loop: the load of the existing-record index, the
    directory call, or the filter over its items. Otherwise, whatever the
    database refuses later, it returns its statistics with every listed
    accessibility site counted as processed. A site whose overview call
    fails leaves a WARNING request for the error sink and the loop goes
    on. An INSERT the database refuses is handled in [insertScore]:
    [insertErrors] counts exactly the refused INSERTs among the requests
    of the sweep, and each is followed at once by the request of an ERROR
    entry with the database's message for the record's site. Every site whose overview call returned
    scores ends the sweep with a row for [(id, today)] in the table,
    unless its key was already in the loaded index or its own INSERT was
    refused; so when the database accepts every request, each such site
    is in the index or has its row. *)
Theorem sweep_isolates_site_failures (env : Sweep.Env) (db0 : Store.Db) :
  let run := Sweep.fetchAndInsertRecords env db0 in
  (is_normal run.1 = true <->
     Sweep.faults env (length (Store.statements db0)) = None
     /\ exists items sites,
          Sweep.sites_api env = Normal items
          /\ Sweep.filter_accessible (Sweep.or_empty items) = Normal sites)
  /\ (forall items sites,
        Sweep.faults env (length (Store.statements db0)) = None ->
        Sweep.sites_api env = Normal items ->
        Sweep.filter_accessible (Sweep.or_empty items) = Normal sites ->
        exists st,
          run.1 = Normal st
          /\ Sweep.sitesPulled st = length sites
          /\ Sweep.processed st = length sites
          /\ (forall site e,
                site ∈ sites ->
                Sweep.overview_api env (Api.id site) = Throw e ->
                Store.InsertErrorLog
                  (Sweep.log_entry (Some (Api.id site)) (Some (Api.site_name site))
                     ("Approved site failed during processing: " +:+ message e)
                     (Some "WARNING"))
                ∈ Store.statements run.2)
          /\ (exists sent,
                Store.statements run.2 = Store.statements db0 ++ sent
                /\ Sweep.insertErrors st
                   = Sweep.refused_inserts env (length (Store.statements db0)) sent
                /\ (forall (n : nat) (r : Store.ScoreRecord) (msg : string),
                      sent !! n = Some (Store.InsertScore r) ->
                      Sweep.faults env (length (Store.statements db0) + n) = Some msg ->
                      sent !! S n
                      = Some (Store.InsertErrorLog
                                {| Store.log_site_id := Sweep.id_or_null (Some (Store.sid r));
                                   Store.log_site_name :=
                                     Sweep.name_or_null (Some (Store.name r));
                                   Store.log_message := msg;
                                   Store.log_level := "ERROR" |})))
          /\ (forall site,
                site ∈ sites ->
                Sweep.scored env site = true ->
                Sweep.record_key (Api.id site) (Sweep.today env)
                  ∈ Sweep.index_of env (Store.ada_scores db0)
                \/ Store.has_row (Api.id site) (Sweep.today env)
                     (Store.ada_scores run.2)
                \/ Sweep.insert_refused env (length (Store.statements db0)) site run.2)
          /\ ((forall n, Sweep.faults env n = None) ->
              forall site,
                site ∈ sites ->
                Sweep.scored env site = true ->
                Sweep.record_key (Api.id site) (Sweep.today env)
                  ∈ Sweep.index_of env (Store.ada_scores db0)
                \/ Store.has_row (Api.id site) (Sweep.today env)
                     (Store.ada_scores run.2))).
Proof.
  cbn zeta. rewrite fetchAndInsertRecords_eq. cbn zeta. split.
  - destruct (Sweep.faults env _) as [msg|].
    { cbn. split; [done | by intros [? _]]. }
    destruct (Sweep.sites_api env) as [items|e].
    2:{ cbn. split; [done | by intros (_ & ? & ? & ? & _)]. }
    destruct (Sweep.filter_accessible (Sweep.or_empty items)) as [sites|e] eqn:Hfl.
    2:{ cbn. split; [done|]. intros (_ & ? & ? & [= <-] & H). congruence. }
    cbn. split; [|done]. intros _. split; [done|]. by exists items, sites.
  - intros items sites Hf Hs Hfl. rewrite Hf, Hs, Hfl.
    set (init := {| Sweep.db := _; Sweep.existingRecords := _; Sweep.stats := _ |}).
    destruct (after_sites_frame env sites init) as (_ & _ & _ & _ & Hpu & Hpr).
    assert (Hbase : Sweep.index_sound env
                      (Sweep.index_of env (Store.ada_scores db0)) init)
      by (intros k Hk; by left).
    destruct (after_sites_trace env sites init _ Hbase)
      as (sent & Hsent & Herr & Hfollow & _ & Hrows).
    assert (Hlen : length (Store.statements (Sweep.db init))
                   = S (length (Store.statements db0))).
    { cbn. rewrite length_app. cbn. lia. }
    eexists. split; [reflexivity|]. rewrite Hpu, Hpr. cbn [fst snd].
    split; [done|]. split; [done|]. split; [|split; [|split]].
    + intros site e Hin He. by apply after_sites_warning.
    + exists (Store.SelectKeys :: sent). split; [|split].
      * rewrite Hsent. cbn. by rewrite <- app_assoc.
      * rewrite Herr, Hlen. cbn [Sweep.refused_inserts]. done.
      * intros [|n] r msg Hn Hf'; [done|]. cbn in Hn.
        rewrite Hlen in Hfollow. apply (Hfollow n r msg Hn).
        by replace (S (length (Store.statements db0)) + n)
             with (length (Store.statements db0) + S n) by lia.
    + intros site Hin Hsc.
      destruct (Hrows site Hin Hsc) as [Hk|[Hrow|Href]];
        [by left | by right; left | right; right].
      apply (insert_refused_from env _ _ site _ Href).
      rewrite Hlen. lia.
    + intros Hnf site Hin Hsc.
      destruct (after_sites_counts env Hnf sites init
                  (Sweep.index_of env (Store.ada_scores db0)) Hbase)
        as (_ & _ & _ & Hrows').
      by apply Hrows'.
Qed.

(** ** Date reconciliation in the backfill *)

Section Reconciliation.
Import Backfill.
Local Open Scope Z_scope.

(** [find_entry] returns the first entry whose date, as [entry_date]
    computes it, is the requested one, provided every entry before it has
    a date. *)
Lemma find_entry_first env dateStr items entry :
  find_entry env dateStr items = Normal (Some entry) ->
  exists before after,
    items = before ++ entry :: after
    /\ entry_date env entry = Normal dateStr
    /\ forall x, x ∈ before ->
         exists d, entry_date env x = Normal d /\ d <> dateStr.
Proof.
  induction items as [|x items IH]; cbn [find_entry]; [discriminate|].
  destruct (entry_date env x) as [iso|e] eqn:Hx; [|discriminate].
  destruct (String.eqb iso dateStr) eqn:Heq.
  - intros [= <-]. apply String.eqb_eq in Heq. subst iso.
    exists [], items. split; [done|]. split; [done|].
    intros y Hy. by apply elem_of_nil in Hy.
  - intros H. destruct (IH H) as (before & after & -> & He & Hb).
    exists (x :: before), after. split; [done|]. split; [done|].
    intros y [->|Hy]%elem_of_cons; [|by apply Hb].
    exists iso. split; [done|]. by apply String.eqb_neq.
Qed.

(** The time value of a local midnight. *)
Lemma parse_local_midnight_15 offset other :
  JsDate.parse (JsDate.fixed offset) other "2025-06-15T00:00:00"
  = Some (1749945600000 - offset * 60000).
Proof.
  unfold JsDate.parse.
  replace (JsDate.fields "2025-06-15T00:00:00") with (Some (1749945600000, @None Z))
    by (vm_compute; reflexivity).
  unfold JsDate.offset_for. cbn. by rewrite Z.add_0_r.
Qed.

Lemma parse_local_midnight_14 offset other :
  JsDate.parse (JsDate.fixed offset) other "2025-06-14T00:00:00"
  = Some (1749859200000 - offset * 60000).
Proof.
  unfold JsDate.parse.
  replace (JsDate.fields "2025-06-14T00:00:00") with (Some (1749859200000, @None Z))
    by (vm_compute; reflexivity).
  unfold JsDate.offset_for. cbn. by rewrite Z.add_0_r.
Qed.

(** The UTC date of an instant only depends on its day number. *)
Lemma iso_date_within_day day ms :
  0 <= ms < 86400000 ->
  JsDate.iso_date (day * 86400000 + ms) = JsDate.iso_date (day * 86400000).
Proof.
  intros H. unfold JsDate.iso_date.
  rewrite Z.div_add_l, Z.div_small, Z.add_0_r by lia.
  by rewrite Z.div_mul by lia.
Qed.

(** [entry_date] on a host with the given offset, unfolded. *)
Lemma entry_date_june (offset : Z) (entry : Api.HistoryEntry) :
  entry_date (Examples.host offset) entry
    = match Api.timestamp entry with
      | JNull =>
          Throw (TypeError "Cannot read properties of null (reading 'trim')")
      | JUndefined =>
          Throw (TypeError "Cannot read properties of undefined (reading 'trim')")
      | JNonString _ => Throw (TypeError "entry.timestamp.trim is not a function")
      | JString ts =>
          match JsDate.parse (JsDate.fixed offset) (fun _ => None)
                  (JsDate.replace_space (trim ts)) with
          | None => Throw (RangeError "Invalid time value")
          | Some t => Normal (JsDate.iso_date t)
          end
      end.
Proof. reflexivity. Qed.

(** On a host at or behind UTC the entry of 2025-06-15 is the one
    selected for that date. *)
Lemma find_entry_at_or_west_of_utc offset :
  -1440 < offset <= 0 ->
  find_entry (Examples.host offset) "2025-06-15" Examples.history_june
    = Normal (Some Examples.entry_15).
Proof.
  intros H. cbn [find_entry Examples.history_june].
  rewrite !entry_date_june.
  cbn [Api.timestamp Examples.entry_14 Examples.entry_15].
  change (JsDate.replace_space (trim "2025-06-14 00:00:00")) with "2025-06-14T00:00:00".
  change (JsDate.replace_space (trim "2025-06-15 00:00:00")) with "2025-06-15T00:00:00".
  rewrite parse_local_midnight_14, parse_local_midnight_15.
  replace (1749859200000 - offset * 60000) with (20253 * 86400000 + - offset * 60000) by lia.
  replace (1749945600000 - offset * 60000) with (20254 * 86400000 + - offset * 60000) by lia.
  rewrite !iso_date_within_day by lia.
  reflexivity.
Qed.

(** On a host ahead of UTC no entry is selected for 2025-06-15: local
    midnight of the 15th is still the 14th in UTC. *)
Lemma find_entry_east_of_utc offset :
  0 < offset <= 1440 ->
  find_entry (Examples.host offset) "2025-06-15" Examples.history_june = Normal None.
Proof.
  intros H. cbn [find_entry Examples.history_june].
  rewrite !entry_date_june.
  cbn [Api.timestamp Examples.entry_14 Examples.entry_15].
  change (JsDate.replace_space (trim "2025-06-14 00:00:00")) with "2025-06-14T00:00:00".
  change (JsDate.replace_space (trim "2025-06-15 00:00:00")) with "2025-06-15T00:00:00".
  rewrite parse_local_midnight_14, parse_local_midnight_15.
  replace (1749859200000 - offset * 60000)
    with (20252 * 86400000 + (86400000 - offset * 60000)) by lia.
  replace (1749945600000 - offset * 60000)
    with (20253 * 86400000 + (86400000 - offset * 60000)) by lia.
  rewrite !iso_date_within_day by lia.
  reflexivity.
Qed.

End Reconciliation.

(** C6 at its failing input. With the history of the specification
    (entries stamped [2025-06-14 00:00:00] and [2025-06-15 00:00:00]) and
    the date 2025-06-15 requested, the backfill on a host two hours ahead
    of UTC reads the second entry as 2025-06-14, selects no entry, and
    records a miss for the site; asked for 2025-06-14 it selects the entry
    of the 15th. The incremental sweep, which compares the text of the
    timestamp, selects the entry of the 15th, and so does the backfill on a
    host in UTC. *)
Theorem backfill_date_shifts_east_of_utc :
  Backfill.entry_date Examples.berlin Examples.entry_15 = Normal "2025-06-14"
  /\ Backfill.find_entry Examples.berlin "2025-06-15" Examples.history_june = Normal None
  /\ Backfill.find_entry Examples.berlin "2025-06-14" Examples.history_june
     = Normal (Some Examples.entry_15)
  /\ Backfill.processSite Examples.berlin "2025-06-15" Examples.alpha Examples.no_batch
     = (Normal tt,
        {| Backfill.updates := [];
           Backfill.missingTargetLogs :=
             [{| Backfill.m_sid := 101; Backfill.m_name := "Alpha";
                 Backfill.m_date := "2025-06-15";
                 Backfill.m_reason := "No site_target_percentage" |}] |})
  /\ List.find (Sweep.is_today Examples.three_sites) Examples.history_june
     = Some Examples.entry_15
  /\ Backfill.find_entry Examples.utc "2025-06-15" Examples.history_june
     = Normal (Some Examples.entry_15).
Proof. repeat split; vm_compute; reflexivity. Qed.

(** ** The properties at concrete inputs *)

(** [reachable_unique_site_date] on a store that holds today's row of one
    site, after an [insertScore] for the same key by a process with an
    empty index, a sweep over three sites and a batch update: the row is
    still the only one of its key, and a further [insertScore] of that key
    adds nothing. *)
Lemma reachable_unique_site_date_witness :
  Pipeline.reachable Examples.after_busy_day
  /\ map Store.key_of (Store.ada_scores Examples.after_busy_day)
     = [(101%Z, "2025-06-15"); (102%Z, "2025-06-15"); (103%Z, "2025-06-15")]
  /\ Store.unique_site_date (Store.ada_scores Examples.after_busy_day)
  /\ Store.ada_scores
       (Pipeline.run
          (Pipeline.InsertScoreOp Examples.three_sites Examples.alpha_again ∅ Sweep.zero_stats)
          Examples.after_busy_day)
     = Store.ada_scores Examples.after_busy_day.
Proof.
  assert (H : Pipeline.reachable Examples.after_busy_day).
  { apply Pipeline.reach_batchUpdate, Pipeline.reach_sweep, Pipeline.reach_insertScore.
    apply Pipeline.reach_init. simpl. apply NoDup_singleton. }
  destruct (reachable_unique_site_date _ H) as (Hu & Hop).
  destruct (Hop (Pipeline.InsertScoreOp Examples.three_sites Examples.alpha_again ∅
                   Sweep.zero_stats))
    as (_ & _ & added & _ & _ & _ & [(_ & Hsame)|(_ & Hnew & _)]).
  - split; [exact H|]. split; [vm_compute; reflexivity|]. split; [exact Hu | exact Hsame].
  - exfalso. apply (f_equal length) in Hnew. vm_compute in Hnew. discriminate Hnew.
Defined.

(** [second_sweep_inserts_nothing] on three sites of which one already has
    its row: the second sweep skips 2 + 1. *)
Lemma second_sweep_inserts_nothing_witness :
  exists st2 db2,
    Sweep.fetchAndInsertRecords Examples.three_sites
      (Sweep.fetchAndInsertRecords Examples.three_sites Examples.db_with_alpha).2
      = (Normal st2, db2)
    /\ Sweep.inserted st2 = 0
    /\ Sweep.skippedExisting st2 = 2 + 1
    /\ Store.ada_scores db2
       = Store.ada_scores
           (Sweep.fetchAndInsertRecords Examples.three_sites Examples.db_with_alpha).2.
Proof.
  apply (second_sweep_inserts_nothing Examples.three_sites Examples.db_with_alpha
           (Sweep.fetchAndInsertRecords Examples.three_sites Examples.db_with_alpha).2
           {| Sweep.sitesPulled := 3; Sweep.processed := 3; Sweep.inserted := 2;
              Sweep.skippedExisting := 1; Sweep.targetInfoNotes := 0;
              Sweep.targetErrors := 0; Sweep.insertErrors := 0 |}).
  - intros n. reflexivity.
  - vm_compute. reflexivity.
Defined.

(** [patch_preserves_non_null] on a row whose target is 80.0: a patch with
    99.9 for its very key leaves it alone. *)
Lemma patch_preserves_non_null_witness :
  let db1 := (Backfill.patchTargetIfMissing Examples.utc 102 "2025-06-14"
                (Decimal 999 (-1)) Examples.db_two_days).2 in
  Store.ada_scores Examples.db_two_days !! 0%nat
    = Some (Examples.beta_row "2025-06-14" (Some (Decimal 800 (-1))))
  /\ Store.ada_scores db1 !! 0%nat
     = Some (Examples.beta_row "2025-06-14" (Some (Decimal 800 (-1)))).
Proof.
  split; [reflexivity|].
  apply (patch_preserves_non_null Examples.utc 102 "2025-06-14"
           (Decimal 999 (-1)) (Decimal 999 (-1)) Examples.db_two_days);
    [reflexivity | discriminate].
Defined.

(** [fetcher_retries_only_rate_limits] on two rate limits followed by an
    HTTP 500, and on a remote side that always answers 429. *)
Lemma fetcher_retries_only_rate_limits_witness :
  (exists st',
      Fetcher.fetchWithExponentialBackoff Examples.limited_twice_then_500
        Examples.overview_url None None Fetcher.idle
        = (Throw Examples.server_error, st')
      /\ Fetcher.requests st' = 3)
  /\ (exists st',
        Fetcher.fetchWithExponentialBackoff Examples.always_limited
          Examples.overview_url None None Fetcher.idle
          = (Throw Fetcher.max_retries_exceeded, st')
        /\ Fetcher.requests st' = 5).
Proof.
  split.
  - destruct (fetcher_retries_only_rate_limits Examples.limited_twice_then_500
                Examples.overview_url None None Fetcher.idle) as (_ & H & _).
    apply (H 2 Examples.server_error).
    + cbv. lia.
    + intros i Hi. exists Examples.rate_limit.
      destruct i as [|[|i]]; [split; reflexivity | split; reflexivity | lia].
    + reflexivity.
    + reflexivity.
  - destruct (fetcher_retries_only_rate_limits Examples.always_limited
                Examples.overview_url None None Fetcher.idle) as (_ & _ & H & _).
    apply H. intros i Hi. exists Examples.rate_limit. split; reflexivity.
Defined.

(** [fetcher_backoff_doubles] on a remote side that always answers 429
    without a [retry-after] header. *)
Lemma fetcher_backoff_doubles_witness :
  Fetcher.waits
    (Fetcher.fetchWithExponentialBackoff Examples.always_limited
       Examples.overview_url None None Fetcher.idle).2
  = map Int [1000; 2000; 4000; 8000; 16000]%Z.
Proof.
  destruct (fetcher_backoff_doubles Examples.always_limited Examples.overview_url
              None Fetcher.idle 5) as (H & _).
  - cbv. lia.
  - intros i Hi. exists Examples.rate_limit. repeat split; reflexivity.
  - cbv. lia.
  - exact H.
Defined.

(** [target_failure_keeps_site] on a site whose target history answers
    HTTP 404, and on one whose history has no entry. *)
Lemma target_failure_keeps_site_witness :
  (exists s1 : Sweep.Run,
     Sweep.processSite Examples.beta_fails Examples.alpha Examples.fresh_run
     = (Normal tt,
        (Sweep.insertScore Examples.beta_fails
           {| Store.sid := 101; Store.name := "Alpha";
              Store.url := "https://alpha.example.org";
              Store.ada_a := Int 91; Store.ada_aa := Int 84; Store.ada_aaa := Int 77;
              Store.ada_aria := Int 88; Store.ada_score_total := Int 85;
              Store.site_target_score := None; Store.date := "2025-06-15" |} s1).2)
     /\ Sweep.targetErrors (Sweep.stats s1) = 1
     /\ Sweep.targetInfoNotes (Sweep.stats s1) = 0
     /\ Store.statements (Sweep.db s1)
        = [Store.InsertErrorLog
             {| Store.log_site_id := Some 101%Z; Store.log_site_name := Some "Alpha";
                Store.log_message :=
                  "Target score fetch error: Request failed with status code 404";
                Store.log_level := "INFO" |}])
  /\ (exists s1 : Sweep.Run,
        Sweep.processSite Examples.unparsable Examples.alpha Examples.fresh_run
        = (Normal tt,
           (Sweep.insertScore Examples.unparsable
              {| Store.sid := 101; Store.name := "Alpha";
                 Store.url := "https://alpha.example.org";
                 Store.ada_a := NaN; Store.ada_aa := Int 84; Store.ada_aaa := Int 77;
                 Store.ada_aria := Int 88; Store.ada_score_total := Int 85;
                 Store.site_target_score := None; Store.date := "2025-06-15" |} s1).2)
        /\ Sweep.targetErrors (Sweep.stats s1) = 0
        /\ Sweep.targetInfoNotes (Sweep.stats s1) = 1
        /\ Store.statements (Sweep.db s1)
           = [Store.InsertErrorLog
                {| Store.log_site_id := Some 101%Z; Store.log_site_name := Some "Alpha";
                   Store.log_message := "No site_target_percentage entry for today";
                   Store.log_level := "INFO" |}]).
Proof.
  split.
  - destruct (target_failure_keeps_site Examples.beta_fails Examples.alpha
                Examples.good_scores Examples.fresh_run eq_refl) as [Hfail _].
    destruct (Hfail _ eq_refl) as (s1 & Hrun & Hstats & Hsent & _).
    exists s1. split; [exact Hrun|]. rewrite Hstats, Hsent.
    repeat split.
  - destruct (target_failure_keeps_site Examples.unparsable Examples.alpha
                Examples.bad_scores Examples.fresh_run eq_refl) as [_ Hnone].
    destruct (Hnone (Some []) eq_refl eq_refl) as (s1 & Hrun & Hstats & Hsent & _).
    exists s1. split; [exact Hrun|]. rewrite Hstats, Hsent.
    repeat split.
Defined.

(** C8, as stated, fails: the level-A score ["n/a"] does not parse, yet
    the site is not given up: the loop body completes and the INSERT whose
    [ada_a] is [NaN] is what the database is sent (after the INFO entry
    for the missing target). *)
Lemma unparsable_score_is_written :
  let run := Sweep.processSite Examples.unparsable Examples.alpha Examples.fresh_run in
  let r := {| Store.sid := 101; Store.name := "Alpha";
              Store.url := "https://alpha.example.org";
              Store.ada_a := NaN; Store.ada_aa := Int 84; Store.ada_aaa := Int 77;
              Store.ada_aria := Int 88; Store.ada_score_total := Int 85;
              Store.site_target_score := None; Store.date := "2025-06-15" |} in
  parseInt (Api.a Examples.bad_scores) = NaN
  /\ run.1 = Normal tt
  /\ Store.statements (Sweep.db run.2)
     = [Store.InsertErrorLog
          (Sweep.log_entry (Some 101%Z) (Some "Alpha")
             "No site_target_percentage entry for today" (Some "INFO"));
        Store.InsertScore r].
Proof. cbn zeta. repeat split; vm_compute; reflexivity. Qed.

(** [unparsable_score_reaches_writer] on the payload whose level-A score
    is ["n/a"]. *)
Lemma unparsable_score_reaches_writer_witness :
  exists (tgt : option JsNumber) (s1 : Sweep.Run) (r : Store.ScoreRecord),
    r = Sweep.build_record Examples.unparsable Examples.alpha Examples.bad_scores tgt
    /\ Sweep.processSite Examples.unparsable Examples.alpha Examples.fresh_run
       = (Normal tt, (Sweep.insertScore Examples.unparsable r s1).2)
    /\ Store.ada_a r = NaN.
Proof.
  destruct (unparsable_score_reaches_writer Examples.unparsable Examples.alpha
              Examples.fresh_run) as (H & _).
  destruct (H Examples.bad_scores eq_refl) as (tgt & s1 & r & Hr & Hrun & Ha & _).
  exists tgt, s1, r. split; [exact Hr|]. split; [exact Hrun|]. exact Ha.
Defined.

(** [sweep_isolates_site_failures] on three sites: the INSERT of the first
    one's record is refused by the database, the overview call of the
    second fails, the third is persisted. *)
Lemma sweep_isolates_site_failures_witness :
  let run := Sweep.fetchAndInsertRecords Examples.alpha_refused_beta_fails Examples.empty_db in
  exists st,
    run.1 = Normal st
    /\ Sweep.processed st = 3
    /\ Sweep.insertErrors st = 1
    /\ Store.InsertErrorLog
         (Sweep.log_entry (Some 102%Z) (Some "Beta")
            "Approved site failed during processing: Request failed with status code 500"
            (Some "WARNING"))
       ∈ Store.statements run.2
    /\ Sweep.insert_refused Examples.alpha_refused_beta_fails 0 Examples.alpha run.2
    /\ Store.has_row 103 "2025-06-15" (Store.ada_scores run.2).
Proof.
  cbn zeta.
  destruct (sweep_isolates_site_failures Examples.alpha_refused_beta_fails Examples.empty_db)
    as (_ & H).
  destruct (H (Some [Examples.alpha; Examples.beta; Examples.gamma])
              [Examples.alpha; Examples.beta; Examples.gamma])
    as (st & Hrun & _ & Hproc & Hwarn & (sent & Hsent & Herr & _) & Hrows & _).
  - reflexivity.
  - reflexivity.
  - reflexivity.
  - exists st. split; [exact Hrun|]. split; [exact Hproc|]. split; [|split; [|split]].
    + rewrite Herr. cbn in Hsent. rewrite <- Hsent. vm_compute. reflexivity.
    + apply (Hwarn Examples.beta Examples.server_error).
      * apply elem_of_cons. right. apply elem_of_cons. left. reflexivity.
      * reflexivity.
    + destruct (Hrows Examples.alpha) as [Hk|[Hrow|Href]].
      * apply elem_of_cons. left. reflexivity.
      * reflexivity.
      * simpl in Hk. apply elem_of_empty in Hk. destruct Hk.
      * exfalso. destruct Hrow as (r & Hin & Hsid & _). vm_compute in Hin.
        apply list_elem_of_singleton in Hin. subst r. discriminate Hsid.
      * exact Href.
    + destruct (Hrows Examples.gamma) as [Hk|[Hrow|Href]].
      * apply elem_of_cons. right. apply elem_of_cons. right.
        apply elem_of_cons. left. reflexivity.
      * reflexivity.
      * simpl in Hk. apply elem_of_empty in Hk. destruct Hk.
      * exact Hrow.
      * exfalso. destruct Href as (n & r & msg & _ & Hat & Hsid & _ & _ & Hf & _).
        vm_compute in Hf. destruct n as [|[|n]]; try discriminate Hf.
        vm_compute in Hat. injection Hat as <-. discriminate Hsid.
Defined.

(** * Further properties *)

(** ** The fetcher, whatever the remote side does *)

Section FetcherBounds.
Import Fetcher.
Context {R : Type} (up : Upstream R) (url : string).

Local Abbreviation limited_at := (limited_at up url).

(** How a run of the retry loop ends, in terms of the number [n] of
    requests it has sent. *)
Lemma attempts_outcome remaining : forall delay st,
  exists n,
    requests (attempts up url remaining delay st).2 = requests st + n
    /\ n <= remaining
    /\ (forall i, S i < n -> limited_at st i)
    /\ match (attempts up url remaining delay st).1 with
       | Normal r =>
           1 <= n /\ up url (requests st + (n - 1)) = Normal r
           /\ length (waits (attempts up url remaining delay st).2)
              = length (waits st) + (n - 1)
       | Throw e =>
           (e = max_retries_exceeded /\ n = remaining
            /\ (forall i, i < n -> limited_at st i)
            /\ length (waits (attempts up url remaining delay st).2)
               = length (waits st) + n)
           \/ (1 <= n /\ up url (requests st + (n - 1)) = Throw e
               /\ rate_limited e = false
               /\ length (waits (attempts up url remaining delay st).2)
                  = length (waits st) + (n - 1))
       end.
Proof.
  induction remaining as [|r IH]; intros delay st; cbn [attempts].
  - exists 0. unfold throw. cbn. split; [lia|]. split; [lia|]. split; [intros; lia|].
    left. repeat split; intros; try done; try lia.
  - unfold try_catch, axios_get.
    destruct (up url (requests st)) as [resp|e] eqn:Hup.
    + exists 1. cbn. split; [lia|]. split; [lia|]. split; [intros; lia|].
      rewrite Nat.add_0_r. repeat split; try done; lia.
    + destruct (rate_limited e) eqn:Hrl.
      * unfold bind, sleep, modify. cbv beta iota. cbn [requests waits].
        set (st1 := {| requests := S (requests st);
                       waits := waits st ++ [waitTime e delay] |}).
        destruct (IH (delay * 2)%Z st1) as (n & Hreq & Hn & Hpre & Hend).
        assert (Hshift : forall i, limited_at st1 i -> limited_at st (S i)).
        { intros i (e' & He' & Hl'). exists e'. split; [|done].
          rewrite <- He'. cbn. f_equal. lia. }
        assert (H0 : limited_at st 0).
        { exists e. by rewrite Nat.add_0_r. }
        exists (S n). cbn [requests] in Hreq. split; [rewrite Hreq; cbn; lia|].
        split; [lia|]. split.
        { intros [|i] Hi; [done|]. apply Hshift, Hpre. lia. }
        destruct (attempts up url r (delay * 2)%Z st1).1 as [resp|e'].
        -- destruct Hend as (H1 & Hlast & Hw). split; [lia|]. split.
           ++ rewrite <- Hlast. cbn. f_equal. lia.
           ++ rewrite Hw. cbn. rewrite length_app. cbn. lia.
        -- destruct Hend as [(-> & -> & Hall & Hw)|(H1 & Hlast & Hne & Hw)].
           ++ left. repeat split; try done.
              ** intros [|i] Hi; [done|]. apply Hshift, Hall. lia.
              ** rewrite Hw. cbn. rewrite length_app. cbn. lia.
           ++ right. split; [lia|]. split; [|split; [done|]].
              ** rewrite <- Hlast. cbn. f_equal. lia.
              ** rewrite Hw. cbn. rewrite length_app. cbn. lia.
      * exists 1. unfold throw. cbn. split; [lia|]. split; [lia|]. split; [intros; lia|].
        right. rewrite Nat.add_0_r. repeat split; try done; lia.
Qed.

(** The delay of every sleep: the [i]-th follows the [i]-th request, which
    was rate-limited, and is [waitTime] at the delay doubled [i] times. *)
Lemma attempts_every_wait remaining : forall delay st i,
  length (waits st) + i < length (waits (attempts up url remaining delay st).2) ->
  exists e,
    up url (requests st + i) = Throw e
    /\ rate_limited e = true
    /\ waits (attempts up url remaining delay st).2 !! (length (waits st) + i)
       = Some (waitTime e (delay * 2 ^ Z.of_nat i)%Z).
Proof.
  induction remaining as [|r IH]; intros delay st i; cbn [attempts].
  - unfold throw. cbn. lia.
  - unfold try_catch, axios_get.
    destruct (up url (requests st)) as [resp|e] eqn:Hup; [cbn; lia|].
    destruct (rate_limited e) eqn:Hrl; [|unfold throw; cbn; lia].
    unfold bind, sleep, modify. cbv beta iota. cbn [requests waits].
    set (st1 := {| requests := S (requests st);
                   waits := waits st ++ [waitTime e delay] |}).
    assert (Hprefix : exists extra,
              waits (attempts up url r (delay * 2)%Z st1).2 = waits st1 ++ extra).
    { clear. generalize (delay * 2)%Z as d. generalize st1 as s. clear.
      induction r as [|r IHr]; intros s d; cbn [attempts].
      - exists []. unfold throw. cbn. by rewrite app_nil_r.
      - unfold try_catch, axios_get.
        destruct (up url (requests s)) as [resp|e];
          [exists []; cbn; by rewrite app_nil_r|].
        destruct (rate_limited e);
          [|exists []; unfold throw; cbn; by rewrite app_nil_r].
        unfold bind, sleep, modify. cbv beta iota. cbn [requests waits].
        destruct (IHr {| requests := S (requests s);
                         waits := waits s ++ [waitTime e d] |} (d * 2)%Z)
          as (extra & ->).
        cbn. eexists. by rewrite <- app_assoc. }
    destruct Hprefix as (extra & Hextra).
    destruct i as [|i]; intros Hi.
    + exists e. rewrite Nat.add_0_r. split; [done|]. split; [done|].
      rewrite Hextra. cbn [waits st1]. rewrite <- app_assoc. cbn.
      rewrite list_lookup_middle by done. f_equal. f_equal. cbn. lia.
    + destruct (IH (delay * 2)%Z st1 i) as (e' & He' & Hl' & Hw).
      { cbn [waits st1]. rewrite length_app. cbn. lia. }
      exists e'. split; [rewrite <- He'; cbn; f_equal; lia|]. split; [done|].
      cbn [waits st1] in Hw. rewrite length_app in Hw. cbn in Hw.
      replace (length (waits st) + S i) with (length (waits st) + 1 + i) by lia.
      rewrite Hw. f_equal. f_equal.
      rewrite Nat2Z.inj_succ, Z.pow_succ_r by lia. lia.
Qed.

End FetcherBounds.

(** X1. Whatever the remote side answers, [fetchWithExponentialBackoff]
    sends at most [retries] requests, and every request but the last one it
    sent was answered by a rate limit. A response it returns is the answer
    to its last request; an error it throws is either the max-retries error,
    after exactly [retries] rate-limited requests, or the answer to its
    last request, which was not a rate limit. It has slept once after each
    rate-limited request. *)
Theorem fetcher_outcome_is_last_answer
    {R : Type} (up : Fetcher.Upstream R) (url : string)
    (retries : option nat) (delay : option Z) (st : Fetcher.Net) :
  let run := Fetcher.fetchWithExponentialBackoff up url retries delay st in
  let limit := default Fetcher.default_retries retries in
  exists n,
    Fetcher.requests run.2 = Fetcher.requests st + n
    /\ n <= limit
    /\ (forall i, S i < n -> Fetcher.limited_at up url st i)
    /\ match run.1 with
       | Normal r =>
           1 <= n /\ up url (Fetcher.requests st + (n - 1)) = Normal r
           /\ length (Fetcher.waits run.2) = length (Fetcher.waits st) + (n - 1)
       | Throw e =>
           (e = Fetcher.max_retries_exceeded /\ n = limit
            /\ (forall i, i < n -> Fetcher.limited_at up url st i)
            /\ length (Fetcher.waits run.2) = length (Fetcher.waits st) + n)
           \/ (1 <= n /\ up url (Fetcher.requests st + (n - 1)) = Throw e
               /\ Fetcher.rate_limited e = false
               /\ length (Fetcher.waits run.2) = length (Fetcher.waits st) + (n - 1))
       end.
Proof. cbn zeta. apply attempts_outcome. Qed.

(** X2. Every delay the fetcher sleeps follows a rate-limited request: the
    [i]-th is [parseInt(retryAfter) * 1000] when that answer carries a
    non-empty [retry-after] header, and otherwise the starting delay
    doubled [i] times: the doubling goes on whether or not earlier answers
    carried a header. *)
Theorem fetcher_wait_is_header_or_doubled_delay
    {R : Type} (up : Fetcher.Upstream R) (url : string)
    (retries : option nat) (delay : option Z) (st : Fetcher.Net) (i : nat) :
  let run := Fetcher.fetchWithExponentialBackoff up url retries delay st in
  length (Fetcher.waits st) + i < length (Fetcher.waits run.2) ->
  exists e,
    up url (Fetcher.requests st + i) = Throw e
    /\ Fetcher.rate_limited e = true
    /\ Fetcher.waits run.2 !! (length (Fetcher.waits st) + i)
       = Some (if truthy_header (Fetcher.retryAfter e)
               then times 1000 (parseInt_string (default "" (Fetcher.retryAfter e)))
               else Int (default Fetcher.default_delay delay * 2 ^ Z.of_nat i)%Z).
Proof. cbn zeta. intros H. by apply attempts_every_wait. Qed.

(** [fetcher_wait_is_header_or_doubled_delay] after a rate limit with
    [Retry-After: 3] and one without: the second delay is 2000 ms. *)
Lemma fetcher_wait_is_header_or_doubled_delay_witness :
  Fetcher.waits
    (Fetcher.fetchWithExponentialBackoff MoreExamples.header_then_bare
       Examples.overview_url None None Fetcher.idle).2
  = [Int 3000; Int 2000]
  /\ exists e,
       MoreExamples.header_then_bare Examples.overview_url 1 = Throw e
       /\ Fetcher.rate_limited e = true
       /\ Fetcher.waits
            (Fetcher.fetchWithExponentialBackoff MoreExamples.header_then_bare
               Examples.overview_url None None Fetcher.idle).2 !! 1
          = Some (if truthy_header (Fetcher.retryAfter e)
                  then times 1000 (parseInt_string (default "" (Fetcher.retryAfter e)))
                  else Int (1000 * 2 ^ 1)%Z).
Proof.
  split; [reflexivity|].
  apply (fetcher_wait_is_header_or_doubled_delay MoreExamples.header_then_bare
           Examples.overview_url None None Fetcher.idle 1).
  cbv. lia.
Defined.

(** ** The books of a sweep *)

Section LedgerFacts.
Import Store Sweep.
Context (env : Env).

Lemma filter_accessible_spec items :
  match filter_accessible items with
  | Normal sites =>
      Forall (fun x => Api.product x <> None) items
      /\ sites = List.filter Ledger.tagged items
  | Throw e =>
      e = missing_product /\ Exists (fun x => Api.product x = None) items
  end.
Proof.
  induction items as [|x items IH]; cbn [filter_accessible List.filter].
  - split; [constructor | done].
  - unfold Ledger.tagged at 1.
    destruct (Api.product x) as [tags|] eqn:Hx.
    + destruct (filter_accessible items) as [kept|e].
      * destruct IH as [Hall ->]. split; [|done].
        constructor; [by rewrite Hx | done].
      * destruct IH as [-> Hex]. split; [done | by apply Exists_cons_tl].
    + split; [done | by apply Exists_cons_hd].
Qed.

Lemma logged_logs_grow siteId siteName msg level d :
  exists l, error_logs (logged env siteId siteName msg level d) = error_logs d ++ l.
Proof.
  rewrite logged_error_logs. destruct (faults env _); [|by eexists].
  exists []. by rewrite app_nil_r.
Qed.

Lemma collectTarget_ledger site s :
  let s2 := (collectTarget env site s).2 in
  (exists l, error_logs (db s2) = error_logs (db s) ++ l)
  /\ targetInfoNotes (stats s2) + targetErrors (stats s2)
     = targetInfoNotes (stats s) + targetErrors (stats s)
       + match history_api env (Api.id site) with
         | Throw _ => 1
         | Normal items =>
             match List.find (is_today env) (or_empty items) with
             | Some _ => 0
             | None => 1
             end
         end.
Proof.
  cbn zeta. rewrite collectTarget_eq.
  destruct (history_api env (Api.id site)) as [items|e];
    [destruct (List.find _ _)|]; cbn.
  - split; [exists []; by rewrite app_nil_r | lia].
  - split; [apply logged_logs_grow | lia].
  - split; [apply logged_logs_grow | lia].
Qed.

Lemma insertScore_ledger r s :
  let s' := (insertScore env r s).2 in
  (exists l, error_logs (db s') = error_logs (db s) ++ l)
  /\ targetInfoNotes (stats s') = targetInfoNotes (stats s)
  /\ targetErrors (stats s') = targetErrors (stats s)
  /\ inserted (stats s') + skippedExisting (stats s') + insertErrors (stats s')
     = S (inserted (stats s) + skippedExisting (stats s) + insertErrors (stats s))
  /\ (ada_scores (db s') = ada_scores (db s) /\ inserted (stats s') = inserted (stats s)
      \/ ada_scores (db s') = ada_scores (db s) ++ [r]
         /\ inserted (stats s') = S (inserted (stats s))).
Proof.
  cbn zeta.
  destruct (insertScore_cases env r s)
    as [(Hin & ->)|[(Hin & msg & Hf & ->)|[(Hin & Hf & Hc & ->)|(Hin & Hf & Hc & ->)]]];
    cbn; rewrite ?logged_scores; cbn.
  - split; [exists []; by rewrite app_nil_r|]. repeat split; try lia. by left.
  - split.
    { destruct (logged_logs_grow (Some (sid r)) (Some (name r)) msg None
                  (record_statement (InsertScore r) (db s))) as (l & ->).
      by exists l. }
    repeat split; try lia. by left.
  - split; [exists []; by rewrite app_nil_r|]. repeat split; try lia. by left.
  - split; [exists []; by rewrite app_nil_r|]. repeat split; try lia. by right.
Qed.

Lemma site_step_ledger s site :
  let s' := site_step env s site in
  (exists l, error_logs (db s') = error_logs (db s) ++ l)
  /\ inserted (stats s') + skippedExisting (stats s') + insertErrors (stats s')
     = inserted (stats s) + skippedExisting (stats s) + insertErrors (stats s)
       + (if scored env site then 1 else 0)
  /\ targetInfoNotes (stats s') + targetErrors (stats s')
     = targetInfoNotes (stats s) + targetErrors (stats s)
       + (if Ledger.target_missed env site then 1 else 0)
  /\ (ada_scores (db s') = ada_scores (db s) /\ inserted (stats s') = inserted (stats s)
      \/ exists scores tgt,
           overview_api env (Api.id site) = Normal (Some scores)
           /\ ada_scores (db s') = ada_scores (db s) ++ [build_record env site scores tgt]
           /\ inserted (stats s') = S (inserted (stats s))).
Proof.
  cbn zeta. unfold site_step, scored, Ledger.target_missed.
  rewrite processSite_eq. cbn zeta.
  destruct (collectTarget_frame env site (on_stats incr_processed s))
    as (Hsc & _ & _ & _ & _ & Hins & Hsk & Herr).
  destruct (collectTarget_ledger site (on_stats incr_processed s)) as ((l1 & Hl1) & Htg).
  cbn in Hsc, Hins, Hsk, Herr, Hl1, Htg.
  destruct (overview_api env (Api.id site)) as [[scores|]|e]; cbn [snd].
  - set (r := build_record env site scores _).
    set (s2 := (collectTarget env site _).2) in *.
    destruct (insertScore_ledger r s2) as ((l2 & Hl2) & Ht1 & Ht2 & Hsum & Hrow).
    split; [exists (l1 ++ l2); by rewrite Hl2, Hl1, app_assoc|].
    split; [lia|]. split.
    + rewrite Ht1, Ht2, Htg.
      destruct (history_api env (Api.id site)); [destruct (List.find _ _)|]; lia.
    + destruct Hrow as [[Ha Hi]|[Ha Hi]].
      * left. split; [by rewrite Ha | lia].
      * right. exists scores, (target_of (collectTarget env site (on_stats incr_processed s)).1).
        split; [done|]. split; [by rewrite Ha, Hsc | lia].
  - unfold warned. cbn. rewrite logged_scores.
    match goal with
    | |- context [error_logs (logged _ ?i ?n ?m ?lv ?d)] =>
        destruct (logged_logs_grow i n m lv d) as (l2 & Hl2)
    end.
    split; [exists (l1 ++ l2); by rewrite Hl2, Hl1, app_assoc|].
    split; [lia|]. split.
    + rewrite Htg.
      destruct (history_api env (Api.id site)); [destruct (List.find _ _)|]; lia.
    + left. split; [done | lia].
  - unfold warned. cbn. rewrite logged_scores.
    split; [apply logged_logs_grow|]. split; [lia|]. split; [lia|]. by left.
Qed.

Lemma after_sites_ledger sites : forall s,
  let s' := after_sites env sites s in
  exists extra logs,
    ada_scores (db s') = ada_scores (db s) ++ extra
    /\ inserted (stats s') = inserted (stats s) + length extra
    /\ Forall (Ledger.sweep_row env sites) extra
    /\ error_logs (db s') = error_logs (db s) ++ logs
    /\ inserted (stats s') + skippedExisting (stats s') + insertErrors (stats s')
       = inserted (stats s) + skippedExisting (stats s) + insertErrors (stats s)
         + count_scored env sites
    /\ targetInfoNotes (stats s') + targetErrors (stats s')
       = targetInfoNotes (stats s) + targetErrors (stats s)
         + length (List.filter (Ledger.target_missed env) sites).
Proof.
  induction sites as [|site sites IH]; intros s; cbn zeta.
  - exists [], []. cbn. rewrite !app_nil_r. repeat split; try done; lia.
  - rewrite after_sites_cons.
    destruct (site_step_ledger s site) as ((l1 & Hl1) & Hsum & Htg & Hrow).
    destruct (IH (site_step env s site))
      as (extra & l2 & Hada & Hins & Hall & Hlogs & Hsum2 & Htg2).
    assert (Hall' : Forall (Ledger.sweep_row env (site :: sites)) extra).
    { eapply Forall_impl; [exact Hall|].
      intros r (x & sc & tgt & Hx & Hov & Hr). exists x, sc, tgt.
      split; [by apply elem_of_cons; right | done]. }
    assert (Hcs : count_scored env (site :: sites)
                  = (if scored env site then 1 else 0) + count_scored env sites).
    { unfold count_scored. cbn [List.filter]. by destruct (scored env site). }
    assert (Htm : length (List.filter (Ledger.target_missed env) (site :: sites))
                  = (if Ledger.target_missed env site then 1 else 0)
                    + length (List.filter (Ledger.target_missed env) sites)).
    { cbn [List.filter]. by destruct (Ledger.target_missed env site). }
    destruct Hrow as [[Ha Hi]|(sc & tgt & Hov & Ha & Hi)].
    + exists extra, (l1 ++ l2). rewrite Hada, Ha, Hlogs, Hl1, app_assoc.
      repeat split; try done; lia.
    + exists (build_record env site sc tgt :: extra), (l1 ++ l2).
      rewrite Hada, Ha, Hlogs, Hl1, <- !app_assoc. cbn [app length].
      repeat split; try done; try lia.
      constructor; [|done]. exists site, sc, tgt.
      split; [by apply elem_of_cons; left | done].
Qed.

(** What a sweep that gets to its site loop leaves behind. *)
Lemma sweep_ledger db0 :
  let run := fetchAndInsertRecords env db0 in
  exists extra logs,
    ada_scores run.2 = ada_scores db0 ++ extra
    /\ error_logs run.2 = error_logs db0 ++ logs
    /\ Forall (Ledger.sweep_row env (Ledger.listed env)) extra
    /\ match run.1 with
       | Throw _ => extra = []
       | Normal st =>
           inserted st = length extra
           /\ sitesPulled st = length (Ledger.listed env)
           /\ processed st = length (Ledger.listed env)
           /\ inserted st + skippedExisting st + insertErrors st
              = count_scored env (Ledger.listed env)
           /\ targetInfoNotes st + targetErrors st
              = length (List.filter (Ledger.target_missed env) (Ledger.listed env))
       end.
Proof.
  cbn zeta. rewrite fetchAndInsertRecords_eq. cbn zeta. unfold Ledger.listed.
  destruct (faults env _) as [msg|].
  { exists [], []. cbn. by rewrite !app_nil_r. }
  destruct (sites_api env) as [items|e].
  2:{ cbn. unfold reported. rewrite logged_scores.
      destruct (logged_logs_grow None (Some "General API Error") (message e) None
                  (record_statement SelectKeys db0)) as (l & Hl).
      exists [], l. cbn in Hl. by rewrite Hl, app_nil_r. }
  destruct (filter_accessible (or_empty items)) as [sites|e].
  2:{ cbn. unfold reported. rewrite logged_scores.
      destruct (logged_logs_grow None (Some "General API Error") (message e) None
                  (record_statement SelectKeys db0)) as (l & Hl).
      exists [], l. cbn in Hl. by rewrite Hl, app_nil_r. }
  set (init := {| db := _; existingRecords := _; stats := _ |}).
  destruct (after_sites_ledger sites init)
    as (extra & logs & Hada & Hins & Hall & Hlogs & Hsum & Htg).
  destruct (after_sites_frame env sites init) as (_ & _ & _ & _ & Hpu & Hpr).
  exists extra, logs. cbn [fst snd]. cbn in Hada, Hins, Hlogs, Hsum, Htg, Hpu, Hpr.
  repeat split; try done; lia.
Qed.

Lemma listed_tagged site : site ∈ Ledger.listed env -> Ledger.tagged site = true.
Proof.
  unfold Ledger.listed. destruct (sites_api env) as [items|e]; [|by intros ?%elem_of_nil].
  pose proof (filter_accessible_spec (or_empty items)) as Hspec.
  destruct (filter_accessible (or_empty items)) as [sites|e]; [|by intros ?%elem_of_nil].
  destruct Hspec as [_ ->]. rewrite list_elem_of_In, filter_In. by intros [_ ?].
Qed.

End LedgerFacts.

(** X3. When a sweep returns its statistics, the number of rows of
    [ada_scores] has grown by exactly the [inserted] count, whatever the
    remote side and the database did: the "rows before" and "rows after"
    that the manual trigger reports differ by [inserted]. *)
Theorem sweep_inserted_is_row_growth
    (env : Sweep.Env) (db0 : Store.Db) (st : Sweep.Stats) :
  (Sweep.fetchAndInsertRecords env db0).1 = Normal st ->
  length (Store.ada_scores (Sweep.fetchAndInsertRecords env db0).2)
  = length (Store.ada_scores db0) + Sweep.inserted st.
Proof.
  intros Hrun.
  destruct (sweep_ledger env db0) as (extra & logs & Hada & _ & _ & Hend).
  cbn zeta in Hend. rewrite Hrun in Hend. destruct Hend as (Hins & _).
  rewrite Hada, length_app. lia.
Qed.

(** [sweep_inserted_is_row_growth] on three sites of which one already has
    its row: 1 row before, 2 inserted, 3 rows after. *)
Lemma sweep_inserted_is_row_growth_witness :
  length (Store.ada_scores
            (Sweep.fetchAndInsertRecords Examples.three_sites Examples.db_with_alpha).2)
  = 1 + 2.
Proof.
  apply (sweep_inserted_is_row_growth Examples.three_sites Examples.db_with_alpha
           {| Sweep.sitesPulled := 3; Sweep.processed := 3; Sweep.inserted := 2;
              Sweep.skippedExisting := 1; Sweep.targetInfoNotes := 0;
              Sweep.targetErrors := 0; Sweep.insertErrors := 0 |}).
  vm_compute. reflexivity.
Defined.

(** X4. The statistics a sweep returns add up, whatever the remote side
    and the database did: every listed accessibility site is counted as
    pulled and as processed; every site whose overview call returned scores
    is counted exactly once as inserted, skipped-existing or insert-error,
    and no other site is; and [targetInfoNotes + targetErrors] is the
    number of sites whose overview call was answered but for which no
    target for today was found. *)
Theorem sweep_statistics_add_up
    (env : Sweep.Env) (db0 : Store.Db) (st : Sweep.Stats) :
  (Sweep.fetchAndInsertRecords env db0).1 = Normal st ->
  Sweep.sitesPulled st = length (Ledger.listed env)
  /\ Sweep.processed st = length (Ledger.listed env)
  /\ Sweep.inserted st + Sweep.skippedExisting st + Sweep.insertErrors st
     = Sweep.count_scored env (Ledger.listed env)
  /\ Sweep.targetInfoNotes st + Sweep.targetErrors st
     = length (List.filter (Ledger.target_missed env) (Ledger.listed env)).
Proof.
  intros Hrun.
  destruct (sweep_ledger env db0) as (extra & logs & _ & _ & _ & Hend).
  cbn zeta in Hend. rewrite Hrun in Hend. by destruct Hend as (_ & ? & ? & ? & ?).
Qed.

(** [sweep_statistics_add_up] on three sites of which the second fails and
    none has a target history: 2 = 2 + 0 + 0 and 2 = 0 + 2. *)
Lemma sweep_statistics_add_up_witness :
  exists st,
    (Sweep.fetchAndInsertRecords Examples.beta_fails Examples.empty_db).1 = Normal st
    /\ Sweep.sitesPulled st = 3
    /\ Sweep.processed st = 3
    /\ Sweep.inserted st + Sweep.skippedExisting st + Sweep.insertErrors st = 2
    /\ Sweep.targetInfoNotes st + Sweep.targetErrors st = 2.
Proof.
  eexists. split; [vm_compute; reflexivity|].
  apply (sweep_statistics_add_up Examples.beta_fails Examples.empty_db).
  vm_compute. reflexivity.
Defined.

(** X5. A sweep only appends. Whatever happens, the rows that were in
    [ada_scores] and the entries that were in [error_logs] are still there,
    unchanged and in the same order, followed by what the sweep added.
    Every added row is the record built for a listed site tagged
    [accessibility] whose overview call returned scores, dated today; and
    a sweep that throws has added no row. *)
Theorem sweep_only_appends (env : Sweep.Env) (db0 : Store.Db) :
  let run := Sweep.fetchAndInsertRecords env db0 in
  exists extra logs,
    Store.ada_scores run.2 = Store.ada_scores db0 ++ extra
    /\ Store.error_logs run.2 = Store.error_logs db0 ++ logs
    /\ (forall r, r ∈ extra ->
          Store.date r = Sweep.today env
          /\ exists site scores tgt,
               site ∈ Ledger.listed env
               /\ Ledger.tagged site = true
               /\ Sweep.overview_api env (Api.id site) = Normal (Some scores)
               /\ r = Sweep.build_record env site scores tgt)
    /\ (is_normal run.1 = false -> extra = []).
Proof.
  cbn zeta.
  destruct (sweep_ledger env db0) as (extra & logs & Hada & Hlogs & Hall & Hend).
  exists extra, logs. split; [done|]. split; [done|]. split.
  - intros r Hr. rewrite Forall_forall in Hall.
    destruct (Hall r Hr) as (site & sc & tgt & Hin & Hov & ->).
    split; [reflexivity|]. exists site, sc, tgt.
    split; [done|]. split; [by apply (listed_tagged env) | done].
  - cbn zeta in Hend.
    destruct (Sweep.fetchAndInsertRecords env db0).1; [discriminate | done].
Qed.

(** ** The writer *)

(** X6. What [insertScore] returns tells what it did, whatever the
    database does. It returns [true] exactly when it appended the record
    to [ada_scores]; it then also put the record's key into the in-memory
    set and counted one insert. When it returns [false] the table and the
    set are as they were, and exactly one of [skippedExisting] and
    [insertErrors] went up by one. It never throws. *)
Theorem insertScore_result_tells_the_write
    (env : Sweep.Env) (r : Store.ScoreRecord) (s : Sweep.Run) :
  let run := Sweep.insertScore env r s in
  let key := Sweep.record_key (Store.sid r) (Store.date r) in
  (run.1 = Normal true
   /\ Store.ada_scores (Sweep.db run.2) = Store.ada_scores (Sweep.db s) ++ [r]
   /\ Sweep.existingRecords run.2 = {[ key ]} ∪ Sweep.existingRecords s
   /\ Sweep.stats run.2 = Sweep.incr_inserted (Sweep.stats s))
  \/ (run.1 = Normal false
      /\ Store.ada_scores (Sweep.db run.2) = Store.ada_scores (Sweep.db s)
      /\ Sweep.existingRecords run.2 = Sweep.existingRecords s
      /\ (Sweep.stats run.2 = Sweep.incr_skippedExisting (Sweep.stats s)
          \/ Sweep.stats run.2 = Sweep.incr_insertErrors (Sweep.stats s))).
Proof.
  cbn zeta.
  destruct (decide (Sweep.record_key (Store.sid r) (Store.date r)
                      ∈ Sweep.existingRecords s)) as [Hin|Hin].
  { rewrite insertScore_known by done. right. cbn. auto. }
  destruct (Sweep.faults env (length (Store.statements (Sweep.db s)))) as [msg|] eqn:Hf.
  { rewrite (insertScore_refused env _ _ msg) by done. right. cbn.
    rewrite logged_scores. cbn. auto. }
  destruct (existsb (Store.same_key (Store.sid r) (Store.date r))
              (Store.ada_scores (Sweep.db s))) eqn:Hex.
  - rewrite insertScore_conflict by done. right. cbn. auto.
  - rewrite insertScore_new by done. left. cbn. auto.
Qed.

(** X7. Once [insertScore] has returned [true] for a record, a further
    call for the same site and date, with whatever scores, is answered
    from the in-memory set: it returns [false], counts one
    [skippedExisting], and sends nothing to the database. *)
Theorem insertScore_repeat_is_answered_from_memory
    (env : Sweep.Env) (r r' : Store.ScoreRecord) (s : Sweep.Run) :
  (Sweep.insertScore env r s).1 = Normal true ->
  Store.sid r' = Store.sid r ->
  Store.date r' = Store.date r ->
  Sweep.insertScore env r' (Sweep.insertScore env r s).2
  = (Normal false,
     Sweep.on_stats Sweep.incr_skippedExisting (Sweep.insertScore env r s).2).
Proof.
  intros Hrun Hsid Hdate. apply insertScore_known. rewrite Hsid, Hdate.
  revert Hrun.
  destruct (decide (Sweep.record_key (Store.sid r) (Store.date r)
                      ∈ Sweep.existingRecords s)) as [Hin|Hin].
  { by rewrite insertScore_known. }
  destruct (Sweep.faults env (length (Store.statements (Sweep.db s)))) as [msg|] eqn:Hf.
  { by rewrite (insertScore_refused env _ _ msg). }
  destruct (existsb (Store.same_key (Store.sid r) (Store.date r))
              (Store.ada_scores (Sweep.db s))) eqn:Hex.
  - by rewrite insertScore_conflict.
  - rewrite insertScore_new by done. intros _. cbn. set_solver.
Qed.

(** [insertScore_repeat_is_answered_from_memory]: the row of one site
    inserted into an empty store, then offered again with another total. *)
Lemma insertScore_repeat_is_answered_from_memory_witness :
  let s1 := (Sweep.insertScore Examples.three_sites Examples.alpha_row
               Examples.fresh_run).2 in
  Sweep.insertScore Examples.three_sites
    (Store.set_target (Int 80) Examples.alpha_row) s1
  = (Normal false, Sweep.on_stats Sweep.incr_skippedExisting s1).
Proof.
  cbn zeta.
  apply (insertScore_repeat_is_answered_from_memory Examples.three_sites
           Examples.alpha_row (Store.set_target (Int 80) Examples.alpha_row)
           Examples.fresh_run); reflexivity.
Defined.

(** ** The directory listing *)

(** X8. One directory item without a [product] field, tagged sites before
    it or not, ends the sweep before any site is processed: the sweep
    throws the [TypeError] of [site.product.includes], [ada_scores] is as
    it was, and the only requests the database has received are the load
    of the existing keys and one error-log entry named
    [General API Error], with a null site id and level [ERROR]. *)
Theorem item_without_product_aborts_sweep
    (env : Sweep.Env) (db0 : Store.Db) (items : option (list Api.Site)) :
  Sweep.sites_api env = Normal items ->
  Exists (fun site => Api.product site = None) (Sweep.or_empty items) ->
  Sweep.faults env (length (Store.statements db0)) = None ->
  let run := Sweep.fetchAndInsertRecords env db0 in
  run.1 = Throw Sweep.missing_product
  /\ Store.ada_scores run.2 = Store.ada_scores db0
  /\ Store.statements run.2
     = Store.statements db0
       ++ [Store.SelectKeys;
           Store.InsertErrorLog
             {| Store.log_site_id := None;
                Store.log_site_name := Some "General API Error";
                Store.log_message := message Sweep.missing_product;
                Store.log_level := "ERROR" |}].
Proof.
  intros Hdir Hex Hf. cbn zeta. rewrite fetchAndInsertRecords_eq. cbn zeta.
  rewrite Hf, Hdir.
  pose proof (filter_accessible_spec (Sweep.or_empty items)) as Hspec.
  destruct (Sweep.filter_accessible (Sweep.or_empty items)) as [sites|e].
  { destruct Hspec as [Hall _]. rewrite Forall_forall in Hall.
    apply Exists_exists in Hex as (x & Hx & Hnone). by destruct (Hall x Hx). }
  destruct Hspec as [-> _]. cbn [fst snd]. unfold Sweep.reported.
  rewrite logged_scores, logged_statements. cbn. by rewrite <- app_assoc.
Qed.

(** [item_without_product_aborts_sweep]: the third directory item has no
    [product]. *)
Lemma item_without_product_aborts_sweep_witness :
  (Sweep.fetchAndInsertRecords MoreExamples.directory_with_delta Examples.empty_db).1
  = Throw Sweep.missing_product.
Proof.
  apply (item_without_product_aborts_sweep MoreExamples.directory_with_delta
           Examples.empty_db (Some [Examples.alpha; Examples.beta; MoreExamples.delta])).
  - reflexivity.
  - cbn. do 2 apply Exists_cons_tl. by apply Exists_cons_hd.
  - reflexivity.
Defined.

(** X9. The sweep's site filter and the backfill's select the same sites
    in the same order whenever the sweep's returns; the sweep's throws
    exactly when some item has no [product], an item the backfill's filter
    leaves out instead. *)
Theorem sweep_filter_is_backfill_filter_or_throws (items : option (list Api.Site)) :
  match Sweep.filter_accessible (Sweep.or_empty items) with
  | Normal sites =>
      sites = Script.accessible_sites items
      /\ Forall (fun site => Api.product site <> None) (Sweep.or_empty items)
  | Throw e =>
      e = Sweep.missing_product
      /\ Exists (fun site => Api.product site = None) (Sweep.or_empty items)
      /\ Forall (fun site => Api.product site <> None) (Script.accessible_sites items)
  end.
Proof.
  pose proof (filter_accessible_spec (Sweep.or_empty items)) as Hspec.
  destruct (Sweep.filter_accessible (Sweep.or_empty items)) as [sites|e].
  - destruct Hspec as [Hall ->]. done.
  - destruct Hspec as [-> Hex]. split; [done|]. split; [done|].
    apply Forall_forall. intros x Hx. unfold Script.accessible_sites in Hx.
    apply list_elem_of_In, filter_In in Hx as [_ Hx]. unfold Script.accessible in Hx.
    by destruct (Api.product x).
Qed.

(** ** The batches of the site loop *)

Lemma batches_from_lookup sites fuel : forall i k,
  length sites <= i + 20 * fuel ->
  Sweep.batches_from fuel i sites !! k
  = if (i + 20 * k <? length sites)%nat
    then Some (take 20 (drop (i + 20 * k) sites)) else None.
Proof.
  induction fuel as [|fuel IH]; intros i k Hlen; cbn [Sweep.batches_from].
  - rewrite lookup_nil. destruct (Nat.ltb_spec (i + 20 * k) (length sites)); [lia|done].
  - destruct (Nat.ltb_spec i (length sites)) as [Hi|Hi].
    + destruct k as [|k].
      * cbn [lookup list_lookup]. rewrite Nat.mul_0_r, Nat.add_0_r.
        destruct (Nat.ltb_spec i (length sites)); [done|lia].
      * replace (i + 20 * S k) with (i + 20 + 20 * k) by lia.
        rewrite <- (IH (i + 20) k) by lia. reflexivity.     + rewrite lookup_nil. destruct (Nat.ltb_spec (i + 20 * k) (length sites)); [lia|done].
Qed.

(** X10. The outer loop cuts the site list into consecutive batches: the
    [k]-th batch is the slice of up to 20 sites starting at index [20 k];
    no batch is empty, every batch but the last has exactly 20 sites, and
    the batches put together are the site list. *)
Theorem batches_are_consecutive_slices (sites : list Api.Site) :
  concat (Sweep.batches sites) = sites
  /\ forall k,
       match Sweep.batches sites !! k with
       | Some batch =>
           batch = take 20 (drop (20 * k) sites)
           /\ 0 < length batch <= 20
           /\ (is_Some (Sweep.batches sites !! S k) -> length batch = 20)
       | None => length sites <= 20 * k
       end.
Proof.
  split; [apply batches_concat|].
  intros k. unfold Sweep.batches. rewrite !batches_from_lookup by lia. cbn [Nat.add].
  destruct (Nat.ltb_spec (20 * k) (length sites)) as [Hk|Hk]; [|done].
  split; [done|]. rewrite length_take, length_drop. split; [lia|].
  destruct (Nat.ltb_spec (20 * S k) (length sites)) as [Hk'|Hk']; [lia|].
  by intros [? ?].
Qed.

(** ** The site loop of the backfill *)

Section BackfillFacts.
Import Store Backfill.
Context (env : Backfill.Env).

Lemma processSite_outcome dateStr site b :
  exists b',
    processSite env dateStr site b = (Normal tt, b')
    /\ if approved env site
       then (exists u, b' = push_update u b /\ Script.update_of env dateStr [site] u)
            \/ (exists m, b' = push_miss m b /\ Script.miss_of env dateStr [site] m)
       else b' = b.
Proof.
  unfold processSite. destruct (approved env site) eqn:Happ; cbn [negb].
  2:{ by exists b. }
  assert (Hin : site ∈ [site]) by set_solver.
  unfold try_catch, bind, modify.
  destruct (history_api env (Api.id site)) as [items|e].
  2:{ eexists. split; [reflexivity|]. right. eexists. split; [reflexivity|].
      split; [done|]. by exists site. }
  destruct (find_entry env dateStr (default [] items)) as [[entry|]|e].
  - destruct (isNaN (parseFloat (Api.site_target_percentage entry))) eqn:Hnan; cbn [negb].
    + eexists. split; [reflexivity|]. right. eexists. split; [reflexivity|].
      split; [done|]. by exists site.
    + eexists. split; [reflexivity|]. left. eexists. split; [reflexivity|].
      split; [done|]. split; [done|]. by exists site.
  - eexists. split; [reflexivity|]. right. eexists. split; [reflexivity|].
    split; [done|]. by exists site.
  - eexists. split; [reflexivity|]. right. eexists. split; [reflexivity|].
    split; [done|]. by exists site.
Qed.

Lemma update_of_mono dateStr sites sites' u :
  sites ⊆ sites' -> Script.update_of env dateStr sites u -> Script.update_of env dateStr sites' u.
Proof.
  intros Hsub (Hd & Hn & site & Hin & Ha & Hs). repeat split; try done.
  exists site. split; [by apply Hsub | done].
Qed.

Lemma miss_of_mono dateStr sites sites' m :
  sites ⊆ sites' -> Script.miss_of env dateStr sites m -> Script.miss_of env dateStr sites' m.
Proof.
  intros Hsub (Hd & site & Hin & Ha & Hs). split; [done|].
  exists site. split; [by apply Hsub | done].
Qed.

Lemma site_loop_outcome dateStr sites : forall b,
  exists us ms,
    for_of sites (processSite env dateStr) b
    = (Normal tt, {| updates := updates b ++ us;
                     missingTargetLogs := missingTargetLogs b ++ ms |})
    /\ length us + length ms = length (List.filter (approved env) sites)
    /\ Forall (Script.update_of env dateStr sites) us
    /\ Forall (Script.miss_of env dateStr sites) ms.
Proof.
  induction sites as [|site sites IH]; intros b; cbn [for_of List.filter].
  - exists [], []. rewrite !app_nil_r. by destruct b.
  - unfold bind.
    destruct (processSite_outcome dateStr site b) as (b' & -> & Hb').
    destruct (IH b') as (us & ms & -> & Hlen & Hus & Hms).
    assert (Hsub : sites ⊆ site :: sites) by set_solver.
    assert (Hone : [site] ⊆ site :: sites).
    { intros x Hx. apply list_elem_of_singleton in Hx. subst x. by left. }
    pose proof (Forall_impl _ _ _ Hus (fun u => update_of_mono dateStr _ _ u Hsub)) as Hus'.
    pose proof (Forall_impl _ _ _ Hms (fun m => miss_of_mono dateStr _ _ m Hsub)) as Hms'.
    destruct (approved env site).
    + destruct Hb' as [(u & -> & Hu)|(m & -> & Hm)].
      * exists (u :: us), ms. cbn. rewrite <- app_assoc. cbn.
        split; [done|]. split; [lia|]. split; [|done].
        constructor; [by eapply update_of_mono | done].
      * exists us, (m :: ms). cbn. rewrite <- app_assoc. cbn.
        split; [done|]. split; [lia|]. split; [done|].
        constructor; [by eapply miss_of_mono | done].
    + subst b'. exists us, ms. done.
Qed.

(** One request of a batch update: accepted or refused, the loop goes
    on. *)
Lemma update_body_run u db :
  try_catch (patchTargetIfMissing env (u_sid u) (u_date u) (u_score u) ;;; ret tt)
    (fun err => ret tt) db
  = (Normal tt,
     (pool_query (faults env) (UpdateTarget (u_score u) (u_sid u) (u_date u)) db).2).
Proof.
  unfold try_catch, patchTargetIfMissing, bind, ret.
  by destruct (pool_query (faults env) _ db) as [[res|e] db1].
Qed.

Lemma update_loop_run us : forall db,
  exists db',
    for_of us
      (fun u => try_catch
                  (patchTargetIfMissing env (u_sid u) (u_date u) (u_score u) ;;; ret tt)
                  (fun err => ret tt)) db
    = (Normal tt, db')
    /\ statements db'
       = statements db
         ++ map (fun u => UpdateTarget (u_score u) (u_sid u) (u_date u)) us
    /\ error_logs db' = error_logs db.
Proof.
  induction us as [|u us IH]; intros db; cbn [for_of map].
  - exists db. by rewrite app_nil_r.
  - unfold bind at 1. rewrite update_body_run.
    destruct (IH (pool_query (faults env)
                    (UpdateTarget (u_score u) (u_sid u) (u_date u)) db).2)
      as (db' & -> & Hst' & Hlog').
    exists db'. rewrite Hst', Hlog', pool_query_statements, <- app_assoc.
    split; [done|]. split; [done|].
    unfold pool_query. by destruct (faults env _).
Qed.

Lemma batchUpdate_sends_all us d :
  match us with
  | [] => batchUpdate env us d = (Normal tt, d)
  | _ :: _ =>
      match faults env (length (statements d)) with
      | Some msg =>
          batchUpdate env us d
          = (Throw (DatabaseError msg), record_statement Connect d)
      | None =>
          (batchUpdate env us d).1 = Normal tt
          /\ statements (batchUpdate env us d).2
             = statements d
               ++ Connect :: map (fun u => UpdateTarget (u_score u) (u_sid u) (u_date u)) us
          /\ error_logs (batchUpdate env us d).2 = error_logs d
      end
  end.
Proof.
  destruct us as [|u us]; [done|].
  assert (Hc : pool_query (faults env) Connect d
               = match faults env (length (statements d)) with
                 | Some msg => (Throw (DatabaseError msg), record_statement Connect d)
                 | None => (Normal {| rows := []; rowCount := 0 |},
                            record_statement Connect d)
                 end).
  { unfold pool_query. by destruct (faults env _). }
  destruct (update_loop_run (u :: us) (record_statement Connect d))
    as (db' & Hloop & Hst & Hlog).
  destruct (faults env (length (statements d))) as [msg|].
  - unfold batchUpdate, bind. by rewrite Hc.
  - assert (Hrun : batchUpdate env (u :: us) d = (Normal tt, db')).
    { unfold batchUpdate, bind at 1. by rewrite Hc. }
    rewrite Hrun. cbn [fst snd]. rewrite Hst, Hlog. cbn. by rewrite <- app_assoc.
Qed.

Lemma batchUpdate_cases us d :
  (batchUpdate env us d = (Normal tt, d) /\ us = [])
  \/ (exists msg,
        batchUpdate env us d = (Throw (DatabaseError msg), record_statement Connect d))
  \/ batchUpdate env us d
     = for_of us
         (fun u => try_catch
                     (patchTargetIfMissing env (u_sid u) (u_date u) (u_score u) ;;; ret tt)
                     (fun err => ret tt))
         (record_statement Connect d).
Proof.
  destruct us as [|u us]; [by left|]. right.
  assert (Hc : pool_query (faults env) Connect d
               = match faults env (length (statements d)) with
                 | Some msg => (Throw (DatabaseError msg), record_statement Connect d)
                 | None => (Normal {| rows := []; rowCount := 0 |},
                            record_statement Connect d)
                 end).
  { unfold pool_query. by destruct (faults env _). }
  unfold batchUpdate. unfold bind at 1 3. rewrite Hc.
  destruct (faults env (length (statements d))) as [msg|]; [left; by exists msg|].
  by right.
Qed.

End BackfillFacts.

(** X11. One pass of the backfill's site loop over a batch, for one date,
    never throws, whatever the history calls do, and leaves exactly one
    entry for each approved site of the batch and none for the others:
    either an update or a line of the missing-target log. Every update is
    for the requested date and carries a score that is a number; what was
    in the two arrays before is kept, in front. *)
Theorem backfill_site_loop_accounts_for_every_site
    (env : Backfill.Env) (dateStr : string) (sites : list Api.Site)
    (b : Backfill.Batch) :
  exists us ms,
    for_of sites (Backfill.processSite env dateStr) b
    = (Normal tt, {| Backfill.updates := Backfill.updates b ++ us;
                     Backfill.missingTargetLogs := Backfill.missingTargetLogs b ++ ms |})
    /\ length us + length ms = length (List.filter (Backfill.approved env) sites)
    /\ (forall u, u ∈ us ->
          Backfill.u_date u = dateStr
          /\ isNaN (Backfill.u_score u) = false
          /\ exists site, site ∈ sites /\ Backfill.approved env site = true
               /\ Backfill.u_sid u = Api.id site)
    /\ (forall m, m ∈ ms ->
          Backfill.m_date m = dateStr
          /\ exists site, site ∈ sites /\ Backfill.approved env site = true
               /\ Backfill.m_sid m = Api.id site
               /\ Backfill.m_name m = Api.site_name site).
Proof.
  destruct (site_loop_outcome env dateStr sites b) as (us & ms & Hrun & Hlen & Hus & Hms).
  exists us, ms. rewrite Forall_forall in Hus. rewrite Forall_forall in Hms.
  split; [done|]. split; [done|]. split.
  - intros u Hu. exact (Hus u Hu).
  - intros m Hm. exact (Hms m Hm).
Qed.

(** X12. A batch update with nothing to update sends nothing to the
    database. Otherwise it asks for a connection; if that is refused the
    failure is thrown and no UPDATE is sent; if it is granted, every
    update of the batch is sent exactly once, in order, whether or not
    earlier ones were refused, and the batch update returns normally. It
    never writes to the error log. *)
Theorem batchUpdate_sends_each_update_once
    (env : Backfill.Env) (us : list Backfill.Update) (db : Store.Db) :
  let run := Backfill.batchUpdate env us db in
  match us with
  | [] => run = (Normal tt, db)
  | _ :: _ =>
      match Backfill.faults env (length (Store.statements db)) with
      | Some msg =>
          run = (Throw (DatabaseError msg), Store.record_statement Store.Connect db)
      | None =>
          run.1 = Normal tt
          /\ Store.statements run.2
             = Store.statements db
               ++ Store.Connect
                  :: map (fun u => Store.UpdateTarget (Backfill.u_score u)
                                     (Backfill.u_sid u) (Backfill.u_date u)) us
          /\ Store.error_logs run.2 = Store.error_logs db
      end
  end.
Proof. apply batchUpdate_sends_all. Qed.

(** ** What a batch update leaves in the table *)

Section SettledFacts.
Import Store Backfill.

Lemma settled_nil r : Script.settled [] r = r.
Proof. unfold Script.settled. by destruct (site_target_score r). Qed.

Lemma settled_cons u us r :
  Script.settled us (if needs_target (u_sid u) (u_date u) r
                     then set_target (u_score u) r else r)
  = Script.settled (u :: us) r.
Proof.
  unfold Script.settled, Script.first_update, needs_target. cbn [List.find].
  destruct (same_key (u_sid u) (u_date u) r) eqn:Hk;
    destruct (site_target_score r) eqn:Ht; cbn [andb]; rewrite ?Ht; try done.
Qed.

Lemma update_loop_scores env us : forall db,
  (forall n, faults env n = None) ->
  ada_scores
    (for_of us
       (fun u => try_catch
                   (patchTargetIfMissing env (u_sid u) (u_date u) (u_score u) ;;; ret tt)
                   (fun err => ret tt)) db).2
  = map (Script.settled us) (ada_scores db).
Proof.
  induction us as [|u us IH]; intros db Hok; cbn [for_of].
  - cbn. rewrite <- (map_id (ada_scores db)) at 1. apply map_ext. intros r.
    by rewrite settled_nil.
  - unfold bind at 1. rewrite update_body_run. rewrite IH by done.
    rewrite pool_query_scores, Hok. unfold patch_rows. rewrite map_map.
    apply map_ext. intros r. apply settled_cons.
Qed.

Lemma find_unique_perm {A} (P : A -> bool) (l l' : list A) :
  l ≡ₚ l' ->
  (forall x y, x ∈ l -> y ∈ l -> P x = true -> P y = true -> x = y) ->
  List.find P l = List.find P l'.
Proof.
  induction 1 as [|x l l' Hperm IH|x y l|l l' l'' H1 IH1 H2 IH2]; intros Huniq.
  - done.
  - cbn [List.find]. destruct (P x); [done|]. apply IH.
    intros a b Ha Hb. apply Huniq; by right.
  - cbn [List.find]. destruct (P x) eqn:Hx, (P y) eqn:Hy; try done.
    f_equal. apply Huniq; [left | right; left | done | done].
  - rewrite IH1 by done. apply IH2. intros a b Ha Hb.
    apply Huniq; by rewrite H1.
Qed.

Lemma key_injective_on us u u' :
  NoDup (map Script.update_key us) ->
  u ∈ us -> u' ∈ us -> Script.update_key u = Script.update_key u' -> u = u'.
Proof.
  induction us as [|x us IH]; cbn [map]; intros Hnd Hu Hu' Hk.
  - by apply elem_of_nil in Hu.
  - apply NoDup_cons in Hnd as [Hx Hnd].
    apply elem_of_cons in Hu as [->|Hu]; apply elem_of_cons in Hu' as [->|Hu'].
    + done.
    + destruct Hx. rewrite Hk. by apply (list_elem_of_fmap_2 Script.update_key).
    + destruct Hx. rewrite <- Hk. by apply (list_elem_of_fmap_2 Script.update_key).
    + by apply IH.
Qed.

Lemma settled_perm us us' r :
  us ≡ₚ us' -> NoDup (map Script.update_key us) ->
  Script.settled us r = Script.settled us' r.
Proof.
  intros Hperm Hnd. unfold Script.settled, Script.first_update.
  rewrite (find_unique_perm _ us us' Hperm); [done|].
  intros u u' Hu Hu' Hk Hk'. apply (key_injective_on us); try done.
  apply same_key_spec in Hk, Hk'. unfold Script.update_key. congruence.
Qed.

End SettledFacts.

(** X13. When the database accepts every request, a batch update leaves
    each row of [ada_scores] as follows: a row whose target is not null is
    as it was; a row whose target is null receives the score of the first
    update of the batch that is for its site and date, later ones for the
    same site and date having no effect; and a row no update is for is as
    it was. *)
Theorem batchUpdate_first_update_wins
    (env : Backfill.Env) (us : list Backfill.Update) (db : Store.Db) :
  (forall n, Backfill.faults env n = None) ->
  Store.ada_scores (Backfill.batchUpdate env us db).2
  = map (Script.settled us) (Store.ada_scores db).
Proof.
  intros Hok. destruct us as [|u us].
  - cbn. rewrite <- (map_id (Store.ada_scores db)) at 1. apply map_ext. intros r.
    by rewrite settled_nil.
  - unfold Backfill.batchUpdate, bind at 1, Store.pool_query. rewrite Hok.
    cbn [Store.execute]. by rewrite update_loop_scores.
Qed.

(** [batchUpdate_first_update_wins]: two updates for the same site and
    date, 81 before 99, on a table where that row has no target yet and
    the row of the day before has one. *)
Lemma batchUpdate_first_update_wins_witness :
  Store.ada_scores
    (Backfill.batchUpdate Examples.utc
       [MoreExamples.update_beta "2025-06-15" (Int 81);
        MoreExamples.update_beta "2025-06-15" (Int 99)] Examples.db_two_days).2
  = [Examples.beta_row "2025-06-14" (Some (Decimal 800 (-1)));
     Examples.beta_row "2025-06-15" (Some (Int 81))].
Proof.
  rewrite (batchUpdate_first_update_wins Examples.utc); [|reflexivity].
  vm_compute. reflexivity.
Defined.

(** X14. When the database accepts every request and no two updates of a
    batch are for the same site and date, the table a batch update leaves
    does not depend on the order of the updates. *)
Theorem batchUpdate_order_is_immaterial
    (env : Backfill.Env) (us us' : list Backfill.Update) (db : Store.Db) :
  (forall n, Backfill.faults env n = None) ->
  NoDup (map Script.update_key us) ->
  us ≡ₚ us' ->
  Store.ada_scores (Backfill.batchUpdate env us db).2
  = Store.ada_scores (Backfill.batchUpdate env us' db).2.
Proof.
  intros Hok Hnd Hperm.
  assert (Hrun : forall l, Store.ada_scores (Backfill.batchUpdate env l db).2
                           = map (Script.settled l) (Store.ada_scores db)).
  { intros [|u l'].
    - cbn. rewrite <- (map_id (Store.ada_scores db)) at 1. apply map_ext. intros r.
      by rewrite settled_nil.
    - unfold Backfill.batchUpdate, bind at 1, Store.pool_query. rewrite Hok.
      cbn [Store.execute]. by rewrite update_loop_scores. }
  rewrite !Hrun. apply map_ext. intros r. by apply settled_perm.
Qed.

(** [batchUpdate_order_is_immaterial]: the updates of two days, in either
    order. *)
Lemma batchUpdate_order_is_immaterial_witness :
  Store.ada_scores
    (Backfill.batchUpdate Examples.utc
       [MoreExamples.update_beta "2025-06-14" (Int 70);
        MoreExamples.update_beta "2025-06-15" (Int 81)] Examples.db_two_days).2
  = Store.ada_scores
      (Backfill.batchUpdate Examples.utc
         [MoreExamples.update_beta "2025-06-15" (Int 81);
          MoreExamples.update_beta "2025-06-14" (Int 70)] Examples.db_two_days).2.
Proof.
  apply (batchUpdate_order_is_immaterial Examples.utc).
  - reflexivity.
  - cbn. apply NoDup_cons. split; [|apply NoDup_singleton].
    intros H%list_elem_of_singleton. discriminate.
  - apply perm_swap.
Defined.

(** ** Timestamps the backfill cannot read *)

(** X15. In the backfill, a history entry whose timestamp cannot be
    converted to a date, met before any entry for the requested date,
    makes [find] throw: the approved site gets a line [Fetch error: ...]
    with the message of the error in the missing-target log and no update,
    whatever entries come after it. The conversion throws a [TypeError]
    for a timestamp that is [null], [undefined] or no string, and a
    [RangeError] for a string that the host's engine does not read as a
    date. *)
Theorem unreadable_timestamp_hides_later_entries
    (env : Backfill.Env) (dateStr : string) (site : Api.Site)
    (before after : list Api.HistoryEntry) (bad : Api.HistoryEntry)
    (e : JsError) (b : Backfill.Batch) :
  Backfill.approved env site = true ->
  Backfill.history_api env (Api.id site) = Normal (Some (before ++ bad :: after)) ->
  (forall x, x ∈ before ->
     exists d, Backfill.entry_date env x = Normal d /\ d <> dateStr) ->
  Backfill.entry_date env bad = Throw e ->
  Backfill.processSite env dateStr site b
  = (Normal tt,
     Backfill.push_miss
       {| Backfill.m_sid := Api.id site; Backfill.m_name := Api.site_name site;
          Backfill.m_date := dateStr;
          Backfill.m_reason := "Fetch error: " +:+ message e |} b).
Proof.
  intros Happ Hhist Hbefore Hbad.
  assert (Hfind : Backfill.find_entry env dateStr (before ++ bad :: after) = Throw e).
  { clear Hhist. induction before as [|x before IH]; cbn [app Backfill.find_entry].
    - by rewrite Hbad.
    - destruct (Hbefore x) as (d & -> & Hd); [by left|].
      apply String.eqb_neq in Hd. rewrite Hd. apply IH.
      intros y Hy. apply Hbefore. by right. }
  unfold Backfill.processSite. rewrite Happ. cbn [negb].
  unfold try_catch, bind. rewrite Hhist.
  change (default [] (Some (before ++ bad :: after))) with (before ++ bad :: after).
  by rewrite Hfind.
Qed.

(** [unreadable_timestamp_hides_later_entries]: a timestamp in
    day/month/year form in front of the entry of 15 June. *)
Lemma unreadable_timestamp_hides_later_entries_witness :
  Backfill.processSite MoreExamples.garbled_first "2025-06-15" Examples.beta
    Examples.no_batch
  = (Normal tt,
     Backfill.push_miss
       {| Backfill.m_sid := 102; Backfill.m_name := "Beta";
          Backfill.m_date := "2025-06-15";
          Backfill.m_reason := "Fetch error: Invalid time value" |}
       Examples.no_batch)
  /\ Backfill.processSite MoreExamples.unstamped_first "2025-06-15" Examples.beta
       Examples.no_batch
     = (Normal tt,
        Backfill.push_miss
          {| Backfill.m_sid := 102; Backfill.m_name := "Beta";
             Backfill.m_date := "2025-06-15";
             Backfill.m_reason :=
               "Fetch error: Cannot read properties of null (reading 'trim')" |}
          Examples.no_batch).
Proof.
  split.
  - apply (unreadable_timestamp_hides_later_entries MoreExamples.garbled_first
             "2025-06-15" Examples.beta [] [Examples.entry_15]
             MoreExamples.entry_garbled (RangeError "Invalid time value")).
    + reflexivity.
    + reflexivity.
    + intros x Hx. by apply elem_of_nil in Hx.
    + vm_compute. reflexivity.
  - apply (unreadable_timestamp_hides_later_entries MoreExamples.unstamped_first
             "2025-06-15" Examples.beta [] [Examples.entry_15]
             MoreExamples.entry_unstamped
             (TypeError "Cannot read properties of null (reading 'trim')")).
    + reflexivity.
    + reflexivity.
    + intros x Hx. by apply elem_of_nil in Hx.
    + reflexivity.
Defined.

(** ** The backfill script as a whole *)

Lemma for_of_invariant_elem {S A} (P : S -> Prop) (body : A -> M S unit) (xs : list A) :
  (forall x s, x ∈ xs -> P s -> P (body x s).2) ->
  forall s, P s -> P (for_of xs body s).2.
Proof.
  induction xs as [|x xs IH]; intros Hbody s Hs; cbn [for_of]; [done|].
  unfold bind. pose proof (Hbody x s (list_elem_of_here _ _) Hs) as Hx.
  destruct (body x s) as [[[]|e] s1]; cbn [snd] in *; [|done].
  apply IH; [|done]. intros y s' Hy. apply Hbody. by right.
Qed.

Lemma for_of_cons_normal {S A} (body : A -> M S unit) x xs s s1 :
  body x s = (Normal tt, s1) ->
  for_of (x :: xs) body s = for_of xs body s1.
Proof. intros H. cbn [for_of]. unfold bind. by rewrite H. Qed.

Lemma for_of_cons_throw {S A} (body : A -> M S unit) x xs s s1 e :
  body x s = (Throw e, s1) ->
  for_of (x :: xs) body s = (Throw e, s1).
Proof. intros H. cbn [for_of]. unfold bind. by rewrite H. Qed.

Lemma batches_elem (sites : list Api.Site) batch :
  batch ∈ Sweep.batches sites -> batch ⊆ sites.
Proof.
  intros Hb x Hx. rewrite <- (batches_concat sites).
  apply list_elem_of_In, in_concat. exists batch.
  split; by apply list_elem_of_In.
Qed.

(** A step of the day loop advances the clock by a day, give or take the
    daylight saving. *)
Lemma next_day_bounds zone current :
  (current + Script.shortest_step <= Script.next_day zone current
   <= current + Script.day_ms + 120 * 60000)%Z.
Proof.
  unfold Script.next_day, Script.shortest_step, Script.day_ms,
    JsDate.offset_at, JsDate.offset_for. cbv zeta.
  destruct (JsDate.saving_at zone current), (JsDate.saving_for zone _); cbn; lia.
Qed.

(** The visits of the day loop, one after the other: the fuel is
    enough. *)
Lemma days_from_step zone stop fuel : forall current k t,
  (stop - current < Script.shortest_step * Z.of_nat fuel)%Z ->
  Script.days_from zone fuel current stop !! k = Some t ->
  (current <= t <= stop)%Z
  /\ Script.days_from zone fuel current stop !! S k
     = if (Script.next_day zone t <=? stop)%Z
       then Some (Script.next_day zone t) else None.
Proof.
  induction fuel as [|fuel IH]; intros current k t Hfuel; cbn [Script.days_from].
  - intros H. by rewrite lookup_nil in H.
  - pose proof (next_day_bounds zone current) as Hstep.
    destruct (Z.leb_spec current stop) as [Hc|Hc];
      [|intros H; by rewrite lookup_nil in H].
    destruct k as [|k].
    + intros [= <-]. split; [lia|]. cbn [lookup list_lookup].
      destruct fuel as [|fuel]; cbn [Script.days_from].
      * rewrite ?lookup_nil. cbn [lookup list_lookup].
        destruct (Z.leb_spec (Script.next_day zone current) stop); [|done].
        unfold Script.shortest_step, Script.day_ms in *. lia.
      * by destruct (Z.leb_spec (Script.next_day zone current) stop).
    + cbn [lookup list_lookup]. intros Hk.
      destruct (IH (Script.next_day zone current) k t) as [Hle Hnext]; [|done|].
      { unfold Script.shortest_step, Script.day_ms in *. lia. }
      split; [|done]. unfold Script.shortest_step, Script.day_ms in *. lia.
Qed.

Section ScriptFacts.
Import Store Backfill.
Context (env : Script.Env).

Local Abbreviation henv := (Script.host env).

Lemma run_batch_spec dateStr batch st :
  exists us ms,
    Script.run_batch env dateStr batch st
    = ((batchUpdate henv us (Script.db st)).1,
       {| Script.db := (batchUpdate henv us (Script.db st)).2;
          Script.files := Script.files st;
          Script.missing := Script.missing st ++ ms |})
    /\ length us + length ms = length (List.filter (approved henv) batch)
    /\ Forall (Script.update_of henv dateStr batch) us
    /\ Forall (Script.miss_of henv dateStr batch) ms.
Proof.
  unfold Script.run_batch.
  destruct (site_loop_outcome henv dateStr batch
              {| updates := []; missingTargetLogs := Script.missing st |})
    as (us & ms & -> & Hlen & Hus & Hms).
  exists us, ms. cbn [updates missingTargetLogs app].
  by destruct (batchUpdate henv us (Script.db st)) as [c d].
Qed.

Lemma filled_refl r : Script.filled env r r.
Proof. by left. Qed.

Lemma filled_trans r1 r2 r3 :
  Script.filled env r1 r2 -> Script.filled env r2 r3 -> Script.filled env r1 r3.
Proof.
  intros [->|(Hnull & u & Hu & Hs & Hd & ->)]; [done|].
  intros [->|(Hnull' & _)]; [|discriminate].
  right. split; [done|]. by exists u.
Qed.

Lemma Forall2_filled_refl t : Forall2 (Script.filled env) t t.
Proof. apply Forall_Forall2_diag, Forall_forall. intros r _. apply filled_refl. Qed.

Lemma Forall2_filled_trans t1 t2 t3 :
  Forall2 (Script.filled env) t1 t2 -> Forall2 (Script.filled env) t2 t3 ->
  Forall2 (Script.filled env) t1 t3.
Proof.
  intros H. revert t3. induction H as [|r1 r2 t1 t2 Hr Ht IH]; intros t3 H3.
  - by inversion H3.
  - inversion H3 as [|r2' r3 t2' t3' Hr3 Ht3]; subst. constructor.
    + by eapply filled_trans.
    + by apply IH.
Qed.

Lemma patch_rows_filled u t :
  Script.planned env u ->
  Forall2 (Script.filled env) t (patch_rows (u_score u) (u_sid u) (u_date u) t).
Proof.
  intros Hu. unfold patch_rows. apply Forall2_fmap_r, Forall_Forall2_diag, Forall_forall.
  intros r _. unfold compose.
  destruct (needs_target (u_sid u) (u_date u) r) eqn:Hn; [|by left].
  unfold needs_target in Hn. apply andb_true_iff in Hn as [Hk Hnull].
  apply same_key_spec in Hk. injection Hk as Hs Hd.
  right. split; [by destruct (site_target_score r)|]. by exists u.
Qed.

Lemma update_loop_filled us :
  Forall (Script.planned env) us ->
  forall d,
    let d' := (for_of us
                 (fun u => try_catch
                             (patchTargetIfMissing henv (u_sid u) (u_date u) (u_score u) ;;;
                              ret tt)
                             (fun err => ret tt)) d).2 in
    Forall2 (Script.filled env) (ada_scores d) (ada_scores d')
    /\ error_logs d' = error_logs d.
Proof.
  induction 1 as [|u us Hu Hus IH]; intros d; cbn zeta.
  - split; [apply Forall2_filled_refl | done].
  - rewrite (for_of_cons_normal _ u us d _ (update_body_run henv u d)).
    set (d2 := (pool_query (faults henv) _ d).2).
    destruct (IH d2) as [Hf Hl]. cbn zeta in Hf, Hl.
    assert (H12 : Forall2 (Script.filled env) (ada_scores d) (ada_scores d2)
                  /\ error_logs d2 = error_logs d).
    { subst d2. rewrite pool_query_scores. split.
      - destruct (faults henv _); [apply Forall2_filled_refl|]. by apply patch_rows_filled.
      - unfold pool_query. by destruct (faults henv _). }
    destruct H12 as [H12 Hl12]. split; [|congruence].
    by eapply Forall2_filled_trans.
Qed.

Lemma batchUpdate_filled us d :
  Forall (Script.planned env) us ->
  Forall2 (Script.filled env) (ada_scores d) (ada_scores (batchUpdate henv us d).2)
  /\ error_logs (batchUpdate henv us d).2 = error_logs d.
Proof.
  intros Hus.
  destruct (batchUpdate_cases henv us d) as [[-> _]|[(msg & ->)| ->]].
  - split; [apply Forall2_filled_refl | done].
  - split; [apply Forall2_filled_refl | done].
  - apply (update_loop_filled us Hus (record_statement Connect d)).
Qed.

Local Abbreviation all_sites := (Script.sites env).

Lemma quiet_refl current st : Script.quiet env current st st.
Proof.
  split; [apply Forall2_filled_refl|]. split; [done|]. split; [done|].
  exists []. by rewrite app_nil_r.
Qed.

Lemma quiet_trans current st1 st2 st3 :
  Script.quiet env current st1 st2 -> Script.quiet env current st2 st3 -> Script.quiet env current st1 st3.
Proof.
  intros (Hf & Hl & Hfi & ms & Hm & Hms) (Hf' & Hl' & Hfi' & ms' & Hm' & Hms').
  split; [by eapply Forall2_filled_trans|]. split; [congruence|]. split; [congruence|].
  exists (ms ++ ms'). rewrite Hm', Hm, <- app_assoc. split; [done|].
  by apply Forall_app.
Qed.

Lemma run_batch_quiet current batch st :
  current ∈ Script.days env -> batch ⊆ all_sites ->
  Script.quiet env current st (Script.run_batch env (JsDate.iso_date current) batch st).2.
Proof.
  intros Hday Hsub.
  destruct (run_batch_spec (JsDate.iso_date current) batch st)
    as (us & ms & -> & _ & Hus & Hms).
  cbn [snd].
  assert (Hplanned : Forall (Script.planned env) us).
  { eapply Forall_impl; [exact Hus|]. intros u Hu. exists current.
    split; [done|]. by eapply update_of_mono. }
  destruct (batchUpdate_filled us (Script.db st) Hplanned) as [Hf Hl].
  split; [done|]. split; [done|]. split; [done|]. exists ms. split; [done|].
  eapply Forall_impl; [exact Hms|]. intros m Hm. by eapply miss_of_mono.
Qed.

Lemma batch_loop_quiet current sites st :
  current ∈ Script.days env -> sites ⊆ all_sites ->
  Script.quiet env current st
    (for_of (Sweep.batches sites) (Script.run_batch env (JsDate.iso_date current)) st).2.
Proof.
  intros Hday Hsub.
  apply (for_of_invariant_elem (Script.quiet env current st)); [|apply quiet_refl].
  intros batch st' Hb Hq. eapply quiet_trans; [exact Hq|].
  apply run_batch_quiet; [done|]. intros x Hx. apply Hsub. by eapply batches_elem.
Qed.

(** One day: the database is touched as a stretch without files touches
    it; at most one file is written, the day's; and when the day ends
    normally the missing-target array is empty again. *)
Lemma run_day_facts current st :
  current ∈ Script.days env -> Script.missing st = [] ->
  let r := Script.run_day env all_sites current st in
  Forall2 (Script.filled env) (ada_scores (Script.db st)) (ada_scores (Script.db r.2))
  /\ error_logs (Script.db r.2) = error_logs (Script.db st)
  /\ (Script.files r.2 = Script.files st
      \/ exists file, Script.day_file env current file
                      /\ Script.files r.2 = Script.files st ++ [file])
  /\ (r.1 = Normal tt -> Script.missing r.2 = []).
Proof.
  intros Hday Hempty. cbn zeta. unfold Script.run_day, bind.
  pose proof (batch_loop_quiet current all_sites st Hday (fun x H => H)) as Hq.
  destruct (for_of (Sweep.batches all_sites) _ st) as [[[]|e] st1]; cbn [snd] in Hq;
    destruct Hq as (Hf & Hl & Hfi & ms & Hm & Hms); rewrite Hempty in Hm; cbn in Hm.
  2:{ cbn [fst snd]. split; [done|]. split; [done|]. split; [by left | done]. }
  unfold Script.flush. destruct (Script.missing st1) as [|m logs] eqn:Hlogs.
  { cbn [fst snd]. split; [done|]. split; [done|]. split; [by left | done]. }
  destruct (Script.write_fault env _) as [msg|]; cbn [fst snd].
  { split; [done|]. split; [done|]. split; [by left | done]. }
  cbn [Script.db Script.files Script.missing].
  split; [done|]. split; [done|]. split; [|done].
  right. eexists. split; [|by rewrite Hfi].
  exists (m :: logs). split; [done|]. split; [done|]. by rewrite Hm.
Qed.

Lemma day_loop_facts ts : forall st,
  ts ⊆ Script.days env -> Script.missing st = [] ->
  let r := for_of ts (Script.run_day env all_sites) st in
  Forall2 (Script.filled env) (ada_scores (Script.db st)) (ada_scores (Script.db r.2))
  /\ error_logs (Script.db r.2) = error_logs (Script.db st)
  /\ (exists written new,
        written `sublist_of` ts
        /\ Forall2 (Script.day_file env) written new
        /\ Script.files r.2 = Script.files st ++ new)
  /\ (r.1 = Normal tt -> Script.missing r.2 = []).
Proof.
  induction ts as [|current ts IH]; intros st Hsub Hempty; cbn zeta.
  - cbn. split; [apply Forall2_filled_refl|]. split; [done|]. split; [|done].
    exists [], []. rewrite app_nil_r. split; [constructor|]. split; [constructor | done].
  - assert (Hday : current ∈ Script.days env) by (apply Hsub; by left).
    assert (Hsub' : ts ⊆ Script.days env) by (intros x Hx; apply Hsub; by right).
    destruct (run_day_facts current st Hday Hempty) as (Hf & Hl & Hfi & Hm).
    cbn zeta in Hf, Hl, Hfi, Hm.
    destruct (Script.run_day env all_sites current st) as [[[]|e] st1] eqn:Hrun;
      cbn [fst snd] in Hf, Hl, Hfi, Hm.
    + rewrite (for_of_cons_normal _ _ _ _ _ Hrun).
      destruct (IH st1 Hsub' (Hm eq_refl)) as (Hf' & Hl' & (written & new & Hw & Hn & Hfi') & Hm').
      cbn zeta in Hf', Hl', Hfi', Hm'.
      split; [by eapply Forall2_filled_trans|]. split; [congruence|]. split; [|done].
      destruct Hfi as [Hsame|(file & Hfile & Hadd)].
      * exists written, new. split; [by apply sublist_cons|]. split; [done|].
        by rewrite Hfi', Hsame.
      * exists (current :: written), (file :: new). split; [by apply sublist_skip|].
        split; [by constructor|]. rewrite Hfi', Hadd, <- app_assoc. done.
    + rewrite (for_of_cons_throw _ _ _ _ _ _ Hrun). cbn [fst snd].
      split; [done|]. split; [done|]. split; [|done].
      destruct Hfi as [Hsame|(file & Hfile & Hadd)].
      * exists [], []. rewrite app_nil_r. split; [apply sublist_nil_l|].
        split; [constructor | done].
      * exists [current], [file]. split; [apply sublist_skip, sublist_nil_l|].
        split; [by repeat constructor | done].
Qed.

Lemma main_facts d :
  let r := Script.main env d in
  Forall2 (Script.filled env) (ada_scores d) (ada_scores (Script.db r.2))
  /\ error_logs (Script.db r.2) = error_logs d
  /\ (exists written,
        written `sublist_of` Script.days env
        /\ Forall2 (Script.day_file env) written (Script.files r.2))
  /\ (r.1 = Normal tt -> Script.missing r.2 = []).
Proof.
  cbn zeta. unfold Script.main, bind.
  set (st0 := {| Script.db := d; Script.files := []; Script.missing := [] |}).
  destruct (day_loop_facts (Script.days env) st0 (fun x H => H) eq_refl)
    as (Hf & Hl & (written & new & Hw & Hn & Hfi) & Hm).
  cbn zeta in Hf, Hl, Hfi, Hm. unfold Script.sites in Hf, Hl, Hfi, Hm.
  destruct (Script.sites_api env) as [items|e] eqn:Hdir.
  - split; [done|]. split; [done|]. split; [|done].
    exists written. split; [done|]. by rewrite Hfi.
  - cbn. split; [apply Forall2_filled_refl|]. split; [done|]. split; [|done].
    exists []. split; [apply sublist_nil_l | constructor].
Qed.

End ScriptFacts.

(** X16. Whatever the remote side, the database and the file system do,
    the backfill script as a whole leaves [ada_scores] with the same rows
    in the same order, each either exactly as it was or, if its target was
    null, with the target set to the score of an update for the row's own
    site and date; that score is a number, the date is a day of the loop
    and the site is an approved accessibility site of the directory. A
    target that was not null is never touched, and the script writes
    nothing to the error log. *)
Theorem backfill_fills_only_null_targets (env : Script.Env) (d : Store.Db) :
  Forall2 (Script.filled env)
    (Store.ada_scores d) (Store.ada_scores (Script.db (Script.main env d).2))
  /\ Store.error_logs (Script.db (Script.main env d).2) = Store.error_logs d.
Proof.
  destruct (main_facts env d) as (Hf & Hl & _). done.
Qed.




(** X18. The day loop of the backfill steps in the local time of the
    host. A visit is never after the end date, and it is followed by the
    same time of day on the next local day, as long as that is not after
    the end date; this is 24 hours later less what the clock is put
    forward in between. So when the clock is put forward by more than the
    visit is past UTC midnight, the next visit falls on the same UTC date,
    and the loop works on that date a second time. *)
Theorem backfill_day_loop_steps_in_local_time
    (env : Script.Env) (stop : Z) (k : nat) (t : Z) :
  Script.endDate env = Some stop ->
  Script.days env !! k = Some t ->
  let zone := Backfill.zone (Script.host env) in
  let local := (t + JsDate.offset_at zone t * 60000)%Z in
  let forward :=
    ((JsDate.offset_for zone (local + Script.day_ms) - JsDate.offset_at zone t)
     * 60000)%Z in
  let next := (t + Script.day_ms - forward)%Z in
  (t <= stop)%Z
  /\ Script.days env !! S k = (if (next <=? stop)%Z then Some next else None)
  /\ ((0 <= t mod Script.day_ms < forward)%Z ->
      JsDate.iso_date next = JsDate.iso_date t).
Proof.
  intros Hstop Hk. cbv zeta. unfold Script.days in *. rewrite Hstop in *.
  destruct (Script.startDate env) as [start|]; [|by rewrite lookup_nil in Hk].
  set (zone := Backfill.zone (Script.host env)) in *.
  assert (Hnext : Script.next_day zone t
                  = (t + Script.day_ms
                     - (JsDate.offset_for zone
                          (t + JsDate.offset_at zone t * 60000 + Script.day_ms)
                        - JsDate.offset_at zone t) * 60000)%Z).
  { unfold Script.next_day. cbv zeta. lia. }
  rewrite <- Hnext.
  destruct (days_from_step zone stop
              (Z.to_nat ((stop - start) / Script.shortest_step + 1)) start k t)
    as [Hle Hsucc]; [|exact Hk|].
  { unfold Script.shortest_step, Script.day_ms.
    destruct (Z.le_gt_cases start stop) as [Hle|Hgt].
    - rewrite Z2Nat.id by (apply Z.add_nonneg_nonneg; [apply Z.div_pos|]; lia).
      pose proof (Z.mul_succ_div_gt (stop - start) (86400000 - 120 * 60000)
                    ltac:(lia)). lia.
    - assert (0 <= Z.of_nat (Z.to_nat ((stop - start) / (86400000 - 120 * 60000) + 1)))%Z
        by lia. lia. }
  split; [lia|]. split; [exact Hsucc|].
  intros Hfwd. rewrite Hnext. unfold JsDate.iso_date, Script.day_ms in *.
  assert (Hbound : ((JsDate.offset_for zone (t + JsDate.offset_at zone t * 60000 + 86400000)
                     - JsDate.offset_at zone t) * 60000 <= 7200000)%Z).
  { unfold JsDate.offset_for, JsDate.offset_at.
    destruct (JsDate.saving_at zone t), (JsDate.saving_for zone _); cbn; lia. }
  set (fw := ((JsDate.offset_for zone _ - JsDate.offset_at zone t) * 60000)%Z) in *.
  replace ((t + 86400000 - fw) / 86400000)%Z with (t / 86400000)%Z; [done|].
  pose proof (Z.div_mod t 86400000 ltac:(lia)) as Hdm.
  apply (Z.div_unique _ _ _ (t mod 86400000 + 86400000 - fw)%Z); lia.
Qed.

(** [backfill_day_loop_steps_in_local_time]: in central Europe, with the
    range from 29 to 31 March 2025, the visit of 30 March, 00:00 UTC, is
    followed by one at 23:00 UTC of the same date. *)
Lemma backfill_day_loop_steps_in_local_time_witness :
  Script.days MoreExamples.march_backfill !! 2 = Some 1743375600000%Z
  /\ JsDate.iso_date 1743375600000 = JsDate.iso_date 1743292800000.
Proof.
  destruct (backfill_day_loop_steps_in_local_time MoreExamples.march_backfill
              1743379200000 1 1743292800000 eq_refl)
    as (_ & Hnext & Hdate).
  - vm_compute. reflexivity.
  - split.
    + rewrite Hnext. vm_compute. reflexivity.
    + apply Hdate. vm_compute. split; [discriminate | reflexivity].
Defined.



(** ** The callers of the sweep *)

(** X20. The manual trigger always answers and never throws. It answers
    200 exactly when both row counts and the sweep succeed, and the report
    then gives as rows after the run the rows before it plus the
    [inserted] count of the sweep. When the first count is refused the
    sweep is not started and the database is left as it was; in every
    failure the answer is 500 with the message of the error. *)
Theorem run_now_reports_row_growth (env : Server.Env) (d : Store.Db) :
  exists resp,
    (Server.run_now env d).1 = Normal resp
    /\ match Server.count_before env with
       | Some msg =>
           resp = {| Server.status := 500; Server.body := "? Run failed: " +:+ msg |}
           /\ (Server.run_now env d).2 = d
       | None =>
           (Server.run_now env d).2 = (Sweep.fetchAndInsertRecords (Server.sweep env) d).2
           /\ match (Sweep.fetchAndInsertRecords (Server.sweep env) d).1,
                    Server.count_after env with
              | Normal stats, None =>
                  resp = {| Server.status := 200;
                            Server.body :=
                              Server.report stats (length (Store.ada_scores d))
                                (length (Store.ada_scores d) + Sweep.inserted stats) |}
              | Normal stats, Some msg =>
                  resp = {| Server.status := 500;
                            Server.body := "? Run failed: " +:+ msg |}
              | Throw e, _ =>
                  resp = {| Server.status := 500;
                            Server.body := "? Run failed: " +:+ message e |}
              end
       end.
Proof.
  unfold Server.run_now, try_catch, bind, Server.count_rows.
  destruct (Server.count_before env) as [msg|]; [by eexists|].
  cbn [gets].
  destruct (sweep_ledger (Server.sweep env) d) as (extra & logs & Hada & _ & _ & Hend).
  cbn zeta in Hend.
  destruct (Sweep.fetchAndInsertRecords (Server.sweep env) d) as [[stats|e] d1];
    cbn [fst snd] in *; [|by eexists].
  destruct (Server.count_after env) as [msg|]; [by eexists|].
  cbn [gets]. eexists. split; [reflexivity|]. split; [done|].
  destruct Hend as (Hins & _). by rewrite Hada, length_app, Hins.
Qed.

Lemma run_snoc events ev :
  Server.run (events ++ [ev]) = Server.step (Server.run events) ev.
Proof. unfold Server.run. by rewrite foldl_app. Qed.

Lemma resume_length handlers i settled handlers' left_try :
  Server.resume handlers i settled = Some (handlers', left_try) ->
  length handlers = (if left_try then S (length handlers') else length handlers').
Proof.
  unfold Server.resume. destruct (handlers !! i) as [s|] eqn:Hi; [|done].
  destruct (if settled then Server.next_stage s else None).
  - intros [= <- <-]. by rewrite length_insert.
  - intros [= <- <-]. rewrite length_delete by done.
    apply lookup_lt_Some in Hi. lia.
Qed.

(** X21. However cron ticks, manual requests and the settling of awaited
    requests interleave, at most one scheduled run is in flight, and
    [jobRunning] is set exactly while one is: a tick that finds the flag
    set starts nothing, and a scheduled run that leaves its [try]
    statement, by its end or through the [catch], clears the flag. Manual
    runs are not counted by the flag: any number of them can be in flight
    beside a scheduled one. *)
Theorem scheduled_runs_never_overlap :
  (forall events,
     length (Server.scheduled (Server.run events))
     = if Server.jobRunning (Server.run events) then 1 else 0)
  /\ (forall n, exists events,
        length (Server.manual (Server.run events)) = n
        /\ length (Server.scheduled (Server.run events)) = 1).
Proof.
  split.
  - induction events as [|ev events IH] using rev_ind; [done|].
    rewrite run_snoc. destruct ev as [|i settled| |i settled]; cbn [Server.step].
    + destruct (Server.jobRunning (Server.run events)) eqn:Hflag; [by rewrite Hflag|].
      cbn. rewrite length_app, IH. done.
    + destruct (Server.resume _ i settled) as [[handlers left_try]|] eqn:Hres; [|done].
      apply resume_length in Hres. cbn. rewrite IH in Hres.
      destruct left_try, (Server.jobRunning (Server.run events)); lia.
    + done.
    + by destruct (Server.resume _ i settled) as [[handlers left_try]|].
  - intros n. exists (Server.CronFires :: replicate n Server.RunNowRequested).
    assert (H : forall p,
              let p' := foldl Server.step p (replicate n Server.RunNowRequested) in
              length (Server.manual p') = length (Server.manual p) + n
              /\ Server.scheduled p' = Server.scheduled p).
    { induction n as [|n IH]; intros p; cbn zeta; cbn [replicate foldl].
      - split; [lia | done].
      - destruct (IH (Server.step p Server.RunNowRequested)) as [Hm Hs].
        cbn zeta in Hm, Hs. rewrite Hm, Hs. cbn. rewrite length_app. cbn.
        split; [lia | done]. }
    unfold Server.run. cbn [foldl].
    destruct (H (Server.step Server.started Server.CronFires)) as [Hm Hs].
    cbn zeta in Hm, Hs. by rewrite Hm, Hs.
Qed.

(** ** Timestamps and the host's time zone *)

Section CalendarFacts.
Local Open Scope Z_scope.

(** The day number of the civil date of a day number is that day number. *)
Lemma days_of_civil n :
  let '(y, m, d) := JsDate.civil_from_days n in
  JsDate.days_from_civil y m d = n /\ 1 <= m <= 12 /\ 1 <= d <= 31.
Proof.
  unfold JsDate.civil_from_days, JsDate.days_from_civil. cbv zeta.
  repeat match goal with
  | |- context [Z.ltb ?a ?b] => destruct (Z.ltb_spec a b)
  | |- context [Z.leb ?a ?b] => destruct (Z.leb_spec a b)
  end.
  all: (Z.to_euclidean_division_equations; lia).
Qed.

(** The year of the era is recovered from the day of the era. *)
Lemma yoe_unique yoe doy :
  0 <= yoe <= 399 ->
  0 <= doy <= 365 ->
  (doy = 365 ->
   ((yoe + 1) mod 4 = 0 /\ (yoe + 1) mod 100 <> 0) \/ (yoe + 1) mod 400 = 0) ->
  let doe := yoe * 365 + yoe / 4 - yoe / 100 + doy in
  0 <= doe < 146097
  /\ (doe - doe / 1460 + doe / 36524 - doe / 146096) / 365 = yoe.
Proof.
  intros Hy Hd Hleap. cbv zeta.
  assert (Hc : yoe / 100 = 0 \/ yoe / 100 = 1 \/ yoe / 100 = 2 \/ yoe / 100 = 3)
    by (Z.to_euclidean_division_equations; lia).
  destruct Hc as [Hc|[Hc|[Hc|Hc]]]; rewrite Hc; split;
    Z.to_euclidean_division_equations; lia.
Qed.

(** The day of the year that starts in March, and back. *)
Lemma month_days m d y :
  1 <= m <= 12 -> 1 <= d <= Stamp.days_in_month y m ->
  let mp := (m + 9) mod 12 in
  let doy := (153 * mp + 2) / 5 + d - 1 in
  0 <= doy <= 365
  /\ (doy = 365 -> m = 2 /\ Stamp.leap y = true)
  /\ (5 * doy + 2) / 153 = mp
  /\ doy - (153 * mp + 2) / 5 + 1 = d
  /\ (if mp <? 10 then mp + 3 else mp - 9) = m.
Proof.
  intros Hm Hd. cbv zeta.
  assert (m = 1 \/ m = 2 \/ m = 3 \/ m = 4 \/ m = 5 \/ m = 6 \/ m = 7 \/ m = 8
          \/ m = 9 \/ m = 10 \/ m = 11 \/ m = 12) as Hcases by lia.
  unfold Stamp.days_in_month in Hd.
  destruct Hcases as [->|[->|[->|[->|[->|[->|[->|[->|[->|[->|[->| ->]]]]]]]]]]];
    cbn in Hd;
    match goal with
    | |- context [(?c + 9) mod 12] =>
        let v := eval vm_compute in ((c + 9) mod 12) in
        change ((c + 9) mod 12) with v;
        let w := eval vm_compute in ((153 * v + 2) / 5) in
        change ((153 * v + 2) / 5) with w;
        let b := eval vm_compute in (v <? 10) in
        change (v <? 10) with b
    end; cbv iota.
  all: try (destruct (Stamp.leap y)).
  all: repeat split; try (Z.to_euclidean_division_equations; lia).
Qed.

(** The civil date of the day number of a date of the calendar is that
    date. *)
Lemma civil_of_days y m d :
  1 <= m <= 12 -> 1 <= d <= Stamp.days_in_month y m ->
  JsDate.civil_from_days (JsDate.days_from_civil y m d) = (y, m, d).
Proof.
  intros Hm Hd.
  destruct (month_days m d y Hm Hd) as (Hdoy & H365 & Hmp & Hdd & Hmm).
  cbv zeta in Hdoy, H365, Hmp, Hdd, Hmm.
  unfold JsDate.days_from_civil. cbv zeta.
  set (y' := if m <=? 2 then y - 1 else y).
  set (mp := (m + 9) mod 12) in *.
  set (doy := (153 * mp + 2) / 5 + d - 1) in *.
  set (era := y' / 400).
  set (yoe := y' - era * 400).
  assert (Hyoe : 0 <= yoe <= 399)
    by (subst yoe era; Z.to_euclidean_division_equations; lia).
  assert (Hleap : doy = 365 ->
            ((yoe + 1) mod 4 = 0 /\ (yoe + 1) mod 100 <> 0) \/ (yoe + 1) mod 400 = 0).
  { intros H. destruct (H365 H) as [-> Hl]. unfold Stamp.leap in Hl.
    subst y'. cbn in yoe, era. subst yoe era.
    apply orb_true_iff in Hl as [Hl|Hl].
    - apply andb_true_iff in Hl as [H4 H100]. apply Z.eqb_eq in H4.
      apply negb_true_iff, Z.eqb_neq in H100. left.
      split; Z.to_euclidean_division_equations; lia.
    - apply Z.eqb_eq in Hl. right. Z.to_euclidean_division_equations; lia. }
  destruct (yoe_unique yoe doy Hyoe Hdoy Hleap) as [Hdoe Hback].
  cbv zeta in Hdoe, Hback.
  set (doe := yoe * 365 + yoe / 4 - yoe / 100 + doy) in *.
  unfold JsDate.civil_from_days. cbv zeta.
  replace (era * 146097 + doe - 719468 + 719468) with (doe + era * 146097) by lia.
  rewrite Z.div_add, (Z.div_small doe) by lia. rewrite Z.add_0_l.
  replace (doe + era * 146097 - era * 146097) with doe by lia.
  rewrite Hback.
  replace (doe - (365 * yoe + yoe / 4 - yoe / 100)) with doy by (subst doe; lia).
  rewrite Hmp, Hdd, Hmm.
  repeat f_equal.
  subst yoe y'. destruct (m <=? 2); lia.
Qed.

End CalendarFacts.

Section StampFacts.
Local Open Scope Z_scope.

Lemma upto_elem (n : nat) (k : Z) :
  0 <= k < Z.of_nat n -> In k (Stamp.upto n).
Proof.
  intros H. unfold Stamp.upto. apply in_map_iff. exists (Z.to_nat k).
  split; [lia|]. apply in_seq. lia.
Qed.

Lemma reads_back_pad2 n :
  0 <= n <= 99 -> Stamp.reads_back 2 (JsDate.pad2 n) n = true.
Proof.
  intros H.
  assert (Hall : forallb (fun k => Stamp.reads_back 2 (JsDate.pad2 k) k)
                   (Stamp.upto 100) = true) by (vm_compute; reflexivity).
  rewrite forallb_forall in Hall. apply Hall, upto_elem. lia.
Qed.

Lemma reads_back_pad4 y :
  0 <= y <= 9999 -> Stamp.reads_back 4 (JsDate.pad4 y) y = true.
Proof.
  intros H.
  assert (Hall : forallb (fun k => Stamp.reads_back 4 (JsDate.pad4 k) k)
                   (Stamp.upto (100 * 100)) = true) by (vm_compute; reflexivity).
  rewrite forallb_forall in Hall. apply Hall, upto_elem. lia.
Qed.

Lemma reads_back_spec width text n :
  Stamp.reads_back width text n = true ->
  JsDate.digits width text 0 = Some (n, EmptyString)
  /\ Stamp.plain text = true
  /\ Stamp.starts_with_digit text = true.
Proof.
  unfold Stamp.reads_back.
  destruct (JsDate.digits width text 0) as [[v [|c r]]|]; try discriminate.
  intros H. apply andb_true_iff in H as [H Hd]. apply andb_true_iff in H as [Hv Hp].
  apply Z.eqb_eq in Hv. by subst v.
Qed.

Lemma digits_app n : forall s acc v r,
  JsDate.digits n s acc = Some (v, EmptyString) ->
  JsDate.digits n (s +:+ r) acc = Some (v, r).
Proof.
  induction n as [|n IH]; intros s acc v r.
  - cbn [JsDate.digits]. by intros [= -> ->].
  - destruct s as [|c s]; [discriminate|].
    change (String c s +:+ r) with (String c (s +:+ r)). cbn [JsDate.digits].
    destruct (digit_value c) as [dv|]; [|discriminate].
    destruct (dv <? 10); [|discriminate]. apply IH.
Qed.

Lemma string_app_cons c s t : String c s +:+ t = String c (s +:+ t).
Proof. reflexivity. Qed.

Lemma string_app_nil_l t : EmptyString +:+ t = t.
Proof. reflexivity. Qed.

Lemma string_app_nil_r s : s +:+ EmptyString = s.
Proof.
  induction s as [|c s IH]; [done|]. by rewrite string_app_cons, IH.
Qed.

Lemma string_app_assoc s t u : (s +:+ t) +:+ u = s +:+ (t +:+ u).
Proof.
  induction s as [|c s IH]; [done|]. by rewrite !string_app_cons, IH.
Qed.

Lemma rev_string_rev s : forall a b,
  rev_string (rev_string s a) b = rev_string a (s +:+ b).
Proof.
  induction s as [|c s IH]; intros a b; [done|].
  rewrite string_app_cons. cbn [rev_string]. by rewrite IH.
Qed.

Lemma rev_string_app s t : forall acc,
  rev_string (s +:+ t) acc = rev_string t (rev_string s acc).
Proof.
  induction s as [|c s IH]; intros acc; [done|].
  rewrite string_app_cons. cbn [rev_string]. apply IH.
Qed.

Lemma rev_string_head t : forall acc,
  Stamp.plain t = true -> t <> EmptyString ->
  exists c r, rev_string t acc = String c r /\ is_ws c = false.
Proof.
  induction t as [|c t IH]; intros acc Hp Hne; [done|].
  cbn [Stamp.plain] in Hp. apply andb_true_iff in Hp as [Hc Hp].
  apply negb_true_iff in Hc. cbn [rev_string].
  destruct t as [|c' t'].
  - cbn. by exists c, acc.
  - apply IH; done.
Qed.

Lemma trim_ends c r :
  is_ws c = false ->
  (exists c' r', rev_string (String c r) EmptyString = String c' r' /\ is_ws c' = false) ->
  trim (String c r) = String c r.
Proof.
  intros Hc (c' & r' & Hrev & Hc'). unfold trim. cbn [trimStart]. rewrite Hc.
  rewrite Hrev. cbn [trimStart]. rewrite Hc', <- Hrev.
  rewrite rev_string_rev. cbn [rev_string]. apply string_app_nil_r.
Qed.

Lemma plain_app s t : Stamp.plain (s +:+ t) = Stamp.plain s && Stamp.plain t.
Proof.
  induction s as [|c s IH]; [done|].
  rewrite string_app_cons. cbn [Stamp.plain]. by rewrite IH, andb_assoc.
Qed.

Lemma replace_space_app a r :
  Stamp.plain a = true ->
  JsDate.replace_space (a +:+ String " " r) = a +:+ String "T" r.
Proof.
  induction a as [|c a IH]; intros Hp.
  - reflexivity.
  - change (String c a +:+ String " " r) with (String c (a +:+ String " " r)).
    change (String c a +:+ String "T" r) with (String c (a +:+ String "T" r)).
    cbn [JsDate.replace_space]. cbn [Stamp.plain] in Hp. apply andb_true_iff in Hp as [Hc Hp].
    destruct (Ascii.eqb_spec c " ") as [->|_]; [discriminate|].
    by rewrite IH.
Qed.

Lemma digit_not_ws c : Stamp.is_digit c = true -> is_ws c = false.
Proof.
  destruct c as [[] [] [] [] [] [] [] []]; vm_compute; congruence.
Qed.

Lemma digit_not_sign c :
  Stamp.is_digit c = true -> c <> "-"%char /\ c <> "+"%char.
Proof.
  intros H. split; intros ->; vm_compute in H; discriminate.
Qed.

Lemma prefix_app s t : String.prefix s (s +:+ t) = true.
Proof.
  induction s as [|c s IH].
  - by destruct t.
  - rewrite string_app_cons. cbn [String.prefix].
    destruct (ascii_dec c c); [apply IH | done].
Qed.

Lemma valid_date_spec y m d :
  Stamp.valid_date y m d = true ->
  0 <= y <= 9999 /\ 1 <= m <= 12 /\ 1 <= d <= Stamp.days_in_month y m /\ d <= 31.
Proof.
  unfold Stamp.valid_date. rewrite !andb_true_iff, !Z.leb_le.
  intros (((((? & ?) & ?) & ?) & ?) & Hd). repeat split; try lia.
  unfold Stamp.days_in_month in Hd.
  destruct (m =? 2); [destruct (Stamp.leap y); lia|].
  destruct ((m =? 4) || (m =? 6) || (m =? 9) || (m =? 11))%bool; lia.
Qed.

Lemma valid_time_spec h mi s :
  Stamp.valid_time h mi s = true -> 0 <= h <= 23 /\ 0 <= mi <= 59 /\ 0 <= s <= 59.
Proof.
  unfold Stamp.valid_time. rewrite !andb_true_iff, !Z.leb_le. lia.
Qed.

(** A date alone is read as midnight UTC of that date. *)
Lemma fields_date y m d :
  0 <= y <= 9999 -> 1 <= m <= 12 -> 1 <= d <= 31 ->
  JsDate.fields (Stamp.date_text y m d)
  = Some (JsDate.days_from_civil y m d * 86400000, Some 0).
Proof.
  intros Hy Hm Hd.
  destruct (reads_back_spec _ _ _ (reads_back_pad4 y Hy)) as (Py & _).
  destruct (reads_back_spec _ _ _ (reads_back_pad2 m ltac:(lia))) as (Pm & _).
  destruct (reads_back_spec _ _ _ (reads_back_pad2 d ltac:(lia))) as (Pd & _).
  unfold JsDate.fields, Stamp.date_text.
  rewrite (digits_app 4 _ _ _ _ Py). cbn [mbind option_bind].
  rewrite string_app_cons, string_app_nil_l.
  cbn [JsDate.expect Ascii.eqb Bool.eqb mbind option_bind].
  rewrite (digits_app 2 _ _ _ _ Pm). cbn [mbind option_bind].
  rewrite string_app_cons, string_app_nil_l.
  cbn [JsDate.expect Ascii.eqb Bool.eqb mbind option_bind].
  rewrite Pd. cbn [mbind option_bind].
  destruct (Z.leb_spec 1 m), (Z.leb_spec m 12), (Z.leb_spec 1 d), (Z.leb_spec d 31);
    try lia.
  reflexivity.
Qed.

(** A date and a time with no zone are read as local time. *)
Lemma fields_date_time y m d h mi s :
  0 <= y <= 9999 -> 1 <= m <= 12 -> 1 <= d <= 31 ->
  0 <= h <= 23 -> 0 <= mi <= 59 -> 0 <= s <= 59 ->
  JsDate.fields (Stamp.date_text y m d +:+ String "T" (Stamp.time_text h mi s))
  = Some (JsDate.days_from_civil y m d * 86400000
          + h * 3600000 + mi * 60000 + s * 1000 + 0, None).
Proof.
  intros Hy Hm Hd Hh Hmi Hs.
  destruct (reads_back_spec _ _ _ (reads_back_pad4 y Hy)) as (Py & _).
  destruct (reads_back_spec _ _ _ (reads_back_pad2 m ltac:(lia))) as (Pm & _).
  destruct (reads_back_spec _ _ _ (reads_back_pad2 d ltac:(lia))) as (Pd & _).
  destruct (reads_back_spec _ _ _ (reads_back_pad2 h ltac:(lia))) as (Ph & _).
  destruct (reads_back_spec _ _ _ (reads_back_pad2 mi ltac:(lia))) as (Pmi & _).
  destruct (reads_back_spec _ _ _ (reads_back_pad2 s ltac:(lia))) as (Ps & _).
  unfold JsDate.fields, Stamp.date_text, Stamp.time_text.
  rewrite !string_app_assoc.
  rewrite (digits_app 4 _ _ _ _ Py). cbn [mbind option_bind].
  rewrite string_app_cons, string_app_nil_l.
  cbn [JsDate.expect Ascii.eqb Bool.eqb mbind option_bind].
  rewrite (digits_app 2 _ _ _ _ Pm). cbn [mbind option_bind].
  rewrite string_app_cons, string_app_nil_l.
  cbn [JsDate.expect Ascii.eqb Bool.eqb mbind option_bind].
  rewrite (digits_app 2 _ _ _ _ Pd). cbn [mbind option_bind].
  destruct (Z.leb_spec 1 m), (Z.leb_spec m 12), (Z.leb_spec 1 d), (Z.leb_spec d 31);
    try lia.
  cbn [andb negb].
  rewrite (digits_app 2 _ _ _ _ Ph). cbn [mbind option_bind].
  rewrite string_app_cons, string_app_nil_l.
  cbn [JsDate.expect Ascii.eqb Bool.eqb mbind option_bind].
  rewrite (digits_app 2 _ _ _ _ Pmi). cbn [mbind option_bind].
  rewrite string_app_cons, string_app_nil_l. unfold JsDate.seconds.
  rewrite Ps. cbn [mbind option_bind JsDate.zone].
  destruct (Z.leb_spec h 23), (Z.leb_spec mi 59), (Z.leb_spec s 59); try lia.
  reflexivity.
Qed.

(** [trim] and [replace] turn the timestamp into the date-time form. *)
Lemma stamp_normalised y m d h mi s :
  0 <= y <= 9999 -> 0 <= m <= 99 -> 0 <= d <= 99 ->
  0 <= h <= 99 -> 0 <= mi <= 99 -> 0 <= s <= 99 ->
  JsDate.replace_space (trim (Stamp.stamp y m d h mi s))
  = Stamp.date_text y m d +:+ String "T" (Stamp.time_text h mi s).
Proof.
  intros Hy Hm Hd Hh Hmi Hs.
  destruct (reads_back_spec _ _ _ (reads_back_pad4 y Hy)) as (_ & Ly & Fy).
  destruct (reads_back_spec _ _ _ (reads_back_pad2 m Hm)) as (_ & Lm & _).
  destruct (reads_back_spec _ _ _ (reads_back_pad2 d Hd)) as (_ & Ld & _).
  destruct (reads_back_spec _ _ _ (reads_back_pad2 s Hs)) as (_ & Ls & Fs).
  assert (Hplain : Stamp.plain (Stamp.date_text y m d) = true).
  { unfold Stamp.date_text. rewrite !plain_app, Ly, Lm, Ld. reflexivity. }
  assert (Htrim : trim (Stamp.stamp y m d h mi s) = Stamp.stamp y m d h mi s).
  { unfold Stamp.stamp, Stamp.date_text, Stamp.time_text.
    destruct (JsDate.pad4 y) as [|c r] eqn:Ey; [discriminate|].
    cbn [Stamp.starts_with_digit] in Fy. rewrite !string_app_cons.
    apply trim_ends; [by apply digit_not_ws|].
    rewrite <- !string_app_cons, <- !string_app_assoc.
    rewrite rev_string_app. apply rev_string_head; [done|].
    by destruct (JsDate.pad2 s). }
  rewrite Htrim. unfold Stamp.stamp. rewrite string_app_cons, string_app_nil_l.
  by apply replace_space_app.
Qed.

(** The day the backfill gives a timestamp: the UTC date of the instant
    that the timestamp, read as local time, denotes. *)
Lemma entry_date_stamp env y m d h mi s pct :
  Stamp.valid_date y m d = true -> Stamp.valid_time h mi s = true ->
  Backfill.entry_date env (Stamp.entry y m d h mi s pct)
  = Normal (JsDate.iso_date (JsDate.days_from_civil y m d * 86400000
                             + Stamp.shift
                                 (JsDate.offset_for (Backfill.zone env)
                                    (Stamp.local_time y m d h mi s)) h mi s)).
Proof.
  intros Hdate Htime.
  destruct (valid_date_spec _ _ _ Hdate) as (Hy & Hm & Hd1 & Hd).
  destruct (valid_time_spec _ _ _ Htime) as (Hh & Hmi & Hs).
  unfold Backfill.entry_date, Stamp.entry. cbn [Api.timestamp].
  rewrite stamp_normalised by lia. unfold JsDate.parse.
  rewrite fields_date_time by lia.
  replace (JsDate.days_from_civil y m d * 86400000
           + h * 3600000 + mi * 60000 + s * 1000 + 0)
    with (Stamp.local_time y m d h mi s) by (unfold Stamp.local_time; lia).
  do 2 f_equal. unfold Stamp.shift, Stamp.local_time. lia.
Qed.

Lemma iso_date_of_day y m d :
  Stamp.valid_date y m d = true ->
  JsDate.iso_date (JsDate.days_from_civil y m d * 86400000) = Stamp.date_text y m d.
Proof.
  intros Hdate. destruct (valid_date_spec _ _ _ Hdate) as (Hy & Hm & Hd & _).
  unfold JsDate.iso_date. rewrite Z.div_mul by lia.
  rewrite civil_of_days by lia.
  destruct (Z.leb_spec 0 y), (Z.leb_spec y 9999); try lia. reflexivity.
Qed.

(** The date text of one day is not the text of any other day. *)
Lemma iso_date_other_day y m d k :
  Stamp.valid_date y m d = true ->
  JsDate.iso_date (k * 86400000) = Stamp.date_text y m d ->
  k = JsDate.days_from_civil y m d.
Proof.
  intros Hdate. destruct (valid_date_spec _ _ _ Hdate) as (Hy & Hm & Hd1 & Hd).
  unfold JsDate.iso_date. rewrite Z.div_mul by lia.
  pose proof (days_of_civil k) as Hk.
  destruct (JsDate.civil_from_days k) as [[y' m'] d'].
  destruct Hk as (Hk & Hm' & Hd').
  destruct (reads_back_spec _ _ _ (reads_back_pad4 y Hy)) as (_ & _ & Fy).
  destruct ((0 <=? y') && (y' <=? 9999))%bool eqn:Hrange.
  - apply andb_true_iff in Hrange as [H0 H9]. apply Z.leb_le in H0, H9.
    intros Heq. change (Stamp.date_text y' m' d' = Stamp.date_text y m d) in Heq.
    pose proof (fields_date y' m' d' ltac:(lia) Hm' Hd') as F1.
    pose proof (fields_date y m d Hy Hm ltac:(lia)) as F2.
    rewrite Heq, F2 in F1. injection F1 as F1. lia.
  - unfold Stamp.date_text. destruct (JsDate.pad4 y) as [|c r]; [discriminate|].
    cbn [Stamp.starts_with_digit] in Fy. apply digit_not_sign in Fy as [Hminus Hplus].
    destruct (y' <? 0); rewrite !string_app_cons; intros [= Hc _]; congruence.
Qed.

End StampFacts.

(** X22. How the backfill dates a history entry stamped
    [YYYY-MM-DD HH:mm:ss], for every date of the calendar, every time of
    day and every host: it reads the timestamp as local time and takes the
    UTC date of that instant. The date it gets is the date written in the
    timestamp exactly when moving the time of day by the host's offset
    stays within the same day; for a timestamp of midnight that is exactly
    on hosts that are not ahead of UTC. Otherwise an entry alone in its
    history is not found for its own date. The sweep, which compares the
    text, always takes the entry for the date written in it. *)
Theorem backfill_dates_entry_by_host_zone
    (env : Backfill.Env) (senv : Sweep.Env) (y m d h mi s : Z) (pct : JsValue) :
  Stamp.valid_date y m d = true ->
  Stamp.valid_time h mi s = true ->
  let entry := Stamp.entry y m d h mi s pct in
  let tz := JsDate.offset_for (Backfill.zone env) (Stamp.local_time y m d h mi s) in
  let same_day := (0 <= Stamp.shift tz h mi s < 86400000)%Z in
  (Backfill.entry_date env entry = Normal (Stamp.date_text y m d) <-> same_day)
  /\ (same_day ->
      Backfill.find_entry env (Stamp.date_text y m d) [entry] = Normal (Some entry))
  /\ (~ same_day ->
      Backfill.find_entry env (Stamp.date_text y m d) [entry] = Normal None)
  /\ (Sweep.today senv = Stamp.date_text y m d -> Sweep.is_today senv entry = true).
Proof.
  intros Hdate Htime entry tz same_day.
  pose proof (entry_date_stamp env y m d h mi s pct Hdate Htime) as Hentry.
  fold entry in Hentry.
  set (n := JsDate.days_from_civil y m d) in *.
  fold tz in Hentry. set (sh := Stamp.shift tz h mi s) in *.
  assert (Hiff : JsDate.iso_date (n * 86400000 + sh) = Stamp.date_text y m d
                 <-> same_day).
  { split.
    - intros Heq.
      pose proof (Z.div_mod (n * 86400000 + sh) 86400000 ltac:(lia)) as Hdm.
      pose proof (Z.mod_pos_bound (n * 86400000 + sh) 86400000 ltac:(lia)) as Hb.
      set (k := ((n * 86400000 + sh) / 86400000)%Z) in *.
      set (r := ((n * 86400000 + sh) mod 86400000)%Z) in *.
      assert (Hk : JsDate.iso_date (k * 86400000) = Stamp.date_text y m d).
      { rewrite <- Heq, Hdm.
        replace (86400000 * k + r)%Z with (k * 86400000 + r)%Z by lia.
        symmetry. by apply iso_date_within_day. }
      apply (iso_date_other_day y m d k Hdate) in Hk. fold n in Hk.
      unfold same_day. lia.
    - intros Hsame. rewrite iso_date_within_day by exact Hsame.
      by apply iso_date_of_day. }
  assert (Hfind : Backfill.find_entry env (Stamp.date_text y m d) [entry]
                  = Normal (if String.eqb (JsDate.iso_date (n * 86400000 + sh))
                                 (Stamp.date_text y m d)
                            then Some entry else None)).
  { cbn [Backfill.find_entry]. rewrite Hentry. by destruct (String.eqb _ _). }
  split; [|split; [|split]].
  - rewrite Hentry. split.
    + intros [= Heq]. by apply Hiff.
    + intros Hsame. f_equal. by apply Hiff.
  - intros Hsame. rewrite Hfind.
    apply Hiff, String.eqb_eq in Hsame. by rewrite Hsame.
  - intros Hdiff. rewrite Hfind.
    destruct (String.eqb_spec (JsDate.iso_date (n * 86400000 + sh))
                (Stamp.date_text y m d)) as [Heq|_]; [|done].
    by apply Hiff in Heq.
  - intros Htoday. unfold Sweep.is_today, entry, Stamp.entry. cbn [Api.timestamp].
    rewrite Htoday. unfold startsWith, Stamp.stamp. apply prefix_app.
Qed.

(** [backfill_dates_entry_by_host_zone]: midnight of 15 June 2025 on a
    host two hours ahead of UTC. *)
Lemma backfill_dates_entry_by_host_zone_witness :
  Backfill.find_entry Examples.berlin (Stamp.date_text 2025 6 15)
    [Stamp.entry 2025 6 15 0 0 0 (JNonString "82.5")] = Normal None
  /\ Sweep.is_today Examples.three_sites
       (Stamp.entry 2025 6 15 0 0 0 (JNonString "82.5")) = true.
Proof.
  destruct (backfill_dates_entry_by_host_zone Examples.berlin Examples.three_sites
              2025 6 15 0 0 0 (JNonString "82.5") eq_refl eq_refl)
    as (_ & _ & Hmiss & Hsweep).
  split.
  - apply Hmiss. vm_compute. intros [H _]. by apply H.
  - apply Hsweep. vm_compute. reflexivity.
Defined.


(** ** The records of today *)


(** ** The bulk writer *)

Lemma values_lookup records : forall i r j,
  records !! i = Some r -> j < 9 ->
  Bulk.values records !! (i * 9 + j) = Bulk.columns r !! j.
Proof.
  unfold Bulk.values.
  induction records as [|r0 records IH]; intros i r j Hi Hj; [done|].
  cbn [flat_map]. destruct i as [|i].
  - injection Hi as ->. by rewrite lookup_app_l by (cbn; lia).
  - rewrite lookup_app_r by (cbn; lia).
    replace (S i * 9 + j - length (Bulk.columns r0)) with (i * 9 + j) by (cbn; lia).
    by apply IH.
Qed.

Lemma values_length records : length (Bulk.values records) = 9 * length records.
Proof.
  unfold Bulk.values. induction records as [|r records IH]; [done|].
  cbn [flat_map]. rewrite length_app, IH. cbn. lia.
Qed.

(** X24. The bulk writer never throws. With no record it sends nothing;
    otherwise it sends one request, whether or not the database accepts
    it, whose parameter array holds nine values for each record, and in
    which the placeholder that the group of the [i]-th record gives for
    its [j]-th column, [$(9 i + j + 1)], is bound to that column of that
    record. *)
Theorem bulk_insert_binds_each_column
    (fault : option string) (records : list Store.ScoreRecord)
    (received : list Bulk.Request) :
  let run := Bulk.bulkInsertData fault records received in
  run.1 = Normal tt
  /\ run.2 = match records with
            | [] => received
            | _ => received ++ [Bulk.query records]
            end
  /\ length (Bulk.params (Bulk.query records)) = 9 * length records
  /\ (forall i r j,
        records !! i = Some r -> j < 9 ->
        Bulk.bound (Bulk.query records) (i * 9 + (j + 1)) = Bulk.columns r !! j)
  /\ (forall i,
        Bulk.group i
        = "(" +:+ String.concat ", " (map (fun j => Bulk.dollar (i * 9 + (j + 1))) (seq 0 9))
          +:+ ")").
Proof.
  cbn zeta. split; [|split; [|split; [|split]]].
  - destruct records; [done|]. unfold Bulk.bulkInsertData, try_catch. by destruct fault.
  - destruct records; [done|]. unfold Bulk.bulkInsertData, try_catch. by destruct fault.
  - apply values_length.
  - intros i r j Hi Hj. unfold Bulk.bound.
    replace (i * 9 + (j + 1)) with (S (i * 9 + j)) by lia.
    cbn [Bulk.query Bulk.params]. by apply values_lookup.
  - intros i. unfold Bulk.group. cbn [seq map String.concat].
    rewrite !string_app_assoc.
    replace (i * 9 + (0 + 1)) with (i * 9 + 1) by lia.
    reflexivity.
Qed.
